(** * Supabase CSV importer: the import core, embedded and verified

    A shallow embedding of the import core of the repository
    ([modules/file_splitter.py], [modules/performance_optimizer.py],
    [modules/db_importer.py], [modules/progress_tracker.py], and of
    [main.py] the function [import_file] and the lines that write the
    settings of the tuner over the configuration) together with the
    properties its specification states about it, and further properties
    of the code.

    The first part of the file holds the embedding, one module per source
    module, and the notions the properties are stated with; the second
    part holds the theorems. *)

From Stdlib Require Import ZArith NArith List String Ascii Bool Lia.
From Stdlib Require Import Decimal DecimalNat DecimalZ DecimalString.
From Stdlib Require Import QArith Qround.
From Stdlib Require Import Floats.
From stdpp Require Import base option list gmap strings.

Local Open Scope Z_scope.

(** Decimal literals such as [0.05] denote, as in Python, the nearest
    binary64 value. *)
Set Warnings "-inexact-float".

(* ===================================================================== *)
(** * Part I.  The embedding                                              *)
(* ===================================================================== *)

(* ===================================================================== *)
(** ** Python values the modules share                                    *)
(* ===================================================================== *)

Module Py.

(** Exceptions, with the text [str(e)] gives. *)
Inductive exn :=
| ValueError (msg : string)
| OverflowError (msg : string)
| Error (msg : string).

Definition str_of_exn (e : exn) : string :=
  match e with
  | ValueError msg | OverflowError msg | Error msg => msg
  end.

(** A call returns a value or raises. *)
Inductive result (A : Type) :=
| Ok (a : A)
| Raise (e : exn).

Arguments Ok {A} a.
Arguments Raise {A} e.

Definition bind {A B} (r : result A) (k : A -> result B) : result B :=
  match r with
  | Ok a => k a
  | Raise e => Raise e
  end.

Declare Scope py_scope.
Delimit Scope py_scope with py.
Notation "'let*' x ':=' r 'in' k" := (bind r (fun x => k))
  (at level 10, x name, r at level 100, k at level 200) : py_scope.

(** [float(z)] for an [int]: the nearest binary64 value. *)
Definition float_of_int (z : Z) : float :=
  SF2Prim (binary_normalize prec emax z 0 false).

(** [int(x)] for a [float]: truncation toward zero; NaN and the infinities
    raise. *)
Definition int_of_float (x : float) : result Z :=
  match Prim2SF x with
  | S754_zero _ => Ok 0
  | S754_finite s m e =>
      let magnitude := match e with
                       | Z0 => Zpos m
                       | Zpos p => Z.shiftl (Zpos m) (Zpos p)
                       | Zneg p => Z.shiftr (Zpos m) (Zpos p)
                       end in
      Ok (if s then - magnitude else magnitude)
  | S754_infinity _ => Raise (OverflowError "cannot convert float infinity to integer")
  | S754_nan => Raise (ValueError "cannot convert float NaN to integer")
  end.

(** [min(a, b)] on floats: the second argument when it is smaller, the
    first otherwise. *)
Definition min_float (a b : float) : float :=
  if PrimFloat.ltb b a then b else a.

(** [str(z)] for an [int]. *)
Definition str_of_int (z : Z) : string :=
  NilZero.string_of_int (Z.to_int z).

End Py.

(* ===================================================================== *)
(** ** [modules/file_splitter.py]                                         *)
(* ===================================================================== *)

Module FileSplitter.

(** A Python [str] is a sequence of Unicode code points.  The source file is
    read through [open(file_path, 'r', encoding=encoding, errors='replace')]:
    the splitter works on text, not on bytes. *)
Abbreviation text := (list N).

(** The line terminator as the text layer presents it. *)
Definition LF : N := 10%N.

(** [len(c.encode('utf-8'))] for one code point. *)
Definition utf8_width (c : N) : Z :=
  if (c <? 128)%N then 1
  else if (c <? 2048)%N then 2
  else if (c <? 65536)%N then 3
  else 4.

(** [len(s.encode('utf-8'))]. *)
Fixpoint utf8_len (s : text) : Z :=
  match s with
  | [] => 0
  | c :: r => utf8_width c + utf8_len r
  end.

Definition CR : N := 13%N.

(** Reading in text mode with the default [newline=None], as
    [open(file_path, 'r', ...)] does: every line end of the stored text,
    [\r\n], [\r] or [\n], reaches the program as [\n]. *)
Fixpoint universal_newlines (s : text) : text :=
  match s with
  | [] => []
  | c :: r =>
      if (c =? CR)%N then
        match r with
        | c' :: r' =>
            if (c' =? LF)%N then LF :: universal_newlines r'
            else LF :: universal_newlines r
        | [] => [LF]
        end
      else c :: universal_newlines r
  end.

(** [infile.readline()]: the text up to and including the first line
    terminator (or all of it when there is none), and what remains of the
    stream. *)
Fixpoint readline (s : text) : text * text :=
  match s with
  | [] => ([], [])
  | c :: r =>
      if (c =? LF)%N then ([c], r)
      else let '(l, r') := readline r in (c :: l, r')
  end.

(** [for line in infile]: the lines [readline] returns one after the other
    until the stream is exhausted (see [iter_lines_unfold] below, which
    states exactly that). *)
Fixpoint iter_lines (s : text) : list text :=
  match s with
  | [] => []
  | c :: r =>
      if (c =? LF)%N then [c] :: iter_lines r
      else match iter_lines r with
           | [] => [[c]]
           | l :: ls => (c :: l) :: ls
           end
  end.

(** *** Path handling: [Path(file_path).stem] and [os.path.join] (POSIX) *)

Local Open Scope string_scope.

(** [s.split('/')]. *)
Fixpoint split_slash (s : string) : list string :=
  match s with
  | EmptyString => [EmptyString]
  | String c r =>
      if Ascii.eqb c "/" then EmptyString :: split_slash r
      else match split_slash r with
           | [] => [String c EmptyString]
           | h :: t => String c h :: t
           end
  end.

(** pathlib keeps the components that are neither empty nor ["."]. *)
Definition is_path_part (x : string) : bool :=
  negb (String.eqb x "") && negb (String.eqb x ".").

(** [PurePosixPath(p).name]: the last component, [""] when there is none. *)
Definition path_name (p : string) : string :=
  List.last (List.filter is_path_part (split_slash p)) "".

(** [name.rfind('.')], with [-1] for "not found". *)
Fixpoint rfind_dot_from (i : Z) (s : string) (found : Z) : Z :=
  match s with
  | EmptyString => found
  | String c r => rfind_dot_from (i + 1) r (if Ascii.eqb c "." then i else found)
  end.

Definition rfind_dot (s : string) : Z := rfind_dot_from 0 s (-1).

Definition str_len (s : string) : Z := Z.of_nat (String.length s).

(** [PurePosixPath(p).stem]:
    [i = name.rfind('.'); name[:i] if 0 < i < len(name) - 1 else name]. *)
Definition path_stem (p : string) : string :=
  let name := path_name p in
  let i := rfind_dot name in
  if (0 <? i)%Z && (i <? str_len name - 1)%Z
  then String.substring 0 (Z.to_nat i) name
  else name.

(** [PurePosixPath(p).suffix]:
    [name[i:] if 0 < i < len(name) - 1 else ''] (the dot included). *)
Definition path_suffix (p : string) : string :=
  let name := path_name p in
  let i := rfind_dot name in
  if (0 <? i)%Z && (i <? str_len name - 1)%Z
  then String.substring (Z.to_nat i) (String.length name - Z.to_nat i) name
  else "".

Definition starts_with_slash (s : string) : bool :=
  match s with
  | String c _ => Ascii.eqb c "/"
  | EmptyString => false
  end.

Fixpoint ends_with_slash (s : string) : bool :=
  match s with
  | EmptyString => false
  | String c EmptyString => Ascii.eqb c "/"
  | String _ r => ends_with_slash r
  end.

(** [os.path.join(a, b)] of [posixpath]. *)
Definition os_path_join (a b : string) : string :=
  if starts_with_slash b then b
  else if String.eqb a "" || ends_with_slash a then a ++ b
  else a ++ "/" ++ b.

(** *** Number formatting: [f"{n:04d}"] *)

(** [str(n)] for a natural number. *)
Definition decimal (n : nat) : string := NilZero.string_of_uint (Nat.to_uint n).

Fixpoint zeros (k : nat) : string :=
  match k with
  | O => ""
  | S k' => String "0" (zeros k')
  end.

(** [format(n, '04d')]: at least four digits, zeros on the left. *)
Definition fmt04d (n : nat) : string :=
  let d := decimal n in
  zeros (4 - String.length d) ++ d.

(** [os.path.join(output_dir, f"{base_name}_chunk_{chunk_num:04d}.csv")]. *)
Definition chunk_filename (output_dir base_name : string) (chunk_num : nat) : string :=
  os_path_join output_dir (base_name ++ "_chunk_" ++ fmt04d chunk_num ++ ".csv").

(** *** The file system the chunks are written to *)

(** [open(name, 'w', ...)]: the file is created, or truncated. *)
Definition fs_open_w (name : string) (fs : gmap string text) : gmap string text :=
  <[name := []]> fs.

(** [f.write(data)] on the file opened under [name]: appended at the end. *)
Definition fs_write (name : string) (data : text) (fs : gmap string text)
  : gmap string text :=
  alter (fun old => (old ++ data)%list) name fs.

(** *** [FileSplitter.split_file] *)

(** The local variables of the loop, and the files written so far. *)
Record loop_state := LoopState {
  chunk_num : nat;
  current_chunk_size : Z;
  current_chunk_file : option string;
  chunk_files : list string;
  files : gmap string text
}.

Section SplitFile.

Variable output_dir : string.
Variable base_name : string.
Variable chunk_size_bytes : Z.
Variable header : text.

(** The [if] that starts a new chunk (lines 45-57). *)
Definition needs_new_chunk (st : loop_state) : bool :=
  match current_chunk_file st with
  | None => true
  | Some _ => (chunk_size_bytes <=? current_chunk_size st)%Z
  end.

Definition start_chunk (st : loop_state) : loop_state :=
  let n := S (chunk_num st) in
  let chunk_filename := chunk_filename output_dir base_name n in
  {| chunk_num := n;
     current_chunk_size := utf8_len header;
     current_chunk_file := Some chunk_filename;
     chunk_files := (chunk_files st ++ [chunk_filename])%list;
     files := fs_write chunk_filename header
                (fs_open_w chunk_filename (files st)) |}.

(** Lines 60-61. *)
Definition write_line (line : text) (st : loop_state) : loop_state :=
  match current_chunk_file st with
  | None => st
  | Some f =>
      {| chunk_num := chunk_num st;
         current_chunk_size := (current_chunk_size st + utf8_len line)%Z;
         current_chunk_file := Some f;
         chunk_files := chunk_files st;
         files := fs_write f line (files st) |}
  end.

(** One iteration of the [for] loop. *)
Definition loop_body (st : loop_state) (line : text) : loop_state :=
  write_line line (if needs_new_chunk st then start_chunk st else st).

Definition run_loop (lines : list text) (st : loop_state) : loop_state :=
  fold_left loop_body lines st.

(** The invariant of the loop: after some iterations the chunks created are
    numbered 1, 2, ... in the order of the result list, the open file is the
    last of them, and every chunk file holds the header followed by the lines
    of its group ([groups] has one list of lines per chunk). *)
Definition chunk_inv (st : loop_state) (groups : list (list text)) : Prop :=
  chunk_files st = map (chunk_filename output_dir base_name) (seq 1 (chunk_num st)) /\
  current_chunk_file st = last (chunk_files st) /\
  Forall2 (fun name g => files st !! name = Some (header ++ concat g)%list)
          (chunk_files st) groups /\
  Forall (fun g => g <> []) groups.

End SplitFile.

Definition initial_state (fs : gmap string text) : loop_state :=
  {| chunk_num := 0;
     current_chunk_size := 0;
     current_chunk_file := None;
     chunk_files := [];
     files := fs |}.

(** [split_file(file_path, chunk_size_mb, output_dir)].  [temp_directory] is
    [config['directories']['temp_directory']]; [stored] is the text of the
    source file as it is stored (its bytes, decoded with the encoding that
    [detect_encoding] reports, undecodable bytes replaced); [fs] holds the
    files present before the call, as the text written to them (the chunks
    are opened with [newline=''], so what is written is what is stored).
    The result is the returned list [chunk_files] and the files after the
    call. *)
Definition split_file (temp_directory : string) (file_path : string)
    (chunk_size_mb : Z) (output_dir : option string)
    (stored : text) (fs : gmap string text) : list string * gmap string text :=
  let output_dir := match output_dir with
                    | None => temp_directory
                    | Some d => d
                    end in
  let chunk_size_bytes := (chunk_size_mb * 1024 * 1024)%Z in
  let base_name := path_stem file_path in
  let infile := universal_newlines stored in
  let '(header, rest) := readline infile in
  let st := run_loop output_dir base_name chunk_size_bytes header
              (iter_lines rest) (initial_state fs) in
  (chunk_files st, files st).

(** Reading the chunk files back, in the order of the returned list. *)
Definition read_files (names : list string) (fs : gmap string text)
  : option (list text) :=
  mapM (fun name => fs !! name) names.

(** A chunk with its copy of the header removed. *)
Definition chunk_body (header chunk : text) : text :=
  drop (length header) chunk.

(** *** Notions the properties are stated with *)

(** Reading a formatted number back (the inverse of [fmt04d]). *)
Definition parse_nat (s : string) : option nat :=
  option_map Nat.of_uint (NilEmpty.uint_of_string s).

(** A line that ends with its terminator, and has no other. *)
Definition complete (l : text) : Prop :=
  exists pre, l = (pre ++ [LF])%list /\ Forall (fun c => c <> LF) pre.

(** What iterating over a stream yields: terminated lines, and possibly a
    last line without terminator. *)
Inductive wf_lines : list text -> Prop :=
| wf_nil : wf_lines []
| wf_last l : l <> [] -> Forall (fun c => c <> LF) l -> wf_lines [l]
| wf_cons l ls : complete l -> wf_lines ls -> wf_lines (l :: ls).

(** A string literal as text (ASCII only). *)
Definition text_of_string (s : string) : text :=
  map N_of_ascii (list_ascii_of_string s).

(** The name the specification gives the [i]-th chunk:
    [{stem}_chunk_{i:04d}.{ext}], with the stem and the extension of the
    source file. *)
Definition spec_chunk_name (file_path : string) (i : nat) : string :=
  path_stem file_path ++ "_chunk_" ++ fmt04d i ++ path_suffix file_path.

End FileSplitter.

(* ===================================================================== *)
(** ** [modules/performance_optimizer.py]                                 *)
(* ===================================================================== *)

Module PerformanceOptimizer.
Import Py.
Local Open Scope py_scope.
Local Open Scope string_scope.

Inductive tier_kind := shared | dedicated.

Definition tier_eqb (a b : tier_kind) : bool :=
  match a, b with
  | shared, shared | dedicated, dedicated => true
  | _, _ => false
  end.

(** An entry of [INSTANCE_SPECS].  The source writes [memory_gb] as an int for
    every tier but Nano (0.5); each is used only in float arithmetic, where
    the int is converted exactly, so the field holds the float. *)
Record instance_spec := InstanceSpec {
  name : string;
  memory_gb : float;
  cpu_cores : Z;
  tier : tier_kind
}.

(** An entry of [PERFORMANCE_LEVELS]. *)
Record performance_level := PerformanceLevel {
  level_name : string;
  multiplier : float
}.

(** The class attribute [INSTANCE_SPECS], a dict keyed by 1..11. *)
Definition INSTANCE_SPECS (k : Z) : option instance_spec :=
  match k with
  | 1 => Some (InstanceSpec "Nano" 0.5 1 shared)
  | 2 => Some (InstanceSpec "Micro" 1 2 dedicated)
  | 3 => Some (InstanceSpec "Small" 2 2 dedicated)
  | 4 => Some (InstanceSpec "Medium" 4 2 dedicated)
  | 5 => Some (InstanceSpec "Large" 8 2 dedicated)
  | 6 => Some (InstanceSpec "XL" 16 4 dedicated)
  | 7 => Some (InstanceSpec "2XL" 32 8 dedicated)
  | 8 => Some (InstanceSpec "4XL" 64 16 dedicated)
  | 9 => Some (InstanceSpec "8XL" 128 32 dedicated)
  | 10 => Some (InstanceSpec "12XL" 192 48 dedicated)
  | 11 => Some (InstanceSpec "16XL" 256 64 dedicated)
  | _ => None
  end.

(** The class attribute [PERFORMANCE_LEVELS], a dict keyed by 1..3. *)
Definition PERFORMANCE_LEVELS (k : Z) : option performance_level :=
  match k with
  | 1 => Some (PerformanceLevel "Conservative" 0.5)
  | 2 => Some (PerformanceLevel "Balanced" 0.75)
  | 3 => Some (PerformanceLevel "Aggressive" 1.0)
  | _ => None
  end.

(** [self.local_specs], as [_get_local_specs] reads it from the machine. *)
Record local_specs := LocalSpecs {
  local_cpu_cores : Z;
  local_memory_gb : float;
  available_memory_gb : float;
  cpu_percent : float
}.

(** The dict [_calculate_settings] returns ([recommended_actions], a list of
    advice shown to the user, is left out). *)
Record pool_settings := PoolSettings {
  min_connections : Z;
  max_connections : Z;
  keepalive : Z
}.

Record import_settings := ImportSettings {
  chunk_size_mb : Z;
  batch_size : Z;
  parallel_workers : Z;
  use_copy : bool
}.

Record optimization_settings := OptimizationSettings {
  work_mem : string;
  maintenance_work_mem : string;
  statement_timeout : string;
  disable_triggers : bool;
  run_vacuum : bool;
  run_analyze : bool
}.

Record settings := Settings {
  database_pool : pool_settings;
  import : import_settings;
  optimization : optimization_settings
}.

(** [_calculate_work_mem]. *)
Definition _calculate_work_mem (instance_memory multiplier : float) : result Z :=
  let base_percent := (0.05 + (0.05 * multiplier))%float in
  let* work_mem := int_of_float (instance_memory * 1024 * base_percent)%float in
  Ok (Z.max 64 (Z.min work_mem 1024)).

(** [_calculate_chunk_size]. *)
Definition _calculate_chunk_size (instance_memory local_memory multiplier : float)
  : result Z :=
  let limiting_memory := min_float instance_memory (local_memory * 0.5)%float in
  let* chunk_size := (if PrimFloat.ltb limiting_memory 2 then
       int_of_float (50 + (50 * multiplier))%float
     else if PrimFloat.ltb limiting_memory 8 then
       int_of_float (100 + (100 * multiplier))%float
     else
       int_of_float (200 + (300 * multiplier))%float) in
  Ok (Z.min chunk_size 1000).

(** [_calculate_batch_size]. *)
Definition _calculate_batch_size (instance_memory multiplier : float) : result Z :=
  let base := if PrimFloat.ltb instance_memory 2 then 1000
              else if PrimFloat.ltb instance_memory 8 then 5000
              else 10000 in
  int_of_float (float_of_int base * (1 + multiplier))%float.

(** [_calculate_timeout]. *)
Definition _calculate_timeout (chunk_size_mb : Z) (multiplier : float)
  : result string :=
  let* minutes := int_of_float
               ((float_of_int chunk_size_mb / 50) * (2 - multiplier) * 10)%float in
  Ok (if (minutes <=? 30)%Z then "30min"
      else if (minutes <=? 60)%Z then "1h"
      else "2h").

(** The connection pool settings of [_calculate_settings] (lines 77-92):
    [max_connections] and [parallel_workers]. *)
Definition connection_settings (instance : instance_spec) (multiplier : float)
    (local_cores : Z) : result (Z * Z) :=
  if tier_eqb (tier instance) shared then
    let* max_connections := int_of_float (5 * multiplier)%float in
    Ok (max_connections, 1)
  else
    let instance_cores := cpu_cores instance in
    let* uncapped := int_of_float
                  (10 + float_of_int (instance_cores * 2) * multiplier)%float in
    let max_connections := Z.min uncapped 50 in
    let* by_cores := int_of_float (float_of_int instance_cores * multiplier)%float in
    let parallel_workers :=
      Z.min (Z.min by_cores (local_cores - 1)) (max_connections - 2) in
    Ok (max_connections, parallel_workers).

(** [_calculate_settings]. *)
Definition _calculate_settings (local : local_specs) (instance : instance_spec)
    (perf : performance_level) : result settings :=
  let multiplier := multiplier perf in
  let instance_memory := memory_gb instance in
  let local_memory := available_memory_gb local in
  let local_cores := local_cpu_cores local in
  let* conn := connection_settings instance multiplier local_cores in
  let '(max_connections, parallel_workers) := conn in
  let* work_mem := _calculate_work_mem instance_memory multiplier in
  let maintenance_work_mem := work_mem * 4 in
  let* chunk_size_mb := _calculate_chunk_size instance_memory local_memory multiplier in
  let* batch_size := _calculate_batch_size instance_memory multiplier in
  let* timeout := _calculate_timeout chunk_size_mb multiplier in
  Ok {| database_pool :=
          {| min_connections := Z.max 2 parallel_workers;
             max_connections := max_connections;
             keepalive := 30 |};
        import :=
          {| chunk_size_mb := chunk_size_mb;
             batch_size := batch_size;
             parallel_workers := parallel_workers;
             use_copy := true |};
        optimization :=
          {| work_mem := str_of_int work_mem ++ "MB";
             maintenance_work_mem := str_of_int maintenance_work_mem ++ "MB";
             statement_timeout := timeout;
             disable_triggers := PrimFloat.ltb 0.5 multiplier;
             run_vacuum := PrimFloat.ltb multiplier 1.0;
             run_analyze := true |} |}.

(** [get_optimized_settings]. *)
Definition get_optimized_settings (local : local_specs)
    (instance_size performance_level : Z) : result settings :=
  match INSTANCE_SPECS instance_size with
  | None => Raise (ValueError "Invalid instance size. Choose between 1-11")
  | Some instance =>
      match PERFORMANCE_LEVELS performance_level with
      | None =>
          Raise (ValueError
            "Invalid performance level. Choose 1 (Conservative), 2 (Balanced), or 3 (Aggressive)")
      | Some perf => _calculate_settings local instance perf
      end
  end.

(** *** The formulas of the specification

    The specification gives the settings as formulas over the real numbers;
    they are stated here over the rationals, with the rounding to an integer
    left as a parameter [rnd]. *)

(** The exact value of a finite float. *)
Definition float_to_Q (x : float) : Q :=
  match Prim2SF x with
  | S754_finite s m e =>
      ((if s then -1 else 1) * inject_Z (Zpos m) * Qpower 2 e)%Q
  | _ => 0%Q
  end.

(** [round(x)] as Python has it: the nearest integer, a tie going to the
    even one. *)
Definition round_half_even (x : Q) : Z :=
  let f := Qfloor x in
  match Qcompare (x - inject_Z f) (1 # 2) with
  | Lt => f
  | Gt => f + 1
  | Eq => if Z.even f then f else f + 1
  end.

Definition clamp (x lo hi : Z) : Z := Z.max lo (Z.min x hi).

Definition formula_max_connections (rnd : Q -> Z) (instance : instance_spec)
    (m : Q) : Z :=
  match tier instance with
  | shared => rnd (5 * m)%Q
  | dedicated => Z.min (rnd (10 + 2 * inject_Z (cpu_cores instance) * m)%Q) 50
  end.

Definition formula_parallel_workers (rnd : Q -> Z) (instance : instance_spec)
    (m : Q) (local_cores : Z) : Z :=
  match tier instance with
  | shared => 1
  | dedicated =>
      Z.min (Z.min (rnd (inject_Z (cpu_cores instance) * m)%Q) (local_cores - 1))
            (formula_max_connections rnd instance m - 2)
  end.

Definition formula_work_mem_mb (rnd : Q -> Z) (instance_memory_gb m : Q) : Z :=
  clamp (rnd (instance_memory_gb * 1024 * ((5 # 100) + (5 # 100) * m))%Q) 64 1024.

End PerformanceOptimizer.

(* ===================================================================== *)
(** ** [modules/progress_tracker.py]                                      *)
(* ===================================================================== *)

Module ProgressTracker.

(** The counters of a [ProgressTracker] ([start_time], a clock reading, and
    the lock are left out: every method runs under the lock, so each is one
    step). *)
Record tracker := Tracker {
  total_rows : Z;
  total_files : Z;
  current_file : Z;
  bytes_processed : Z;
  current_status : string
}.

(** [ProgressTracker()]. *)
Definition init : tracker :=
  {| total_rows := 0; total_files := 0; current_file := 0;
     bytes_processed := 0; current_status := "Initializing..." |}.

Definition add_rows (count : Z) (p : tracker) : tracker :=
  {| total_rows := total_rows p + count;
     total_files := total_files p;
     current_file := current_file p;
     bytes_processed := bytes_processed p;
     current_status := current_status p |}.

Definition add_bytes (count : Z) (p : tracker) : tracker :=
  {| total_rows := total_rows p;
     total_files := total_files p;
     current_file := current_file p;
     bytes_processed := bytes_processed p + count;
     current_status := current_status p |}.

Definition update_status (status : string) (p : tracker) : tracker :=
  {| total_rows := total_rows p;
     total_files := total_files p;
     current_file := current_file p;
     bytes_processed := bytes_processed p;
     current_status := status |}.

End ProgressTracker.

(* ===================================================================== *)
(** ** [modules/db_importer.py]                                           *)
(* ===================================================================== *)

Module DatabaseImporter.
Import Py.
Local Open Scope string_scope.

(** *** The configuration the importer reads *)

(** [config['optimization']]; a key that is absent is [None]. *)
Record optimization_config := OptimizationConfig {
  opt_work_mem : option string;
  opt_maintenance_work_mem : option string;
  opt_statement_timeout : option string;
  opt_disable_triggers : option bool
}.

Record config := Config {
  table_name : string;               (* config['database']['table_name'] *)
  pool_max_connections : Z;          (* config['database']['pool']['max_connections'] *)
  import_parallel_workers : Z;       (* config['import']['parallel_workers'] *)
  optimization : option optimization_config
}.

(** *** The database as the importer sees it *)

(** The statements the importer sends through [cursor.execute]. *)
Inductive statement :=
| SelectCurrentSettings
| SetParam (name value : string)
| DisableTriggers (table : string).

(** The text of a statement, as the source writes it. *)
Definition sql (s : statement) : string :=
  match s with
  | SelectCurrentSettings =>
      "SELECT current_setting('work_mem') as work_mem, current_setting('maintenance_work_mem') as maintenance_work_mem, current_setting('checkpoint_completion_target') as checkpoint_completion_target, current_setting('statement_timeout') as statement_timeout"
  | SetParam name value => "SET " ++ name ++ " = " ++ value
  | DisableTriggers table => "ALTER TABLE " ++ table ++ " DISABLE TRIGGER ALL"
  end.

(** A row as [csv.DictReader] yields it: column name and value. *)
Abbreviation row := (list (string * string)).

(** What a transaction can change: the parameters of the session, the
    tables whose triggers are disabled, and the rows of the target table
    (their number). *)
Record db_state := DbState {
  session_settings : gmap string string;
  triggers_disabled : gset string;
  table_rows : Z
}.

(** A connection: the state as committed, and the state inside the
    transaction that is open. *)
Record connection := Connection {
  committed : db_state;
  pending : db_state
}.

Definition set_param (name value : string) (d : db_state) : db_state :=
  {| session_settings := <[name := value]> (session_settings d);
     triggers_disabled := triggers_disabled d;
     table_rows := table_rows d |}.

Definition disable_triggers (table : string) (d : db_state) : db_state :=
  {| session_settings := session_settings d;
     triggers_disabled := {[table]} ∪ triggers_disabled d;
     table_rows := table_rows d |}.

Definition add_table_rows (n : Z) (d : db_state) : db_state :=
  {| session_settings := session_settings d;
     triggers_disabled := triggers_disabled d;
     table_rows := table_rows d + n |}.

Definition apply_statement (s : statement) (d : db_state) : db_state :=
  match s with
  | SelectCurrentSettings => d
  | SetParam name value => set_param name value d
  | DisableTriggers table => disable_triggers table d
  end.

Definition in_transaction (f : db_state -> db_state) (c : connection) : connection :=
  {| committed := committed c; pending := f (pending c) |}.

(** [conn.commit()]. *)
Definition commit (c : connection) : connection :=
  {| committed := pending c; pending := pending c |}.

(** [conn.rollback()]. *)
Definition rollback (c : connection) : connection :=
  {| committed := committed c; pending := committed c |}.

(** *** What the importer does, as a trace *)

Inductive log_entry :=
| LogApplied (s : statement)
| LogDisabledTriggers (table : string)
| LogOptimized
| LogErrorOptimizing (e : exn)
| LogStartingImport (total_files : nat)
| LogFailedToImport (file_path : string)
| LogUsingWorkers (max_workers : Z)
| LogImporting (file_path : string) (file_size : Z)
| LogImported (file_path : string) (rows_imported : Z)
| LogErrorImporting (file_path : string) (e : exn)
| LogFallingBack
| LogImportedBatchInsert (rows_imported : Z)
| LogBatchInsertFailed (e : exn).

Inductive event :=
| EvGetConn
| EvPutConn
| EvExecute (s : statement)
| EvFetchOne
| EvCopy (file_path : string)
| EvReadRows (file_path : string)
| EvInsertBatch (batch : list row)
| EvCommit
| EvRollback
| EvLog (l : log_entry).

(** The importer, its tracker, its connection to the database, and what
    it has done so far (oldest first). *)
Record state := State {
  progress : ProgressTracker.tracker;
  conn : connection;
  original_settings : option (list (option string));
  trace : list event
}.

(** *** The world outside: where a call fails

    Statements, file operations, commits and rollbacks can raise.  For each
    call of the importer the environment names the first operation of the
    [try] that raises, if any, with the exception, and tells whether the
    [conn.rollback()] of the handler raises in its turn.  [getconn],
    [putconn] and the logging are taken to succeed. *)

Inductive optimize_stage :=
| OptExecute (k : nat)     (* the k-th [cursor.execute] of the call, from 0 *)
| OptCommit.

Inductive bulk_stage :=
| BulkSetTimeout | BulkGetSize | BulkOpen | BulkCopy | BulkCommit.

Inductive fallback_stage :=
| FbOpen
| FbRead (k : nat)        (* the reader raises after yielding k rows *)
| FbInsert (k : nat)      (* the k-th [_insert_batch] of the call raises, from 0 *)
| FbCommit.

Definition optimize_stage_eqb (a b : optimize_stage) : bool :=
  match a, b with
  | OptExecute k, OptExecute k' => Nat.eqb k k'
  | OptCommit, OptCommit => true
  | _, _ => false
  end.

Definition bulk_stage_eqb (a b : bulk_stage) : bool :=
  match a, b with
  | BulkSetTimeout, BulkSetTimeout | BulkGetSize, BulkGetSize
  | BulkOpen, BulkOpen | BulkCopy, BulkCopy | BulkCommit, BulkCommit => true
  | _, _ => false
  end.

Definition fallback_stage_eqb (a b : fallback_stage) : bool :=
  match a, b with
  | FbOpen, FbOpen | FbCommit, FbCommit => true
  | FbRead k, FbRead k' | FbInsert k, FbInsert k' => Nat.eqb k k'
  | _, _ => false
  end.

(** What one file meets: its size, the row count the bulk copy reports, the
    rows a CSV reader finds in it, the failures of the two load paths, and
    the failures of the rollbacks of their handlers (lines 265 and 311). *)
Record file_env := FileEnv {
  file_size : Z;
  copy_rowcount : Z;
  csv_rows : list row;
  bulk_failure : option (bulk_stage * exn);
  fallback_failure : option (fallback_stage * exn);
  rollback_failure : option exn;
  fallback_rollback_failure : option exn
}.

Definition raised_at {S : Type} (eqb : S -> S -> bool)
    (failure : option (S * exn)) (s : S) : option exn :=
  match failure with
  | Some (s', e) => if eqb s s' then Some e else None
  | None => None
  end.

(** *** State passing *)

Definition M (A : Type) : Type := state -> A * state.

Definition ret {A} (a : A) : M A := fun st => (a, st).

Definition bindM {A B} (m : M A) (k : A -> M B) : M B :=
  fun st => let '(a, st') := m st in k a st'.

(** Sequencing of calls that can raise: the exception skips what follows. *)
Definition bindR {A B} (m : M (result A)) (k : A -> M (result B)) : M (result B) :=
  fun st => let '(r, st') := m st in
            match r with
            | Ok a => k a st'
            | Raise e => (Raise e, st')
            end.

Declare Scope m_scope.
Delimit Scope m_scope with m.
Notation "'let!' x ':=' m 'in' k" := (bindM m (fun x => k))
  (at level 10, x name, m at level 100, k at level 200) : m_scope.
Notation "m ';;' k" := (bindM m (fun _ => k))
  (at level 100, k at level 200, right associativity) : m_scope.
Notation "'let?' x ':=' m 'in' k" := (bindR m (fun x => k))
  (at level 10, x name, m at level 100, k at level 200) : m_scope.
Local Open Scope m_scope.

Definition emit (e : event) : M unit :=
  fun st => (tt, {| progress := progress st; conn := conn st;
                    original_settings := original_settings st;
                    trace := (trace st ++ [e])%list |}).

Definition log_message (l : log_entry) : M unit := emit (EvLog l).

Definition on_progress (f : ProgressTracker.tracker -> ProgressTracker.tracker)
  : M unit :=
  fun st => (tt, {| progress := f (progress st); conn := conn st;
                    original_settings := original_settings st;
                    trace := trace st |}).

Definition on_conn (f : connection -> connection) : M unit :=
  fun st => (tt, {| progress := progress st; conn := f (conn st);
                    original_settings := original_settings st;
                    trace := trace st |}).

Definition set_original_settings (v : list (option string)) : M unit :=
  fun st => (tt, {| progress := progress st; conn := conn st;
                    original_settings := Some v;
                    trace := trace st |}).

Definition get_pending : M db_state := fun st => (pending (conn st), st).

(** An operation that the environment may make raise: nothing else happens
    then. *)
Definition may_raise (failure : option exn) (on_success : M unit) : M (result unit) :=
  match failure with
  | Some e => ret (Raise e)
  | None => on_success ;; ret (Ok tt)
  end.

(** [cursor.execute(s)]. *)
Definition execute (failure : option exn) (s : statement) : M (result unit) :=
  emit (EvExecute s) ;;
  may_raise failure (on_conn (in_transaction (apply_statement s))).

(** [conn.commit()], which can raise. *)
Definition do_commit (failure : option exn) : M (result unit) :=
  emit EvCommit ;;
  may_raise failure (on_conn commit).

(** [conn.rollback()], which can raise. *)
Definition do_rollback (failure : option exn) : M (result unit) :=
  emit EvRollback ;;
  may_raise failure (on_conn rollback).

(** *** [optimize_for_import] *)

(** The statements of the list [optimizations] (lines 100-108). *)
Definition optimizations (timeout : string) : list statement :=
  [ SetParam "work_mem" "'256MB'";
    SetParam "maintenance_work_mem" "'1GB'";
    SetParam "checkpoint_completion_target" "0.9";
    SetParam "synchronous_commit" "OFF";
    SetParam "wal_writer_delay" "'200ms'";
    SetParam "statement_timeout" ("'" ++ timeout ++ "'") ].

(** The [for] loop over [optimizations]; [k] counts the calls of
    [cursor.execute] made so far. *)
Fixpoint apply_optimizations (failure : option (optimize_stage * exn))
    (k : nat) (l : list statement) : M (result nat) :=
  match l with
  | [] => ret (Ok k)
  | optimization :: rest =>
      let? _ := execute (raised_at optimize_stage_eqb failure (OptExecute k))
                        optimization in
      log_message (LogApplied optimization) ;;
      apply_optimizations failure (S k) rest
  end.

(** The names of the four settings the first query reads. *)
Definition saved_settings : list string :=
  ["work_mem"; "maintenance_work_mem"; "checkpoint_completion_target";
   "statement_timeout"].

(** The body of the [try] (lines 86-120). *)
Definition optimize_body (cfg : config) (failure : option (optimize_stage * exn))
  : M (result unit) :=
  match optimization cfg with
  | None => ret (Raise (Error "'optimization'"))      (* KeyError *)
  | Some optimization_config =>
      let table_name := table_name cfg in
      let? _ := execute (raised_at optimize_stage_eqb failure (OptExecute 0))
                        SelectCurrentSettings in
      let! current := get_pending in
      emit EvFetchOne ;;
      set_original_settings
        (map (fun name => session_settings current !! name) saved_settings) ;;
      let timeout := default "30min" (opt_statement_timeout optimization_config) in
      let? k := apply_optimizations failure 1 (optimizations timeout) in
      let? _ :=
        (if default false (opt_disable_triggers optimization_config) then
           let? _ := execute (raised_at optimize_stage_eqb failure (OptExecute k))
                             (DisableTriggers table_name) in
           log_message (LogDisabledTriggers table_name) ;;
           ret (Ok tt)
         else ret (Ok tt)) in
      let? _ := do_commit (raised_at optimize_stage_eqb failure OptCommit) in
      log_message LogOptimized ;;
      ret (Ok tt)
  end.

(** [optimize_for_import]: [try] / [except Exception] / [finally].  An
    exception of the [try] is logged and the transaction rolled back; the
    rollback is not guarded, so that an exception it raises leaves the call,
    after the [finally]. *)
Definition optimize_for_import (cfg : config)
    (failure : option (optimize_stage * exn)) (rollback_raises : option exn)
  : M (result unit) :=
  emit EvGetConn ;;
  let! r := optimize_body cfg failure in
  let! r := match r with
            | Ok _ => ret (Ok tt)
            | Raise e =>
                log_message (LogErrorOptimizing e) ;;
                do_rollback rollback_raises
            end in
  emit EvPutConn ;;
  ret r.

(** *** [_import_single_file] and its fallback *)

(** ["COPY" in s]. *)
Fixpoint contains (needle s : string) : bool :=
  String.prefix needle s ||
  match s with
  | EmptyString => false
  | String _ rest => contains needle rest
  end.

(** [self.config.get('optimization', {}).get('statement_timeout', '30min')]. *)
Definition statement_timeout (cfg : config) : string :=
  match optimization cfg with
  | None => "30min"
  | Some o => default "30min" (opt_statement_timeout o)
  end.

(** [_insert_batch]: nothing for an empty batch, one [execute_batch] of
    all the rows otherwise. *)
Definition _insert_batch (failure : option exn) (batch : list row) : M (result unit) :=
  match batch with
  | [] => ret (Ok tt)
  | _ =>
      emit (EvInsertBatch batch) ;;
      may_raise failure
        (on_conn (in_transaction (add_table_rows (Z.of_nat (length batch)))))
  end.

(** The local variables of the loop of [_import_with_batch_insert]: the
    batch being filled, the rows imported, and the numbers of rows read and
    of batches inserted so far. *)
Record batch_state := BatchState {
  batch : list row;
  rows_imported : Z;
  rows_read : nat;
  batches_sent : nat
}.

Section BatchInsert.

Variable batch_size : Z.
Variable failure : option (fallback_stage * exn).

(** Inserting the batch and counting its rows (lines 293-296, 300-302). *)
Definition flush_batch (b : batch_state) : M (result batch_state) :=
  let? _ := _insert_batch
              (raised_at fallback_stage_eqb failure (FbInsert (batches_sent b)))
              (batch b) in
  on_progress (ProgressTracker.add_rows (Z.of_nat (length (batch b)))) ;;
  ret (Ok {| batch := [];
             rows_imported := rows_imported b + Z.of_nat (length (batch b));
             rows_read := rows_read b;
             batches_sent := S (batches_sent b) |}).

(** [for row in reader] (lines 289-296). *)
Fixpoint batch_loop (rows : list row) (b : batch_state) : M (result batch_state) :=
  match raised_at fallback_stage_eqb failure (FbRead (rows_read b)) with
  | Some e => ret (Raise e)
  | None =>
      match rows with
      | [] => ret (Ok b)
      | row :: rest =>
          let b1 := {| batch := (batch b ++ [row])%list;
                       rows_imported := rows_imported b;
                       rows_read := S (rows_read b);
                       batches_sent := batches_sent b |} in
          let? b2 :=
            (if (batch_size <=? Z.of_nat (length (batch b1)))%Z
             then flush_batch b1
             else ret (Ok b1)) in
          batch_loop rest b2
      end
  end.

End BatchInsert.

(** The body of the [try] of [_import_with_batch_insert] (lines 280-307). *)
Definition batch_insert_body (file_path : string) (batch_size : Z) (w : file_env)
  : M (result bool) :=
  let failure := fallback_failure w in
  let? _ := may_raise (raised_at fallback_stage_eqb failure FbOpen)
                      (emit (EvReadRows file_path)) in
  let? b := batch_loop batch_size failure (csv_rows w)
              {| batch := []; rows_imported := 0; rows_read := 0;
                 batches_sent := 0 |} in
  let? b := (match batch b with
             | [] => ret (Ok b)
             | _ => flush_batch failure b
             end) in
  let? _ := do_commit (raised_at fallback_stage_eqb failure FbCommit) in
  log_message (LogImportedBatchInsert (rows_imported b)) ;;
  ret (Ok true).

(** [_import_with_batch_insert]; the rollback of its handler (line 311)
    is not guarded. *)
Definition _import_with_batch_insert (file_path : string) (batch_size : Z)
    (w : file_env) : M (result bool) :=
  let! r := batch_insert_body file_path batch_size w in
  match r with
  | Ok b => ret (Ok b)
  | Raise e =>
      log_message (LogBatchInsertFailed e) ;;
      let? _ := do_rollback (fallback_rollback_failure w) in
      ret (Ok false)
  end.

(** The body of the [try] of [_import_single_file] (lines 219-261). *)
Definition bulk_copy_body (cfg : config) (file_path : string) (w : file_env)
  : M (result bool) :=
  let failure := bulk_failure w in
  let timeout := statement_timeout cfg in
  let? _ := execute (raised_at bulk_stage_eqb failure BulkSetTimeout)
                    (SetParam "statement_timeout" ("'" ++ timeout ++ "'")) in
  let? _ := may_raise (raised_at bulk_stage_eqb failure BulkGetSize) (ret tt) in
  let file_size := file_size w in
  log_message (LogImporting file_path file_size) ;;
  let? _ := may_raise (raised_at bulk_stage_eqb failure BulkOpen) (ret tt) in
  emit (EvCopy file_path) ;;
  let? _ := may_raise (raised_at bulk_stage_eqb failure BulkCopy)
                      (on_conn (in_transaction (add_table_rows (copy_rowcount w)))) in
  let rows_imported := copy_rowcount w in
  let? _ := do_commit (raised_at bulk_stage_eqb failure BulkCommit) in
  on_progress (ProgressTracker.add_rows rows_imported) ;;
  on_progress (ProgressTracker.add_bytes file_size) ;;
  log_message (LogImported file_path rows_imported) ;;
  ret (Ok true).

(** The [except Exception as e] block of [_import_single_file]
    (lines 263-272); its rollback (line 265) is not guarded. *)
Definition except_block (file_path : string) (batch_size : Z) (w : file_env)
    (e : exn) : M (result bool) :=
  log_message (LogErrorImporting file_path e) ;;
  let? _ := do_rollback (rollback_failure w) in
  if contains "COPY" (str_of_exn e) then
    log_message LogFallingBack ;;
    _import_with_batch_insert file_path batch_size w
  else ret (Ok false).

(** [_import_single_file]: [try] / [except Exception] / [finally].  What
    the handler returns is returned, and what it raises is raised, after the
    connection is given back. *)
Definition _import_single_file (cfg : config) (file_path : string)
    (batch_size : Z) (w : file_env) : M (result bool) :=
  emit EvGetConn ;;
  let! r := bulk_copy_body cfg file_path w in
  let! result :=
    match r with
    | Ok b => ret (Ok b)
    | Raise e => except_block file_path batch_size w e
    end in
  emit EvPutConn ;;
  ret result.

(** *** [import_files] *)

(** [_import_files_sequential]; [world i] is what the [i]-th file of the job
    meets, [i] counts the files from 0.  The loop has no [try]: an exception
    that leaves [_import_single_file] ends the loop and the job. *)
Fixpoint sequential_loop (cfg : config) (batch_size : Z) (world : nat -> file_env)
    (total : nat) (i : nat) (file_paths : list string) (success_count : Z)
  : M (result Z) :=
  match file_paths with
  | [] => ret (Ok success_count)
  | file_path :: rest =>
      on_progress (ProgressTracker.update_status
                     ("Importing file " ++ FileSplitter.decimal (S i) ++ "/"
                      ++ FileSplitter.decimal total)) ;;
      let? ok := _import_single_file cfg file_path batch_size (world i) in
      let! success_count :=
        (if ok then ret (success_count + 1)
         else log_message (LogFailedToImport file_path) ;; ret success_count) in
      sequential_loop cfg batch_size world total (S i) rest success_count
  end.

Definition _import_files_sequential (cfg : config) (file_paths : list string)
    (batch_size : Z) (world : nat -> file_env) : M (result bool) :=
  let? success_count :=
    sequential_loop cfg batch_size world (length file_paths) 0 file_paths 0 in
  ret (Ok (success_count =? Z.of_nat (length file_paths))%Z).

(** The loop over [as_completed(futures)]: [schedule] lists the files, by
    their index in [file_paths], in the order in which the workers take
    them.  The imports of different workers meet only in the tracker, whose
    updates are made under its lock, and each has a connection of its own;
    each import is taken as one step.  An exception that leaves an import is
    caught around [future.result()] (lines 204-208): it is logged and the
    file is not counted. *)
Fixpoint parallel_loop (cfg : config) (batch_size : Z) (world : nat -> file_env)
    (file_paths : list string) (schedule : list nat) (success_count : Z) : M Z :=
  match schedule with
  | [] => ret success_count
  | i :: rest =>
      match file_paths !! i with
      | None => parallel_loop cfg batch_size world file_paths rest success_count
      | Some file_path =>
          let! r := _import_single_file cfg file_path batch_size (world i) in
          match r with
          | Ok ok =>
              parallel_loop cfg batch_size world file_paths rest
                            (if ok then success_count + 1 else success_count)
          | Raise e =>
              log_message (LogErrorImporting file_path e) ;;
              parallel_loop cfg batch_size world file_paths rest success_count
          end
      end
  end.

(** [_import_files_parallel]; [ThreadPoolExecutor(max_workers=n)] raises
    [ValueError] for [n <= 0]. *)
Definition _import_files_parallel (cfg : config) (file_paths : list string)
    (batch_size : Z) (world : nat -> file_env) (schedule : list nat)
  : M (result bool) :=
  let max_workers := Z.min (import_parallel_workers cfg)
                           (pool_max_connections cfg - 1) in
  log_message (LogUsingWorkers max_workers) ;;
  if (max_workers <=? 0)%Z then
    ret (Raise (ValueError "max_workers must be greater than 0"))
  else
    let! success_count :=
      parallel_loop cfg batch_size world file_paths schedule 0 in
    ret (Ok (success_count =? Z.of_nat (length file_paths))%Z).

(** [import_files]. *)
Definition import_files (cfg : config) (file_paths : list string)
    (use_parallel : bool) (batch_size : Z) (world : nat -> file_env)
    (schedule : list nat) : M (result bool) :=
  match file_paths with
  | [] => ret (Ok true)
  | _ =>
      let total_files := length file_paths in
      log_message (LogStartingImport total_files) ;;
      if use_parallel && (1 <? Z.of_nat total_files)%Z then
        _import_files_parallel cfg file_paths batch_size world schedule
      else
        _import_files_sequential cfg file_paths batch_size world
  end.

(** *** Notions the properties are stated with *)

(** A fresh importer: a new tracker, an empty table, nothing done yet. *)
Definition initial : state :=
  {| progress := ProgressTracker.init;
     conn := {| committed := DbState ∅ ∅ 0; pending := DbState ∅ ∅ 0 |};
     original_settings := None;
     trace := [] |}.

(** The state of the session once the [optimizations] are applied, and
    the triggers of [table] disabled when one is given. *)
Definition tuned (timeout : string) (table : option string) (d : db_state) : db_state :=
  let d' := foldl (fun d s => apply_statement s d) d (optimizations timeout) in
  match table with
  | Some t => disable_triggers t d'
  | None => d'
  end.

(** What [_import_single_file] returns or raises for a file; it depends on
    what the file meets only, not on the state of the importer
    ([import_single_file_result] below). *)
Definition file_result (cfg : config) (file_path : string) (batch_size : Z)
    (w : file_env) : result bool :=
  (_import_single_file cfg file_path batch_size w initial).1.

(** The import of the file succeeds: it returns [True]. *)
Definition file_outcome (cfg : config) (file_path : string) (batch_size : Z)
    (w : file_env) : bool :=
  match file_result cfg file_path batch_size w with
  | Ok b => b
  | Raise _ => false
  end.

(** An exception leaves the import of the file. *)
Definition file_raises (cfg : config) (file_path : string) (batch_size : Z)
    (w : file_env) : bool :=
  match file_result cfg file_path batch_size w with
  | Ok _ => false
  | Raise _ => true
  end.

(** The bulk copy of the file goes through. *)
Definition bulk_succeeds (w : file_env) : bool :=
  match bulk_failure w with
  | None => true
  | Some _ => false
  end.

(** The outcome of the [i]-th file of a job, [false] beyond its end. *)
Definition outcome_at (cfg : config) (file_paths : list string) (batch_size : Z)
    (world : nat -> file_env) (i : nat) : bool :=
  match file_paths !! i with
  | Some file_path => file_outcome cfg file_path batch_size (world i)
  | None => false
  end.

(** The number of connections taken from the pool so far. *)
Definition connections_taken (st : state) : nat :=
  length (List.filter (fun e => match e with EvGetConn => true | _ => false end)
                      (trace st)).

(** The worker cap of the parallel path. *)
Definition max_workers (cfg : config) : Z :=
  Z.min (import_parallel_workers cfg) (pool_max_connections cfg - 1).

(** The job is started: always on the sequential path, and on the parallel
    path when the executor accepts its worker cap. *)
Definition job_runs (cfg : config) (file_paths : list string) (use_parallel : bool)
  : Prop :=
  use_parallel && (1 <? Z.of_nat (length file_paths))%Z = true ->
  (0 < max_workers cfg)%Z.

(** No exception leaves the import of a file of the job. *)
Definition imports_return (cfg : config) (file_paths : list string)
    (batch_size : Z) (world : nat -> file_env) : Prop :=
  forall i file_path, file_paths !! i = Some file_path ->
                      file_raises cfg file_path batch_size (world i) = false.

(** The job runs to its end: it is started, and on the sequential path no
    exception leaves the import of a file (on the parallel path such an
    exception is caught). *)
Definition job_completes (cfg : config) (file_paths : list string)
    (use_parallel : bool) (batch_size : Z) (world : nat -> file_env) : Prop :=
  job_runs cfg file_paths use_parallel /\
  (use_parallel && (1 <? Z.of_nat (length file_paths))%Z = false ->
   imports_return cfg file_paths batch_size world).

(** A sum over the files of a job. *)
Definition sumZ (f : nat -> Z) (l : list nat) : Z :=
  foldr (fun i acc => (f i + acc)%Z) 0%Z l.

(** The bytes the [i]-th file of a job adds to the tracker. *)
Definition bytes_counted (file_paths : list string) (world : nat -> file_env)
    (i : nat) : Z :=
  match file_paths !! i with
  | Some _ => if bulk_succeeds (world i) then file_size (world i) else 0
  | None => 0
  end.

(** Every run of [m] takes a state to one related to it by [R]. *)
Definition steps (R : state -> state -> Prop) {A} (m : M A) : Prop :=
  forall st, R st (m st).2.

(** Two trackers that differ at most in their row counter. *)
Definition only_rows (p p' : ProgressTracker.tracker) : Prop :=
  ProgressTracker.total_files p' = ProgressTracker.total_files p /\
  ProgressTracker.current_file p' = ProgressTracker.current_file p /\
  ProgressTracker.bytes_processed p' = ProgressTracker.bytes_processed p /\
  ProgressTracker.current_status p' = ProgressTracker.current_status p.

(** Between two states no connection was taken from the pool, and of the
    tracker only the row counter may have changed. *)
Definition quiet (st st' : state) : Prop :=
  only_rows (progress st) (progress st') /\
  connections_taken st' = connections_taken st.

(** Between two states nothing was committed. *)
Definition uncommitted (st st' : state) : Prop :=
  committed (conn st') = committed (conn st).

(** What [m] returns does not depend on the state it is run from. *)
Definition pure_result {A} (m : M A) : Prop :=
  forall st st', (m st).1 = (m st').1.

End DatabaseImporter.

(* ===================================================================== *)
(** ** [modules/db_importer.py]: [restore_after_import]               *)
(* ===================================================================== *)

Module DatabaseImporterRestore.
Import Py DatabaseImporter.
Local Open Scope string_scope.

(** The keys of [config['optimization']] that [restore_after_import] alone
    reads; a key that is absent is [None]. *)
Record maintenance_config := MaintenanceConfig {
  opt_run_vacuum : option bool;
  opt_run_analyze : option bool
}.

(** The statements [restore_after_import] sends through [cursor.execute]. *)
Inductive restore_statement :=
| EnableTriggers (table : string)
| VacuumAnalyze (table : string)
| Analyze (table : string).

(** The text of a statement, as the source writes it. *)
Definition restore_sql (s : restore_statement) : string :=
  match s with
  | EnableTriggers table => "ALTER TABLE " ++ table ++ " ENABLE TRIGGER ALL"
  | VacuumAnalyze table => "VACUUM ANALYZE " ++ table
  | Analyze table => "ANALYZE " ++ table
  end.

Definition enable_triggers (table : string) (d : db_state) : db_state :=
  {| session_settings := session_settings d;
     triggers_disabled := triggers_disabled d ∖ {[table]};
     table_rows := table_rows d |}.

(** The maintenance commands change neither a parameter of the session, nor
    the triggers, nor the rows. *)
Definition apply_restore_statement (s : restore_statement) (d : db_state) : db_state :=
  match s with
  | EnableTriggers table => enable_triggers table d
  | VacuumAnalyze _ | Analyze _ => d
  end.

Inductive restore_log :=
| LogReenabledTriggers (table : string)
| LogRanVacuumAnalyze (table : string)
| LogRanAnalyze (table : string)
| LogRestored
| LogErrorRestoring (e : exn).

Inductive restore_event :=
| ResGetConn
| ResPutConn
| ResExecuted (s : restore_statement)
| ResCommit
| ResRollback
| ResLog (l : restore_log).

(** Where the call fails: at its [k]-th [cursor.execute], from 0, or at its
    commit. *)
Inductive restore_stage :=
| AtExecute (k : nat)
| AtCommit.

Definition restore_stage_eqb (a b : restore_stage) : bool :=
  match a, b with
  | AtExecute k, AtExecute k' => Nat.eqb k k'
  | AtCommit, AtCommit => true
  | _, _ => false
  end.

(** The connection the call works on, and what the call has done so far
    (oldest first). *)
Record restore_state := RestoreState {
  res_conn : connection;
  res_trace : list restore_event
}.

Definition res_emit (e : restore_event) (st : restore_state) : restore_state :=
  {| res_conn := res_conn st; res_trace := (res_trace st ++ [e])%list |}.

Definition res_on_conn (f : connection -> connection) (st : restore_state)
  : restore_state :=
  {| res_conn := f (res_conn st); res_trace := res_trace st |}.

(** [cursor.execute(s)] followed by the [log_message] of its success. *)
Definition res_execute (failure : option exn) (s : restore_statement)
    (l : restore_log) (st : restore_state) : result unit * restore_state :=
  let st1 := res_emit (ResExecuted s) st in
  match failure with
  | Some e => (Raise e, st1)
  | None =>
      (Ok tt, res_emit (ResLog l)
                (res_on_conn (in_transaction (apply_restore_statement s)) st1))
  end.

(** The body of the [try] (lines 132-150); [k] counts the calls of
    [cursor.execute] made so far. *)
Definition restore_body (cfg : config) (m : maintenance_config)
    (failure : option (restore_stage * exn)) (st : restore_state)
  : result unit * restore_state :=
  match optimization cfg with
  | None => (Raise (Error "'optimization'"), st)      (* KeyError *)
  | Some optimization_config =>
      let table_name := table_name cfg in
      let failure_at k := raised_at restore_stage_eqb failure (AtExecute k) in
      let '(r1, st1, k) :=
        if default false (opt_disable_triggers optimization_config) then
          let '(r, st') := res_execute (failure_at 0%nat) (EnableTriggers table_name)
                                       (LogReenabledTriggers table_name) st in
          (r, st', 1%nat)
        else (Ok tt, st, 0%nat) in
      match r1 with
      | Raise e => (Raise e, st1)
      | Ok _ =>
          let '(r2, st2) :=
            if default true (opt_run_vacuum m) then
              res_execute (failure_at k) (VacuumAnalyze table_name)
                          (LogRanVacuumAnalyze table_name) st1
            else if default true (opt_run_analyze m) then
              res_execute (failure_at k) (Analyze table_name)
                          (LogRanAnalyze table_name) st1
            else (Ok tt, st1) in
          match r2 with
          | Raise e => (Raise e, st2)
          | Ok _ =>
              let st3 := res_emit ResCommit st2 in
              match raised_at restore_stage_eqb failure AtCommit with
              | Some e => (Raise e, st3)
              | None => (Ok tt, res_emit (ResLog LogRestored) (res_on_conn commit st3))
              end
          end
      end
  end.

(** The handler (lines 152-154): the error is logged, then
    [conn.rollback()], which is not guarded and can raise in its turn. *)
Definition restore_except (rollback_raises : option exn) (e : exn)
    (st : restore_state) : result unit * restore_state :=
  let st1 := res_emit ResRollback (res_emit (ResLog (LogErrorRestoring e)) st) in
  match rollback_raises with
  | Some e' => (Raise e', st1)
  | None => (Ok tt, res_on_conn rollback st1)
  end.

(** [restore_after_import]: [try] / [except Exception] / [finally], on the
    connection [c] of the importer.  The call returns [None] or raises; with
    it come the connection after the call and what the call has done.  An
    exception of the body is caught; one of the rollback of the handler
    leaves the call, after the [putconn] of the [finally].  [getconn],
    [putconn] and the logging are taken to succeed. *)
Definition restore_after_import (cfg : config) (m : maintenance_config)
    (failure : option (restore_stage * exn)) (rollback_raises : option exn)
    (c : connection) : result unit * restore_state :=
  let st0 := res_emit ResGetConn {| res_conn := c; res_trace := [] |} in
  let '(r, st1) := restore_body cfg m failure st0 in
  let '(r', st2) := match r with
                    | Ok _ => (Ok tt, st1)
                    | Raise e => restore_except rollback_raises e st1
                    end in
  (r', res_emit ResPutConn st2).

(** *** Notions the properties are stated with *)

(** The statements a call sends when nothing fails. *)
Definition restore_statements (cfg : config) (m : maintenance_config)
  : list restore_statement :=
  match optimization cfg with
  | None => []
  | Some optimization_config =>
      (if default false (opt_disable_triggers optimization_config)
       then [EnableTriggers (table_name cfg)] else [])
      ++ (if default true (opt_run_vacuum m) then [VacuumAnalyze (table_name cfg)]
          else if default true (opt_run_analyze m) then [Analyze (table_name cfg)]
          else [])
  end%list.

(** The statements a call has sent. *)
Definition statements_sent (t : list restore_event) : list restore_statement :=
  omap (fun e => match e with ResExecuted s => Some s | _ => None end) t.

(** The call reaches the operation at which the environment makes it
    fail. *)
Definition restore_fails (cfg : config) (m : maintenance_config)
    (failure : option (restore_stage * exn)) : bool :=
  match optimization cfg, failure with
  | None, _ => true
  | Some _, None => false
  | Some _, Some (AtCommit, _) => true
  | Some _, Some (AtExecute k, _) => (k <? length (restore_statements cfg m))%nat
  end.

End DatabaseImporterRestore.

(* ===================================================================== *)
(** ** [main.py]: [import_file] and the settings of the tuner         *)
(* ===================================================================== *)

Module Main.
Import Py FileSplitter PerformanceOptimizer DatabaseImporter DatabaseImporterRestore.
Local Open Scope string_scope.

(** What the importer and [import_file] read from the configuration. *)
Record app_config := AppConfig {
  importer_config : config;
  maintenance : maintenance_config;
  import_chunk_size_mb : Z;        (* config['import']['chunk_size_mb'] *)
  import_batch_size : Z;           (* config['import']['batch_size'] *)
  temp_directory : string          (* config['directories']['temp_directory'] *)
}.

(** Lines 314-316 of [main]: the three [update] calls that write the
    settings of the tuner over the configuration. *)
Definition apply_optimized (optimized : settings) (cfg : app_config)
  : result app_config :=
  match DatabaseImporter.optimization (importer_config cfg) with
  | None => Raise (Error "'optimization'")      (* KeyError *)
  | Some _ =>
      let o := PerformanceOptimizer.optimization optimized in
      Ok {| importer_config :=
              {| table_name := table_name (importer_config cfg);
                 pool_max_connections := max_connections (database_pool optimized);
                 import_parallel_workers := parallel_workers (import optimized);
                 DatabaseImporter.optimization :=
                   Some {| opt_work_mem := Some (work_mem o);
                           opt_maintenance_work_mem := Some (maintenance_work_mem o);
                           opt_statement_timeout :=
                             Some (PerformanceOptimizer.statement_timeout o);
                           opt_disable_triggers :=
                             Some (PerformanceOptimizer.disable_triggers o) |} |};
            maintenance := {| opt_run_vacuum := Some (run_vacuum o);
                              opt_run_analyze := Some (run_analyze o) |};
            import_chunk_size_mb := chunk_size_mb (import optimized);
            import_batch_size := batch_size (import optimized);
            temp_directory := temp_directory cfg |}
  end.

(** The [options] of [import_file]; a key that is absent is [None] (for
    [temp_dir], also a key whose value is [None]). *)
Record options := Options {
  chunk_size : option Z;
  batch_size_option : option Z;
  parallel : option bool;
  optimize : option bool;
  temp_dir : option string
}.

(** What [import_file] uses of the dict [analyze_file] returns. *)
Record analysis := Analysis {
  valid : bool;
  size_mb : float
}.

(** What a run of [import_file] meets: what the analyzer reports, the source
    file as it is stored, a failure of [DatabaseImporter(...)] (the pool
    cannot be created), and what each call of the importer meets, the
    rollbacks of its handlers included. *)
Record run_env := RunEnv {
  analyzed : analysis;
  stored : text;
  pool_failure : option exn;
  optimize_failure : option (optimize_stage * exn);
  optimize_rollback_failure : option exn;
  world : nat -> file_env;
  schedule : list nat;
  restore_failure : option (restore_stage * exn);
  restore_rollback_failure : option exn
}.

(** Step 4 (lines 100-106): [os.remove] of every file of the list when the
    list has more than one; a removal that raises is passed over. *)
Definition cleanup (files_to_import : list string) (fs : gmap string text)
  : gmap string text :=
  if (1 <? length files_to_import)%nat
  then foldl (fun fs chunk_file => delete chunk_file fs) fs files_to_import
  else fs.

(** The outcome of a run: the files, the importer, and what
    [restore_after_import] has done. *)
Record outcome := Outcome {
  returned : bool;
  files_after : gmap string text;
  importer_after : state;
  restore_trace : list restore_event
}.

(** [SupabaseImporter.import_file]; [fs] holds the files present before the
    call, the log files aside, and [st] is the importer as
    [DatabaseImporter(...)] creates it.  The whole body is in a [try] whose
    handler returns [False]: an exception that leaves
    [optimize_for_import], [import_files] or [restore_after_import] ends the
    call there, and what follows (the restore, the cleanup) is not run.  The
    logging (which writes to the log files only), the printing and the clock
    are left out; the source file can be read and the chunks written.  The
    chunk size of the configuration is an [int] below [2^53], which the
    comparison with the float [size_mb] takes exactly. *)
Definition import_file (cfg : app_config) (file_path : string) (o : options)
    (env : run_env) (fs : gmap string text) (st : state) : outcome :=
  let analysis := analyzed env in
  if negb (valid analysis) then Outcome false fs st []
  else
    let '(files_to_import, fs1) :=
      if PrimFloat.ltb (float_of_int (import_chunk_size_mb cfg)) (size_mb analysis)
      then split_file (temp_directory cfg) file_path
                      (default (import_chunk_size_mb cfg) (chunk_size o))
                      (temp_dir o) (stored env) fs
      else ([file_path], fs) in
    match pool_failure env with
    | Some e => Outcome false fs1 st []
    | None =>
        let '(optimized, st1) :=
          if default true (optimize o)
          then optimize_for_import (importer_config cfg) (optimize_failure env)
                                   (optimize_rollback_failure env) st
          else (Ok tt, st) in
        match optimized with
        | Raise e => Outcome false fs1 st1 []
        | Ok _ =>
            let '(success, st2) :=
              import_files (importer_config cfg) files_to_import
                           (default true (parallel o))
                           (default (import_batch_size cfg) (batch_size_option o))
                           (world env) (schedule env) st1 in
            match success with
            | Raise e => Outcome false fs1 st2 []
            | Ok success =>
                let '(restored, rs) :=
                  if default true (optimize o)
                  then restore_after_import (importer_config cfg) (maintenance cfg)
                                            (restore_failure env)
                                            (restore_rollback_failure env) (conn st2)
                  else (Ok tt, {| res_conn := conn st2; res_trace := [] |}) in
                let st3 := {| progress := progress st2; conn := res_conn rs;
                              original_settings := original_settings st2;
                              trace := trace st2 |} in
                match restored with
                | Raise e => Outcome false fs1 st3 (res_trace rs)
                | Ok _ => Outcome success (cleanup files_to_import fs1) st3
                                  (res_trace rs)
                end
            end
        end
    end.

(** *** Notions the properties are stated with *)

(** The analyzer finds the file larger than the chunk size of the
    configuration. *)
Definition needs_split (cfg : app_config) (env : run_env) : bool :=
  PrimFloat.ltb (float_of_int (import_chunk_size_mb cfg)) (size_mb (analyzed env)).

(** The call of [split_file] that [import_file] makes. *)
Definition split_of (cfg : app_config) (file_path : string) (o : options)
    (env : run_env) (fs : gmap string text) : list string * gmap string text :=
  split_file (temp_directory cfg) file_path
             (default (import_chunk_size_mb cfg) (chunk_size o))
             (temp_dir o) (stored env) fs.

(** The call of [optimize_for_import] that [import_file] makes, unless the
    options switch it off. *)
Definition tuning (cfg : app_config) (o : options) (env : run_env) (st : state)
  : result unit * state :=
  if default true (optimize o)
  then optimize_for_import (importer_config cfg) (optimize_failure env)
                           (optimize_rollback_failure env) st
  else (Ok tt, st).

(** The importer after that call: the one the job starts from. *)
Definition importer_at_start (cfg : app_config) (o : options) (env : run_env)
    (st : state) : state :=
  (tuning cfg o env st).2.

(** The call of [restore_after_import] that [import_file] makes on the
    connection [c], unless the options switch it off. *)
Definition restoring (cfg : app_config) (o : options) (env : run_env)
    (c : connection) : result unit * restore_state :=
  if default true (optimize o)
  then restore_after_import (importer_config cfg) (maintenance cfg)
                            (restore_failure env) (restore_rollback_failure env) c
  else (Ok tt, {| res_conn := c; res_trace := [] |}).

End Main.

(* ===================================================================== *)
(** ** Notions used to state what [split_file] does                   *)
(* ===================================================================== *)

Module FileSplitterSpec.
Import FileSplitter.

(** A string without [/]: a single component of a path. *)
Fixpoint no_slash (s : string) : bool :=
  match s with
  | EmptyString => true
  | String c r => negb (Ascii.eqb c "/") && no_slash r
  end.

(** The groups and the size limit: every chunk that was closed had reached
    the limit, no chunk had reached it before its last line was written, and
    [current_chunk_size] is the size of the chunk that is open.  A chunk
    file that holds the header and the lines [g] has
    [utf8_len (header ++ concat g)] bytes. *)
Definition sized (chunk_size_bytes : Z) (header : text) (st : loop_state)
    (groups : list (list text)) : Prop :=
  current_chunk_size st
  = from_option (fun g => utf8_len (header ++ concat g)) 0 (last groups) /\
  (forall gs g rest, groups = gs ++ g :: rest -> rest <> [] ->
                     chunk_size_bytes <= utf8_len (header ++ concat g)) /\
  Forall (fun g => forall g0 l, g = g0 ++ [l] -> g0 <> [] ->
                                utf8_len (header ++ concat g0) < chunk_size_bytes)
         groups.

(** Two states of the loop that agree on everything but the files, and on
    the files the loop has created. *)
Definition agree (st st' : loop_state) : Prop :=
  chunk_num st = chunk_num st' /\
  current_chunk_size st = current_chunk_size st' /\
  current_chunk_file st = current_chunk_file st' /\
  chunk_files st = chunk_files st' /\
  forall p, p ∈ chunk_files st -> files st !! p = files st' !! p.

End FileSplitterSpec.

(* ===================================================================== *)
(** ** Notions used to state what the tuner computes                  *)
(* ===================================================================== *)

Module PerformanceOptimizerSpec.
Import Py PerformanceOptimizer.

(** [limiting_memory] of [_calculate_chunk_size]: the instance memory, or
    half the memory available on the local machine when that is less. *)
Definition limiting_memory (local : local_specs) (instance : instance_spec) : float :=
  min_float (memory_gb instance) (available_memory_gb local * 0.5)%float.

(** [base] of [_calculate_batch_size]. *)
Definition batch_base (instance : instance_spec) : Z :=
  if PrimFloat.ltb (memory_gb instance) 2 then 1000
  else if PrimFloat.ltb (memory_gb instance) 8 then 5000
  else 10000.

End PerformanceOptimizerSpec.

(* ===================================================================== *)
(** ** Notions used to state what the importer does                   *)
(* ===================================================================== *)

Module DatabaseImporterSpec.
Import Py ProgressTracker DatabaseImporter.

(** The number of connections given back to the pool so far. *)
Definition connections_returned (st : state) : nat :=
  length (List.filter (fun e => match e with EvPutConn => true | _ => false end)
                      (trace st)).

(** Between two states the pool was not used. *)
Definition pool_idle (st st' : state) : Prop :=
  connections_taken st' = connections_taken st /\
  connections_returned st' = connections_returned st.

(** Between two states as many connections were given back as were taken. *)
Definition balanced (st st' : state) : Prop :=
  (connections_taken st' + connections_returned st
   = connections_returned st' + connections_taken st)%nat.

(** The batches sent to the database, in the order of a trace. *)
Definition inserted_batches (t : list event) : list (list row) :=
  omap (fun ev => match ev with EvInsertBatch b => Some b | _ => None end) t.

(** The batches the loop of [_import_with_batch_insert] sends for [rows]
    when [cur] is the batch being filled, and the batch left when the rows
    are exhausted. *)
Fixpoint split_batches (batch_size : Z) (rows cur : list row)
  : list (list row) * list row :=
  match rows with
  | [] => ([], cur)
  | row :: rest =>
      let cur' := cur ++ [row] in
      if batch_size <=? Z.of_nat (length cur')
      then let '(sent, remaining) := split_batches batch_size rest [] in
           (cur' :: sent, remaining)
      else split_batches batch_size rest cur'
  end.

(** The importer after a batch was inserted and counted. *)
Definition after_batch (st : state) (b : list row) : state :=
  {| progress := add_rows (Z.of_nat (length b)) (progress st);
     conn := in_transaction (add_table_rows (Z.of_nat (length b))) (conn st);
     original_settings := original_settings st;
     trace := trace st ++ [EvInsertBatch b] |}.

(** No transaction is open: nothing is pending. *)
Definition settled (st : state) : Prop := pending (conn st) = committed (conn st).

Definition rows_counted (st : state) : Z := total_rows (progress st).

Definition rows_committed (st : state) : Z := table_rows (committed (conn st)).

(** From a state without open transaction to another, the rows committed
    are at most the rows counted. *)
Definition never_under (st st' : state) : Prop :=
  settled st ->
  settled st' /\
  rows_committed st' - rows_committed st <= rows_counted st' - rows_counted st.

(** The same, with as many rows committed as counted. *)
Definition counted_exactly (st st' : state) : Prop :=
  settled st ->
  settled st' /\
  rows_committed st' - rows_committed st = rows_counted st' - rows_counted st.

(** Inside a transaction: the rows pending and the rows counted grow
    together, and the counter of the tracker does not go down. *)
Definition in_step (st st' : state) : Prop :=
  table_rows (pending (conn st')) - table_rows (pending (conn st))
  = rows_counted st' - rows_counted st.

Definition rows_grow (st st' : state) : Prop := rows_counted st <= rows_counted st'.

(** The reader and the inserts of the fallback do not fail. *)
Definition unhindered (failure : option (fallback_stage * exn)) : Prop :=
  forall k, raised_at fallback_stage_eqb failure (FbRead k) = None /\
            raised_at fallback_stage_eqb failure (FbInsert k) = None.


(** All the batches the fallback sends for the rows of a file: those the
    loop sends, and the batch that is left at its end when it is not
    empty. *)
Definition fallback_batches (batch_size : Z) (rows : list row) : list (list row) :=
  let '(sent, remaining) := split_batches batch_size rows [] in
  sent ++ match remaining with
          | [] => []
          | _ => [remaining]
          end.

(** The state in which the fallback reaches its commit, when the file can
    be opened and neither the reader nor an insert fails. *)
Definition before_commit (file_path : string) (batch_size : Z) (w : file_env)
    (st : state) : state :=
  foldl after_batch (emit (EvReadRows file_path) st).2
        (fallback_batches batch_size (csv_rows w)).

End DatabaseImporterSpec.

(* ===================================================================== *)
(** * Part II.  The properties                                            *)
(* ===================================================================== *)

Module FileSplitterFacts.
Import FileSplitter.

(** ** Reading lines *)

Lemma readline_app (s : text) : ((readline s).1 ++ (readline s).2)%list = s.
Proof.
  induction s as [|c r IH]; simpl; [done|].
  destruct (c =? LF)%N; [done|].
  destruct (readline r) as [l r']; simpl in *. by rewrite IH.
Qed.

Lemma readline_nil_inv (s : text) : (readline s).1 = [] -> s = [].
Proof.
  destruct s as [|c r]; simpl; [done|].
  destruct (c =? LF)%N; [done|]. by destruct (readline r).
Qed.

(** Iterating over the stream is calling [readline] until it is empty. *)
Lemma iter_lines_unfold (s : text) :
  s <> [] -> iter_lines s = (readline s).1 :: iter_lines (readline s).2.
Proof.
  induction s as [|c r IH]; intros Hne; [done|]. simpl.
  destruct (c =? LF)%N; [done|].
  destruct r as [|c' r'].
  - reflexivity.
  - rewrite IH by done. by destruct (readline (c' :: r')).
Qed.

Lemma concat_iter_lines (s : text) : concat (iter_lines s) = s.
Proof.
  induction s as [|c r IH]; simpl; [done|].
  destruct (c =? LF)%N; simpl; [by rewrite IH|].
  destruct (iter_lines r) as [|l ls]; simpl in *; by rewrite <- IH.
Qed.

Lemma iter_lines_nonempty (s : text) : Forall (fun l => l <> []) (iter_lines s).
Proof.
  induction s as [|c r IH]; simpl; [constructor|].
  destruct (c =? LF)%N; [by constructor|].
  destruct (iter_lines r) as [|l ls]; [by repeat constructor|].
  inversion IH; subst. by constructor.
Qed.

(** ** Chunk file names are pairwise different *)

Local Open Scope string_scope.

Lemma string_cons_app (x : ascii) (a b : string) :
  String x a ++ b = String x (a ++ b).
Proof. reflexivity. Qed.

Lemma string_app_assoc (a b c : string) : (a ++ b) ++ c = a ++ (b ++ c).
Proof.
  induction a as [|x a IH]; [done|]. by rewrite !string_cons_app, IH.
Qed.

Lemma string_app_length (a b : string) :
  String.length (a ++ b) = (String.length a + String.length b)%nat.
Proof.
  induction a as [|x a IH]; [done|]. rewrite string_cons_app. simpl. by rewrite IH.
Qed.

Lemma string_app_inj_r (a b c : string) : a ++ c = b ++ c -> a = b.
Proof.
  revert b. induction a as [|x a IH]; intros [|y b] H.
  - done.
  - apply (f_equal String.length) in H.
    rewrite !string_app_length in H. simpl in H. lia.
  - apply (f_equal String.length) in H.
    rewrite !string_app_length in H. simpl in H. lia.
  - rewrite !string_cons_app in H. injection H as -> H. f_equal. by apply IH.
Qed.

Lemma to_uint_not_nil (n : nat) : Nat.to_uint n <> Nil.
Proof.
  intros H. pose proof (Unsigned.to_of (Nat.to_uint n)) as Hn.
  rewrite Unsigned.of_to in Hn. rewrite H in Hn at 2. simpl in Hn.
  rewrite H in Hn. discriminate.
Qed.

Lemma parse_decimal (n : nat) : parse_nat (decimal n) = Some n.
Proof.
  unfold parse_nat, decimal, NilZero.string_of_uint.
  pose proof (to_uint_not_nil n) as Hn.
  destruct (Nat.to_uint n) eqn:E; try done;
    rewrite <- E, NilEmpty.usu; simpl; by rewrite Unsigned.of_to.
Qed.

Lemma parse_zeros (k : nat) (s : string) : parse_nat (zeros k ++ s) = parse_nat s.
Proof.
  induction k as [|k IH]; [done|].
  change (zeros (S k)) with (String "0" (zeros k)). rewrite string_cons_app.
  unfold parse_nat in *. simpl.
  destruct (NilEmpty.uint_of_string (zeros k ++ s)) as [d|] eqn:E;
    destruct (NilEmpty.uint_of_string s) as [d'|] eqn:E'; simpl in *; try done.
Qed.

Lemma parse_fmt04d (n : nat) : parse_nat (fmt04d n) = Some n.
Proof. unfold fmt04d. by rewrite parse_zeros, parse_decimal. Qed.

Lemma fmt04d_inj (n m : nat) : fmt04d n = fmt04d m -> n = m.
Proof.
  intros H. apply (f_equal parse_nat) in H.
  rewrite !parse_fmt04d in H. by injection H.
Qed.

(** [os.path.join] puts a prefix that depends on the directory and on the
    stem only in front of the numbered part of the name. *)
Lemma chunk_filename_prefix (dir base : string) :
  exists prefix, forall n, chunk_filename dir base n = prefix ++ fmt04d n ++ ".csv".
Proof.
  unfold chunk_filename, os_path_join.
  assert (Hs : forall x, starts_with_slash (base ++ "_chunk_" ++ x)
                         = starts_with_slash (base ++ "_chunk_")).
  { intros x. by destruct base. }
  destruct (starts_with_slash (base ++ "_chunk_")) eqn:E.
  - exists (base ++ "_chunk_"). intros n. rewrite Hs.
    by rewrite string_app_assoc.
  - destruct (String.eqb dir "" || ends_with_slash dir).
    + exists (dir ++ base ++ "_chunk_"). intros n. rewrite Hs.
      by rewrite !string_app_assoc.
    + exists (dir ++ "/" ++ base ++ "_chunk_"). intros n. rewrite Hs.
      by rewrite !string_app_assoc.
Qed.

Lemma chunk_filename_inj (dir base : string) (n m : nat) :
  chunk_filename dir base n = chunk_filename dir base m -> n = m.
Proof.
  destruct (chunk_filename_prefix dir base) as [p Hp].
  rewrite !Hp. intros H. apply String.app_inj in H.
  apply string_app_inj_r in H. by apply fmt04d_inj.
Qed.

Local Close Scope string_scope.

(** ** The loop invariant of [split_file] *)

Lemma Forall2_impl_elem {A B} (P Q : A -> B -> Prop) (l : list A) (k : list B) :
  Forall2 P l k -> (forall x y, x ∈ l -> P x y -> Q x y) -> Forall2 Q l k.
Proof.
  induction 1 as [|x y l k Hxy _ IH]; intros HPQ; constructor.
  - apply HPQ; [left | done].
  - apply IH. intros x' y' Hin. apply HPQ. by right.
Qed.

Section Invariant.

Variable output_dir : string.
Variable base_name : string.
Variable chunk_size_bytes : Z.
Variable header : text.

Local Abbreviation name_of := (chunk_filename output_dir base_name).
Local Abbreviation chunk_inv :=
  (FileSplitter.chunk_inv output_dir base_name header).
Local Abbreviation body := (loop_body output_dir base_name chunk_size_bytes header).
Local Abbreviation run := (run_loop output_dir base_name chunk_size_bytes header).

Lemma names_NoDup (n : nat) : NoDup (map name_of (seq 1 n)).
Proof.
  apply NoDup_fmap_2_strong; [|apply NoDup_seq].
  intros x y _ _. apply chunk_filename_inj.
Qed.

Lemma name_fresh (n : nat) : name_of (S n) ∉ map name_of (seq 1 n).
Proof.
  intros Hin. apply list_elem_of_fmap in Hin as (m & Heq & Hm).
  apply chunk_filename_inj in Heq. subst m.
  apply elem_of_seq in Hm. lia.
Qed.

Lemma chunk_inv_initial (fs : gmap string text) : chunk_inv (initial_state fs) [].
Proof. repeat split; simpl; constructor. Qed.

Lemma chunk_inv_step (st : loop_state) (groups : list (list text)) (line : text) :
  chunk_inv st groups ->
  exists groups', chunk_inv (body st line) groups' /\
                  concat groups' = concat groups ++ [line].
Proof.
  intros (Hnames & Hcur & Hfiles & Hne).
  unfold loop_body. destruct (needs_new_chunk chunk_size_bytes st) eqn:Hnew.
  - (* a new chunk is started and receives the line *)
    exists (groups ++ [[line]]). split; [|by rewrite concat_app].
    unfold write_line, start_chunk, chunk_inv.
    cbn [chunk_num chunk_files current_chunk_file files].
    set (name := name_of (S (chunk_num st))).
    assert (Hfresh : name ∉ chunk_files st).
    { rewrite Hnames. apply name_fresh. }
    repeat split.
    + rewrite Hnames, seq_S, map_app. reflexivity.
    + by rewrite last_snoc.
    + apply Forall2_app.
      * eapply Forall2_impl_elem; [exact Hfiles|].
        intros x g Hx Hlook. simpl.
        assert (name <> x) by (intros ->; done).
        unfold fs_write, fs_open_w.
        by rewrite !lookup_alter_ne, lookup_insert_ne.
      * constructor; [|constructor].
        unfold fs_write, fs_open_w.
        rewrite !lookup_alter_eq, lookup_insert_eq. simpl.
        by rewrite app_nil_r.
    + apply Forall_app. split; [done|]. by repeat constructor.
  - (* the line goes to the chunk that is open *)
    unfold needs_new_chunk in Hnew.
    destruct (current_chunk_file st) as [f|] eqn:Hf; [|done].
    symmetry in Hcur. apply last_Some in Hcur as [names0 Hsplit].
    pose proof Hfiles as Hfiles'. rewrite Hsplit in Hfiles'.
    apply Forall2_app_inv_l in Hfiles' as (gs0 & gl & Hold & Hlast & ->).
    inversion Hlast as [|? g ? ? Hg Hnil]; subst. inversion Hnil; subst.
    exists (gs0 ++ [g ++ [line]]). split.
    2:{ rewrite !concat_app. simpl. by rewrite !app_nil_r, app_assoc. }
    assert (Hnd : NoDup (names0 ++ [f])).
    { rewrite <- Hsplit, Hnames. apply names_NoDup. }
    apply NoDup_app in Hnd as (_ & Hdisj & _).
    unfold write_line, chunk_inv. rewrite Hf.
    cbn [chunk_num chunk_files current_chunk_file files]. repeat split.
    + done.
    + rewrite Hsplit. by rewrite last_snoc.
    + rewrite Hsplit. apply Forall2_app.
      * eapply Forall2_impl_elem; [exact Hold|].
        intros x g' Hx Hlook. simpl.
        assert (f <> x).
        { intros ->. apply (Hdisj x Hx). by left. }
        unfold fs_write. by rewrite lookup_alter_ne.
      * constructor; [|constructor].
        unfold fs_write. rewrite lookup_alter_eq, Hg. simpl.
        rewrite concat_app. simpl. by rewrite app_nil_r, app_assoc.
    + apply Forall_app in Hne as [Hne0 _].
      apply Forall_app. split; [done|]. constructor; [|constructor].
      by destruct g.
Qed.

Lemma chunk_inv_run (lines : list text) (st : loop_state)
    (groups : list (list text)) :
  chunk_inv st groups ->
  exists groups', chunk_inv (run lines st) groups' /\
                  concat groups' = concat groups ++ lines.
Proof.
  revert st groups. induction lines as [|line lines IH]; intros st groups Hinv.
  - exists groups. by rewrite app_nil_r.
  - destruct (chunk_inv_step st groups line Hinv) as (g1 & Hinv1 & Hcat1).
    destruct (IH _ _ Hinv1) as (g2 & Hinv2 & Hcat2).
    exists g2. split; [exact Hinv2|].
    rewrite Hcat2, Hcat1, <- app_assoc. reflexivity.
Qed.

End Invariant.

(** ** Lines and groups of lines *)

Lemma complete_cons (c : N) (l : text) : c <> LF -> complete l -> complete (c :: l).
Proof.
  intros Hc (pre & -> & Hpre). exists (c :: pre). split; [done|]. by constructor.
Qed.

Lemma iter_lines_complete (l s : text) :
  complete l -> iter_lines (l ++ s) = l :: iter_lines s.
Proof.
  intros (pre & -> & Hpre). induction Hpre as [|c pre Hc _ IH]; simpl.
  - reflexivity.
  - apply N.eqb_neq in Hc. rewrite Hc. simpl in IH. by rewrite IH.
Qed.

Lemma iter_lines_partial (l : text) :
  l <> [] -> Forall (fun c => c <> LF) l -> iter_lines l = [l].
Proof.
  intros Hne Hl. induction Hl as [|c r Hc Hr IH]; [done|]. simpl.
  apply N.eqb_neq in Hc. rewrite Hc.
  destruct r as [|c' r']; [done|]. by rewrite IH.
Qed.

Lemma iter_lines_wf (s : text) : wf_lines (iter_lines s).
Proof.
  induction s as [|c r IH]; simpl; [constructor|].
  destruct (c =? LF)%N eqn:Hc.
  - apply N.eqb_eq in Hc as ->. apply wf_cons; [|done]. exists []. by split.
  - apply N.eqb_neq in Hc.
    destruct (iter_lines r) as [|l ls]; [by apply wf_last; repeat constructor|].
    inversion IH; subst.
    + apply wf_last; [done|]. by constructor.
    + apply wf_cons; [|done]. by apply complete_cons.
Qed.

Lemma wf_lines_app (a b : list text) : wf_lines (a ++ b) -> wf_lines a /\ wf_lines b.
Proof.
  induction a as [|l a IH]; simpl; intros H; [split; [constructor|done]|].
  inversion H as [|l' Hne Hl Heq|l' ls Hc Hwf]; subst.
  - destruct a; [|done]. simpl in *. subst b. split; [by apply wf_last|constructor].
  - destruct (IH Hwf) as [Ha Hb]. split; [by apply wf_cons|done].
Qed.

Lemma wf_lines_iter (ls : list text) : wf_lines ls -> iter_lines (concat ls) = ls.
Proof.
  induction 1 as [|l Hne Hl|l ls Hc _ IH]; simpl.
  - reflexivity.
  - rewrite app_nil_r. by apply iter_lines_partial.
  - rewrite iter_lines_complete by done. by rewrite IH.
Qed.

(** Every group of consecutive lines of a stream reads back as itself. *)
Lemma groups_read_back (groups : list (list text)) :
  wf_lines (concat groups) ->
  concat (map (fun g => iter_lines (concat g)) groups) = concat groups.
Proof.
  induction groups as [|g groups IH]; simpl; [done|]. intros Hwf.
  apply wf_lines_app in Hwf as [Hg Hrest].
  by rewrite wf_lines_iter, IH.
Qed.

(** ** What [split_file] returns and writes *)

Lemma split_file_inv temp_directory file_path chunk_size_mb output_dir stored fs :
  let dir := match output_dir with None => temp_directory | Some d => d end in
  let infile := universal_newlines stored in
  exists groups n,
    (split_file temp_directory file_path chunk_size_mb output_dir stored fs).1
      = map (chunk_filename dir (path_stem file_path)) (seq 1 n) /\
    Forall2 (fun name g =>
               (split_file temp_directory file_path chunk_size_mb output_dir
                           stored fs).2 !! name
               = Some ((readline infile).1 ++ concat g))
            (split_file temp_directory file_path chunk_size_mb output_dir stored fs).1
            groups /\
    Forall (fun g => g <> []) groups /\
    concat groups = iter_lines (readline infile).2.
Proof.
  intros dir infile. unfold split_file. fold dir. fold infile.
  destruct (readline infile) as [header rest]; simpl.
  destruct (chunk_inv_run dir (path_stem file_path) (chunk_size_mb * 1024 * 1024)
              header (iter_lines rest) (initial_state fs) [])
    as (groups & (Hn & _ & Hf & Hne) & Hcat).
  { apply chunk_inv_initial. }
  exists groups. eexists. repeat split; [exact Hn|exact Hf|exact Hne|exact Hcat].
Qed.

(** C1, as the code has it: for every source file and every chunk size,
    the chunk files that [split_file] returns, read back in the order of the
    returned list, each begin with a copy of the header line of the source,
    and their bodies (each chunk without that copy), put one after the other
    in chunk order, are exactly the body of the source as it is read in text
    mode (decoded, every line end turned into a line feed): the same text,
    and the same lines in the same order, no line being cut between two
    chunks. *)
Theorem split_file_reconstructs_body :
  forall (temp_directory file_path : string) (chunk_size_mb : Z)
         (output_dir : option string) (stored : text) (fs : gmap string text),
    let infile := universal_newlines stored in
    let header := (readline infile).1 in
    let source_body := (readline infile).2 in
    let result := split_file temp_directory file_path chunk_size_mb output_dir
                             stored fs in
    exists chunks : list text,
      read_files result.1 result.2 = Some chunks /\
      Forall (fun c => take (length header) c = header) chunks /\
      concat (map (chunk_body header) chunks) = source_body /\
      concat (map (fun c => iter_lines (chunk_body header c)) chunks)
        = iter_lines source_body.
Proof.
  intros temp_directory file_path chunk_size_mb output_dir stored fs.
  cbv zeta.
  destruct (split_file_inv temp_directory file_path chunk_size_mb output_dir
              stored fs) as (groups & n & _ & Hfiles & _ & Hcat).
  cbv zeta in Hfiles, Hcat.
  set (infile := universal_newlines stored) in *.
  set (header := (readline infile).1) in *.
  exists (map (fun g => header ++ concat g) groups).
  assert (Hbody : forall g, chunk_body header (header ++ concat g) = concat g).
  { intros g. unfold chunk_body. by rewrite drop_app_length. }
  repeat split.
  - unfold read_files. apply mapM_Some. apply Forall2_fmap_r.
    eapply Forall2_impl; [exact Hfiles|]. by intros name g ->.
  - apply Forall_fmap, Forall_forall. intros g _. simpl.
    by rewrite take_app_length.
  - rewrite map_map. erewrite map_ext by (intros; apply Hbody).
    rewrite <- (concat_iter_lines (readline infile).2), <- Hcat.
    clear. induction groups as [|g gs IH]; simpl; [done|].
    by rewrite IH, concat_app.
  - rewrite map_map.
    erewrite map_ext by (intros g; rewrite (Hbody g); reflexivity).
    rewrite <- Hcat. apply groups_read_back. rewrite Hcat. apply iter_lines_wf.
Qed.

(** C1, as the specification words it, fails on the stored file: a source
    with [\r\n] line ends is split into chunks with [\n] line ends, so the
    chunk bodies put together ([1\n]) are not the body of the source
    ([1\r\n]). *)
Lemma split_file_crlf_counterexample :
  let stored := text_of_string "id" ++ [CR; LF; 49; CR; LF]%N in
  let result := split_file "tmp" "data.csv" 100 None stored ∅ in
  let header := (readline (universal_newlines stored)).1 in
  read_files result.1 result.2 = Some [[105; 100; 10; 49; 10]%N] /\
  concat (map (chunk_body header) [[105; 100; 10; 49; 10]%N]) = [49; 10]%N /\
  (readline stored).2 = [49; 13; 10]%N /\
  concat (map (chunk_body header) [[105; 100; 10; 49; 10]%N]) <> (readline stored).2.
Proof. vm_compute. repeat split; discriminate. Qed.

(** A three-line body split with a threshold the header alone reaches: one
    chunk per line, each with the header. *)
Example split_file_small :
  let stored := text_of_string "id" ++ [LF; 49; LF; 50; LF; 51]%N in
  let result := split_file "tmp" "in/data.csv" 0 None stored ∅ in
  result.1 = ["tmp/data_chunk_0001.csv"; "tmp/data_chunk_0002.csv";
              "tmp/data_chunk_0003.csv"]%string /\
  read_files result.1 result.2
  = Some [[105; 100; 10; 49; 10]; [105; 100; 10; 50; 10]; [105; 100; 10; 51]]%N.
Proof. vm_compute. split; reflexivity. Qed.

(** C8, as the code has it: for every source path the chunks are named, in
    the order of the returned list, [{stem}_chunk_{i:04d}.csv] inside the
    output directory, with [i] running from 1 without gaps and [stem] the
    stem of the source path; the extension is always [csv], whatever the
    extension of the source. *)
Theorem split_file_chunk_names :
  forall (temp_directory file_path : string) (chunk_size_mb : Z)
         (output_dir : option string) (stored : text) (fs : gmap string text),
    let dir := match output_dir with None => temp_directory | Some d => d end in
    let names := (split_file temp_directory file_path chunk_size_mb output_dir
                             stored fs).1 in
    names = map (fun i => os_path_join dir
                            (path_stem file_path ++ "_chunk_" ++ fmt04d i ++ ".csv")%string)
                (seq 1 (length names)).
Proof.
  intros temp_directory file_path chunk_size_mb output_dir stored fs dir names.
  destruct (split_file_inv temp_directory file_path chunk_size_mb output_dir
              stored fs) as (groups & n & Hn & _).
  fold dir in Hn. fold names in Hn.
  rewrite Hn at 2. rewrite length_map, length_seq. exact Hn.
Qed.

(** C8, as the specification words it, fails: the chunks of [data.txt] do
    not keep the extension [txt]. *)
Lemma split_file_chunk_ext_counterexample :
  let stored := text_of_string "id" ++ [LF; 49; LF]%N in
  let names := (split_file "tmp" "data.txt" 1 None stored ∅).1 in
  names = ["tmp/data_chunk_0001.csv"%string] /\
  os_path_join "tmp" (spec_chunk_name "data.txt" 1) = "tmp/data_chunk_0001.txt"%string /\
  names !! 0%nat <> Some (os_path_join "tmp" (spec_chunk_name "data.txt" 1)).
Proof. vm_compute. repeat split; discriminate. Qed.

End FileSplitterFacts.
Module PerformanceOptimizerFacts.
Import Py PerformanceOptimizer.

(** Case analysis over the two tables. *)
Ltac table_cases H :=
  match type of H with
  | ?table ?k = Some _ =>
      unfold table in H;
      destruct k as [|k|k]; try discriminate H;
      do 4 (try (destruct k as [k|k|]; try discriminate H));
      try discriminate H;
      injection H as <-
  end.

(** Evaluating the closed arithmetic inside a goal, and nothing else. *)
Ltac eval_closed t :=
  let v := eval vm_compute in t in
  replace t with v by (vm_compute; reflexivity).

Ltac eval_arith :=
  repeat match goal with
         | |- context [int_of_float ?x] => eval_closed (int_of_float x)
         | |- context [Qfloor ?q] => eval_closed (Qfloor q)
         end.

Lemma calculate_settings_fields (local : local_specs) (instance : instance_spec)
    (perf : performance_level) (mc pw w c b : Z) (t : string) :
  connection_settings instance (multiplier perf) (local_cpu_cores local) = Ok (mc, pw) ->
  _calculate_work_mem (memory_gb instance) (multiplier perf) = Ok w ->
  _calculate_chunk_size (memory_gb instance) (available_memory_gb local)
                        (multiplier perf) = Ok c ->
  _calculate_batch_size (memory_gb instance) (multiplier perf) = Ok b ->
  _calculate_timeout c (multiplier perf) = Ok t ->
  exists s, _calculate_settings local instance perf = Ok s /\
            max_connections (database_pool s) = mc /\
            parallel_workers (import s) = pw /\
            work_mem (optimization s) = (str_of_int w ++ "MB")%string /\
            maintenance_work_mem (optimization s) = (str_of_int (w * 4) ++ "MB")%string.
Proof.
  intros Hconn Hw Hc Hb Ht. unfold _calculate_settings.
  rewrite Hconn; cbn [bind]. rewrite Hw; cbn [bind]. rewrite Hc; cbn [bind].
  rewrite Hb; cbn [bind]. rewrite Ht; cbn [bind].
  eexists. repeat split; reflexivity.
Qed.

(** Whatever the memory of the local machine, the chunk size and the
    timeout are computed. *)
Lemma chunk_size_and_timeout (level : Z) (perf : performance_level)
    (instance_memory local_memory : float) :
  PERFORMANCE_LEVELS level = Some perf ->
  exists c t, _calculate_chunk_size instance_memory local_memory (multiplier perf) = Ok c /\
              _calculate_timeout c (multiplier perf) = Ok t.
Proof.
  intros Hp. table_cases Hp; unfold _calculate_chunk_size;
    destruct (PrimFloat.ltb _ 2); [|destruct (PrimFloat.ltb _ 8)| |destruct (PrimFloat.ltb _ 8)| |destruct (PrimFloat.ltb _ 8)];
    do 2 eexists; (split; [vm_compute; reflexivity|]); vm_compute; reflexivity.
Qed.

Lemma batch_size_computed (size level : Z) (instance : instance_spec)
    (perf : performance_level) :
  INSTANCE_SPECS size = Some instance ->
  PERFORMANCE_LEVELS level = Some perf ->
  exists b, _calculate_batch_size (memory_gb instance) (multiplier perf) = Ok b.
Proof.
  intros Hi Hp. table_cases Hi; table_cases Hp; eexists; vm_compute; reflexivity.
Qed.

(** For a pair of the two tables the tuner returns, and the fields of what
    it returns are those its helpers compute. *)
Lemma tuned_settings (local : local_specs) (size level : Z)
    (instance : instance_spec) (perf : performance_level) (mc pw w : Z) :
  INSTANCE_SPECS size = Some instance ->
  PERFORMANCE_LEVELS level = Some perf ->
  connection_settings instance (multiplier perf) (local_cpu_cores local) = Ok (mc, pw) ->
  _calculate_work_mem (memory_gb instance) (multiplier perf) = Ok w ->
  exists s, get_optimized_settings local size level = Ok s /\
            max_connections (database_pool s) = mc /\
            parallel_workers (import s) = pw /\
            work_mem (optimization s) = (str_of_int w ++ "MB")%string /\
            maintenance_work_mem (optimization s) = (str_of_int (w * 4) ++ "MB")%string.
Proof.
  intros Hi Hp Hconn Hw. unfold get_optimized_settings. rewrite Hi, Hp.
  destruct (chunk_size_and_timeout level perf (memory_gb instance)
              (available_memory_gb local) Hp) as (c & t & Hc & Ht).
  destruct (batch_size_computed size level instance perf Hi Hp) as (b & Hb).
  by eapply calculate_settings_fields.
Qed.

(** The pool settings of the code are the formulas with truncation. *)
Lemma connection_settings_table (size level : Z) (instance : instance_spec)
    (perf : performance_level) (local_cores : Z) :
  INSTANCE_SPECS size = Some instance ->
  PERFORMANCE_LEVELS level = Some perf ->
  connection_settings instance (multiplier perf) local_cores
  = Ok (formula_max_connections Qfloor instance (float_to_Q (multiplier perf)),
        formula_parallel_workers Qfloor instance (float_to_Q (multiplier perf))
                                 local_cores).
Proof.
  intros Hi Hp. table_cases Hi; table_cases Hp;
    unfold connection_settings, formula_parallel_workers, formula_max_connections;
    cbn [tier cpu_cores tier_eqb multiplier]; eval_arith; reflexivity.
Qed.

(** The work memory of the code is the formula with truncation: the
    rounding errors of the floating-point evaluation never reach the integer
    part. *)
Lemma work_mem_table (size level : Z) (instance : instance_spec)
    (perf : performance_level) :
  INSTANCE_SPECS size = Some instance ->
  PERFORMANCE_LEVELS level = Some perf ->
  _calculate_work_mem (memory_gb instance) (multiplier perf)
  = Ok (formula_work_mem_mb Qfloor (float_to_Q (memory_gb instance))
                            (float_to_Q (multiplier perf))).
Proof.
  intros Hi Hp. table_cases Hi; table_cases Hp; vm_compute; reflexivity.
Qed.

(** C3, as the code has it: for every pair of the two tables the tuner
    returns settings whose [max_connections] is [⌊5·m⌋] on the shared tier
    and [min(⌊10 + 2·cores·m⌋, 50)] on the dedicated tiers, and whose
    [parallel_workers] is 1 on the shared tier and
    [min(⌊cores·m⌋, local_cores − 1, max_connections − 2)] on the dedicated
    tiers: the formulas of the specification with every rounding replaced
    by truncation. *)
Theorem tuner_connection_formulas :
  forall (local : local_specs) (size level : Z) (instance : instance_spec)
         (perf : performance_level),
    INSTANCE_SPECS size = Some instance ->
    PERFORMANCE_LEVELS level = Some perf ->
    exists s, get_optimized_settings local size level = Ok s /\
      max_connections (database_pool s)
      = formula_max_connections Qfloor instance (float_to_Q (multiplier perf)) /\
      parallel_workers (import s)
      = formula_parallel_workers Qfloor instance (float_to_Q (multiplier perf))
                                 (local_cpu_cores local).
Proof.
  intros local size level instance perf Hi Hp.
  pose proof (connection_settings_table size level instance perf
                (local_cpu_cores local) Hi Hp) as Hconn.
  pose proof (work_mem_table size level instance perf Hi Hp) as Hw.
  destruct (tuned_settings local size level instance perf _ _ _ Hi Hp Hconn Hw)
    as (s & Hs & Hmc & Hpw & _).
  exists s. by repeat split.
Qed.

Lemma tuner_connection_formulas_witness :
  INSTANCE_SPECS 6 = Some (InstanceSpec "XL" 16 4 dedicated) /\
  PERFORMANCE_LEVELS 2 = Some (PerformanceLevel "Balanced" 0.75) /\
  exists s, get_optimized_settings (LocalSpecs 8 16 8 10) 6 2 = Ok s /\
    max_connections (database_pool s)
    = formula_max_connections Qfloor (InstanceSpec "XL" 16 4 dedicated)
                              (float_to_Q 0.75) /\
    parallel_workers (import s)
    = formula_parallel_workers Qfloor (InstanceSpec "XL" 16 4 dedicated)
                               (float_to_Q 0.75) 8.
Proof.
  split; [reflexivity|]. split; [reflexivity|].
  apply (tuner_connection_formulas (LocalSpecs 8 16 8 10) 6 2
           (InstanceSpec "XL" 16 4 dedicated) (PerformanceLevel "Balanced" 0.75));
    reflexivity.
Defined.

(** C3, as the specification words it, fails: with rounding in place of
    truncation the shared tier at the balanced level would get
    [round(3.75) = 4] connections, the code gives 3; and the Micro instance
    at the balanced level would get [round(1.5) = 2] workers on a local
    machine of 8 cores, the code gives 1.  Neither case is a tie of the
    rounding at [max_connections]; the worker count is a tie that every
    usual rounding sends to 2. *)
Lemma tuner_rounding_counterexample :
  let local := LocalSpecs 8 16 8 10 in
  match get_optimized_settings local 1 2, INSTANCE_SPECS 1,
        get_optimized_settings local 2 2, INSTANCE_SPECS 2,
        PERFORMANCE_LEVELS 2 with
  | Ok nano_s, Some nano, Ok micro_s, Some micro, Some balanced =>
      max_connections (database_pool nano_s) = 3 /\
      formula_max_connections round_half_even nano
        (float_to_Q (multiplier balanced)) = 4 /\
      parallel_workers (import micro_s) = 1 /\
      formula_parallel_workers round_half_even micro
        (float_to_Q (multiplier balanced)) (local_cpu_cores local) = 2
  | _, _, _, _, _ => False
  end.
Proof. vm_compute. repeat split. Qed.

(** C6, as the code has it: for every pair of the two tables and every
    local machine the tuner returns settings with [max_connections ≤ 50]
    and [parallel_workers ≤ max_connections − 1]; [parallel_workers ≤ local
    cores − 1] holds on the dedicated tiers, and on the shared tier, where
    [parallel_workers] is the constant 1, when the local machine has two
    cores or more. *)
Theorem tuner_profile_bounds :
  forall (local : local_specs) (size level : Z) (instance : instance_spec)
         (perf : performance_level),
    INSTANCE_SPECS size = Some instance ->
    PERFORMANCE_LEVELS level = Some perf ->
    exists s, get_optimized_settings local size level = Ok s /\
      max_connections (database_pool s) <= 50 /\
      parallel_workers (import s) <= max_connections (database_pool s) - 1 /\
      (tier instance = dedicated \/ 2 <= local_cpu_cores local ->
       parallel_workers (import s) <= local_cpu_cores local - 1) /\
      (tier instance = shared -> parallel_workers (import s) = 1).
Proof.
  intros local size level instance perf Hi Hp.
  pose proof (connection_settings_table size level instance perf
                (local_cpu_cores local) Hi Hp) as Hconn.
  pose proof (work_mem_table size level instance perf Hi Hp) as Hw.
  destruct (tuned_settings local size level instance perf _ _ _ Hi Hp Hconn Hw)
    as (s & Hs & Hmc & Hpw & _).
  exists s. split; [exact Hs|]. rewrite Hmc, Hpw. clear Hs Hmc Hpw Hconn Hw.
  table_cases Hi; table_cases Hp;
    unfold formula_parallel_workers, formula_max_connections;
    cbn [tier cpu_cores]; eval_arith;
    (split; [lia|]); (split; [lia|]);
    (split; [intros [?|?]; try discriminate; lia
            |intros ?; try discriminate; reflexivity]).
Qed.

Lemma tuner_profile_bounds_witness :
  INSTANCE_SPECS 9 = Some (InstanceSpec "8XL" 128 32 dedicated) /\
  PERFORMANCE_LEVELS 3 = Some (PerformanceLevel "Aggressive" 1.0) /\
  exists s, get_optimized_settings (LocalSpecs 4 16 8 10) 9 3 = Ok s /\
    max_connections (database_pool s) <= 50 /\
    parallel_workers (import s) <= max_connections (database_pool s) - 1 /\
    (dedicated = dedicated \/ 2 <= 4 -> parallel_workers (import s) <= 4 - 1) /\
    (dedicated = shared -> parallel_workers (import s) = 1).
Proof.
  split; [reflexivity|]. split; [reflexivity|].
  apply (tuner_profile_bounds (LocalSpecs 4 16 8 10) 9 3
           (InstanceSpec "8XL" 128 32 dedicated) (PerformanceLevel "Aggressive" 1.0));
    reflexivity.
Defined.

(** C6, as the specification words it, fails: on a local machine with one
    core the shared tier still gets one worker, which is more than
    [local cores − 1 = 0]. *)
Lemma tuner_single_core_counterexample :
  let local := LocalSpecs 1 16 8 10 in
  match get_optimized_settings local 1 1 with
  | Ok s => parallel_workers (import s) = 1 /\
            ~ parallel_workers (import s) <= local_cpu_cores local - 1
  | Raise _ => False
  end.
Proof. vm_compute. split; [reflexivity|]. intros H. by apply H. Qed.

(** C7, as the code has it: for every pair of the two tables the tuner
    computes [work_mem_mb = clamp(⌊memory_gb·1024·(0.05 + 0.05·m)⌋, 64, 1024)]
    (the formula over the exact numbers, with truncation where the
    specification rounds) and a maintenance memory of four times that; both
    are returned as a number of megabytes. *)
Theorem tuner_work_mem_formula :
  forall (local : local_specs) (size level : Z) (instance : instance_spec)
         (perf : performance_level),
    INSTANCE_SPECS size = Some instance ->
    PERFORMANCE_LEVELS level = Some perf ->
    let work_mem_mb :=
      formula_work_mem_mb Qfloor (float_to_Q (memory_gb instance))
                          (float_to_Q (multiplier perf)) in
    _calculate_work_mem (memory_gb instance) (multiplier perf) = Ok work_mem_mb /\
    exists s, get_optimized_settings local size level = Ok s /\
      work_mem (optimization s) = (str_of_int work_mem_mb ++ "MB")%string /\
      maintenance_work_mem (optimization s)
      = (str_of_int (4 * work_mem_mb) ++ "MB")%string.
Proof.
  intros local size level instance perf Hi Hp work_mem_mb.
  pose proof (connection_settings_table size level instance perf
                (local_cpu_cores local) Hi Hp) as Hconn.
  pose proof (work_mem_table size level instance perf Hi Hp) as Hw.
  split; [exact Hw|].
  destruct (tuned_settings local size level instance perf _ _ _ Hi Hp Hconn Hw)
    as (s & Hs & _ & _ & Hwm & Hmm).
  exists s. repeat split; [exact Hs|exact Hwm|].
  rewrite Hmm. fold work_mem_mb. by rewrite Z.mul_comm.
Qed.

Lemma tuner_work_mem_formula_witness :
  INSTANCE_SPECS 4 = Some (InstanceSpec "Medium" 4 2 dedicated) /\
  PERFORMANCE_LEVELS 1 = Some (PerformanceLevel "Conservative" 0.5) /\
  _calculate_work_mem 4 0.5
  = Ok (formula_work_mem_mb Qfloor (float_to_Q 4) (float_to_Q 0.5)) /\
  exists s, get_optimized_settings (LocalSpecs 8 16 8 10) 4 1 = Ok s /\
    work_mem (optimization s)
    = (str_of_int (formula_work_mem_mb Qfloor (float_to_Q 4) (float_to_Q 0.5))
       ++ "MB")%string /\
    maintenance_work_mem (optimization s)
    = (str_of_int (4 * formula_work_mem_mb Qfloor (float_to_Q 4) (float_to_Q 0.5))
       ++ "MB")%string.
Proof.
  split; [reflexivity|]. split; [reflexivity|].
  apply (tuner_work_mem_formula (LocalSpecs 8 16 8 10) 4 1
           (InstanceSpec "Medium" 4 2 dedicated) (PerformanceLevel "Conservative" 0.5));
    reflexivity.
Defined.

(** C7, as the specification words it, fails: for the Micro instance (1 GB)
    at the conservative level the formula gives [round(76.8) = 77], the
    code computes 76 and returns ["76MB"]. *)
Lemma tuner_work_mem_rounding_counterexample :
  match get_optimized_settings (LocalSpecs 8 16 8 10) 2 1,
        INSTANCE_SPECS 2, PERFORMANCE_LEVELS 1 with
  | Ok s, Some micro, Some conservative =>
      _calculate_work_mem (memory_gb micro) (multiplier conservative) = Ok 76 /\
      work_mem (optimization s) = "76MB"%string /\
      formula_work_mem_mb round_half_even (float_to_Q (memory_gb micro))
                          (float_to_Q (multiplier conservative)) = 77
  | _, _, _ => False
  end.
Proof. vm_compute. repeat split. Qed.

End PerformanceOptimizerFacts.

Module DatabaseImporterFacts.
Import Py ProgressTracker DatabaseImporter.
Local Open Scope m_scope.

(** ** An empty job *)

(** C9: [import_files] with an empty list returns [True] and leaves the
    importer as it was: nothing is loaded, no connection is taken from the
    pool (the trace is unchanged), and the tracker is not touched. *)
Theorem import_files_empty :
  forall (cfg : config) (use_parallel : bool) (batch_size : Z)
         (world : nat -> file_env) (schedule : list nat) (st : state),
    import_files cfg [] use_parallel batch_size world schedule st = (Ok true, st).
Proof. reflexivity. Qed.

(** Running the importer's code on a state that is not known: only the
    definitions of the embedding are unfolded. *)
Ltac run_m :=
  cbv beta iota zeta delta
    [optimize_for_import optimize_body apply_optimizations optimizations
     bulk_copy_body
     execute do_commit do_rollback may_raise raised_at
     optimize_stage_eqb bulk_stage_eqb fallback_stage_eqb Nat.eqb
     emit log_message on_conn on_progress set_original_settings get_pending
     bindM bindR ret fst snd
     progress conn original_settings trace committed pending
     in_transaction commit rollback].

(** ** Session tuning *)

(** When nothing raises, the settings in force are saved, the statements
    are all applied and the transaction is committed. *)
Lemma optimize_for_import_success (cfg : config) (o : optimization_config)
    (rollback_raises : option exn) (st : state) :
  optimization cfg = Some o ->
  let timeout := default "30min"%string (opt_statement_timeout o) in
  let table := if default false (opt_disable_triggers o)
               then Some (table_name cfg) else None in
  let st' := (optimize_for_import cfg None rollback_raises st).2 in
  (optimize_for_import cfg None rollback_raises st).1 = Ok tt /\
  committed (conn st') = tuned timeout table (pending (conn st)) /\
  pending (conn st') = committed (conn st') /\
  original_settings st'
  = Some (map (fun name => session_settings (pending (conn st)) !! name)
              saved_settings).
Proof.
  intros Ho. cbv zeta. unfold optimize_for_import, optimize_body. rewrite Ho.
  destruct (default false (opt_disable_triggers o)); run_m; repeat split.
Qed.

(** Whatever raises in the [try], and wherever: either everything was
    committed, or the committed state is the one of before; and when the
    rollback of the handler does not raise, the call returns normally with
    no transaction left open.  The call raises what that rollback raises
    only. *)
Lemma optimize_for_import_atomic (cfg : config)
    (failure : option (optimize_stage * exn)) (rollback_raises : option exn)
    (st : state) :
  let r := optimize_for_import cfg failure rollback_raises st in
  (rollback_raises = None ->
   r.1 = Ok tt /\ pending (conn r.2) = committed (conn r.2)) /\
  (forall e, r.1 = Raise e -> rollback_raises = Some e) /\
  (committed (conn r.2) = committed (conn st) \/
   exists o, optimization cfg = Some o /\
     committed (conn r.2)
     = tuned (default "30min"%string (opt_statement_timeout o))
             (if default false (opt_disable_triggers o)
              then Some (table_name cfg) else None)
             (pending (conn st))).
Proof.
  cbv zeta. unfold optimize_for_import, optimize_body.
  destruct (optimization cfg) as [o|] eqn:Ho;
    [|destruct rollback_raises; run_m;
      (split; [try done|]); (split; [by intros ? [= ->]|]); by left].
  destruct failure as [[[k|] e]|].
  - do 8 (try destruct k as [|k]);
      destruct (default false (opt_disable_triggers o)) eqn:Hd;
      destruct rollback_raises; run_m;
      (split; [try done|]); (split; [try done; by intros ? [= ->]|]);
      first [by left | right; exists o; rewrite Hd; by split].
  - destruct (default false (opt_disable_triggers o));
      destruct rollback_raises; run_m;
      (split; [try done|]); (split; [by intros ? [= ->]|]); by left.
  - destruct (default false (opt_disable_triggers o)) eqn:Hd; run_m;
      (split; [done|]); (split; [done|]); right; exists o; rewrite Hd; by split.
Qed.

Lemma lookup_set_param (name value : string) (d : db_state) (k : string) :
  session_settings (set_param name value d) !! k
  = if decide (name = k) then Some value else session_settings d !! k.
Proof. unfold set_param; cbn [session_settings]. apply lookup_insert. Qed.

(** C2, where the code departs from it: whatever [work_mem] and
    [maintenance_work_mem] the tuning profile carries, the session is set to
    ['256MB'] and ['1GB']; of the profile only the statement timeout and the
    trigger flag are used. *)
Theorem optimize_for_import_fixed_memory :
  forall (table : string) (max_connections workers : Z)
         (work_mem maintenance_work_mem timeout : option string)
         (triggers : option bool) (rollback_raises : option exn) (st : state),
    let cfg := {| table_name := table;
                  pool_max_connections := max_connections;
                  import_parallel_workers := workers;
                  optimization :=
                    Some {| opt_work_mem := work_mem;
                            opt_maintenance_work_mem := maintenance_work_mem;
                            opt_statement_timeout := timeout;
                            opt_disable_triggers := triggers |} |} in
    let st' := (optimize_for_import cfg None rollback_raises st).2 in
    session_settings (committed (conn st')) !! "work_mem"%string = Some "'256MB'"%string /\
    session_settings (committed (conn st')) !! "maintenance_work_mem"%string
    = Some "'1GB'"%string /\
    session_settings (committed (conn st')) !! "statement_timeout"%string
    = Some ("'" ++ default "30min" timeout ++ "'")%string.
Proof.
  intros table max_connections workers work_mem maintenance_work_mem timeout
         triggers rollback_raises st cfg st'.
  destruct (optimize_for_import_success cfg _ rollback_raises st eq_refl)
    as (_ & Hc & _).
  fold st' in Hc. rewrite Hc. clear Hc.
  cbn [opt_statement_timeout opt_disable_triggers].
  destruct (default false triggers); unfold tuned, optimizations;
    cbn [foldl apply_statement disable_triggers session_settings];
    (split; [|split]);
    repeat (rewrite lookup_set_param; case_decide; try done).
Qed.

(** The profile the tuner computes for the largest instance asks for
    1024 MB of work memory; the session gets 256 MB. *)
Example optimize_for_import_ignores_profile :
  let cfg := {| table_name := "events";
                pool_max_connections := 50;
                import_parallel_workers := 7;
                optimization :=
                  Some {| opt_work_mem := Some "1024MB";
                          opt_maintenance_work_mem := Some "4096MB";
                          opt_statement_timeout := Some "1h";
                          opt_disable_triggers := Some true |} |}%string in
  let st' := (optimize_for_import cfg None None initial).2 in
  In (EvExecute (SetParam "work_mem" "'256MB'")) (trace st') /\
  ~ In (EvExecute (SetParam "work_mem" "'1024MB'")) (trace st') /\
  session_settings (committed (conn st')) !! "work_mem"%string = Some "'256MB'"%string.
Proof.
  vm_compute. split; [tauto|]. split; [|reflexivity].
  intros H. repeat (destruct H as [H|H]; [discriminate H|]). exact H.
Qed.

(** ** What a computation returns, whatever the state *)

Lemma pure_unit (m : M unit) : pure_result m.
Proof. intros st st'. by destruct (m st).1, (m st').1. Qed.

Lemma pure_ret {A} (a : A) : pure_result (ret a).
Proof. by intros st st'. Qed.

Lemma pure_bindM {A B} (m : M A) (k : A -> M B) :
  pure_result m -> (forall a, pure_result (k a)) -> pure_result (bindM m k).
Proof.
  intros Hm Hk st st'. unfold bindM. specialize (Hm st st').
  destruct (m st) as [a st1], (m st') as [a' st1']; simpl in Hm; subst a'.
  apply Hk.
Qed.

Lemma pure_bindR {A B} (m : M (result A)) (k : A -> M (result B)) :
  pure_result m -> (forall a, pure_result (k a)) -> pure_result (bindR m k).
Proof.
  intros Hm Hk st st'. unfold bindR. specialize (Hm st st').
  destruct (m st) as [r st1], (m st') as [r' st1']; simpl in Hm; subst r'.
  destruct r; [apply Hk|done].
Qed.

Lemma pure_may_raise (failure : option exn) (m : M unit) :
  pure_result (may_raise failure m).
Proof.
  destruct failure; [apply pure_ret|].
  apply pure_bindM; [apply pure_unit|intros; apply pure_ret].
Qed.

Lemma pure_do_rollback (failure : option exn) : pure_result (do_rollback failure).
Proof.
  unfold do_rollback. apply pure_bindM; [apply pure_unit|intros _].
  apply pure_may_raise.
Qed.

Ltac pure_step :=
  lazymatch goal with
  | |- pure_result (ret _) => apply pure_ret
  | |- pure_result (may_raise _ _) => apply pure_may_raise
  | |- pure_result (do_rollback _) => apply pure_do_rollback
  | |- pure_result (bindR _ _) => apply pure_bindR; [|intros ?]
  | |- pure_result (bindM _ _) => apply pure_bindM; [|intros ?]
  | |- pure_result (match ?x with _ => _ end) => destruct x
  | |- @pure_result unit _ => apply pure_unit
  end.

Lemma pure_execute (failure : option exn) (s : statement) :
  pure_result (execute failure s).
Proof. unfold execute. repeat pure_step. Qed.

Lemma pure_do_commit (failure : option exn) : pure_result (do_commit failure).
Proof. unfold do_commit. repeat pure_step. Qed.

Lemma pure_insert_batch (failure : option exn) (b : list row) :
  pure_result (_insert_batch failure b).
Proof. unfold _insert_batch. repeat pure_step. Qed.

Lemma pure_flush_batch (failure : option (fallback_stage * exn)) (b : batch_state) :
  pure_result (flush_batch failure b).
Proof.
  unfold flush_batch. apply pure_bindR; [apply pure_insert_batch|intros ?].
  repeat pure_step.
Qed.

Lemma pure_batch_loop (batch_size : Z) (failure : option (fallback_stage * exn))
    (rows : list row) (b : batch_state) :
  pure_result (batch_loop batch_size failure rows b).
Proof.
  revert b. induction rows as [|r rows IH]; intros b; simpl.
  - destruct (raised_at _ _ _); apply pure_ret.
  - destruct (raised_at _ _ _); [apply pure_ret|].
    apply pure_bindR; [|intros ?; apply IH].
    destruct (_ <=? _)%Z; [apply pure_flush_batch|apply pure_ret].
Qed.

Lemma pure_import_with_batch_insert (file_path : string) (batch_size : Z)
    (w : file_env) :
  pure_result (_import_with_batch_insert file_path batch_size w).
Proof.
  unfold _import_with_batch_insert, batch_insert_body.
  apply pure_bindM; [|intros [b|e]; repeat pure_step].
  apply pure_bindR; [apply pure_may_raise|intros _].
  apply pure_bindR; [apply pure_batch_loop|intros b].
  apply pure_bindR; [destruct (batch b); [apply pure_ret|apply pure_flush_batch]|intros b'].
  apply pure_bindR; [apply pure_do_commit|intros _].
  repeat pure_step.
Qed.

Lemma pure_bulk_copy_body (cfg : config) (file_path : string) (w : file_env) :
  pure_result (bulk_copy_body cfg file_path w).
Proof.
  unfold bulk_copy_body.
  apply pure_bindR; [apply pure_execute|intros _].
  apply pure_bindR; [apply pure_may_raise|intros _].
  apply pure_bindM; [apply pure_unit|intros _].
  apply pure_bindR; [apply pure_may_raise|intros _].
  apply pure_bindM; [apply pure_unit|intros _].
  apply pure_bindR; [apply pure_may_raise|intros _].
  apply pure_bindR; [apply pure_do_commit|intros _].
  repeat pure_step.
Qed.

Lemma pure_import_single_file (cfg : config) (file_path : string)
    (batch_size : Z) (w : file_env) :
  pure_result (_import_single_file cfg file_path batch_size w).
Proof.
  unfold _import_single_file.
  apply pure_bindM; [apply pure_unit|intros _].
  apply pure_bindM; [apply pure_bulk_copy_body|intros r].
  apply pure_bindM; [|intros ?; repeat pure_step].
  destruct r as [b|e]; [apply pure_ret|]. unfold except_block.
  apply pure_bindM; [apply pure_unit|intros _].
  apply pure_bindR; [apply pure_do_rollback|intros _].
  destruct (contains _ _); [|apply pure_ret].
  apply pure_bindM; [apply pure_unit|intros _].
  apply pure_import_with_batch_insert.
Qed.

(** The import of a file returns, or raises, what the file makes it return
    or raise, whatever the state of the importer. *)
Lemma import_single_file_result (cfg : config) (file_path : string)
    (batch_size : Z) (w : file_env) (st : state) :
  (_import_single_file cfg file_path batch_size w st).1
  = file_result cfg file_path batch_size w.
Proof. apply pure_import_single_file. Qed.

Lemma file_result_outcome (cfg : config) (file_path : string) (batch_size : Z)
    (w : file_env) (b : bool) :
  file_result cfg file_path batch_size w = Ok b ->
  file_outcome cfg file_path batch_size w = b /\
  file_raises cfg file_path batch_size w = false.
Proof. unfold file_outcome, file_raises. by intros ->. Qed.

Lemma file_result_raises (cfg : config) (file_path : string) (batch_size : Z)
    (w : file_env) (e : exn) :
  file_result cfg file_path batch_size w = Raise e ->
  file_outcome cfg file_path batch_size w = false /\
  file_raises cfg file_path batch_size w = true.
Proof. unfold file_outcome, file_raises. by intros ->. Qed.

(** ** What a computation leaves unchanged *)

Section Steps.

Context (R : state -> state -> Prop) `{!PreOrder R}.

Lemma steps_ret {A} (a : A) : steps R (ret a).
Proof. intros st. simpl. reflexivity. Qed.

Lemma steps_bindM {A B} (m : M A) (k : A -> M B) :
  steps R m -> (forall a, steps R (k a)) -> steps R (bindM m k).
Proof.
  intros Hm Hk st. unfold bindM. specialize (Hm st).
  destruct (m st) as [a st1]; simpl in Hm.
  etransitivity; [exact Hm|apply Hk].
Qed.

Lemma steps_bindR {A B} (m : M (result A)) (k : A -> M (result B)) :
  steps R m -> (forall a, steps R (k a)) -> steps R (bindR m k).
Proof.
  intros Hm Hk st. unfold bindR. specialize (Hm st).
  destruct (m st) as [[a|e] st1]; simpl in Hm; [|exact Hm].
  etransitivity; [exact Hm|apply Hk].
Qed.

Lemma steps_may_raise (failure : option exn) (m : M unit) :
  steps R m -> steps R (may_raise failure m).
Proof.
  intros Hm. destruct failure; [apply steps_ret|].
  apply steps_bindM; [exact Hm|intros; apply steps_ret].
Qed.

End Steps.

#[local] Instance only_rows_preorder : PreOrder only_rows.
Proof.
  split.
  - by intros p.
  - intros p1 p2 p3 (H1 & H2 & H3 & H4) (H1' & H2' & H3' & H4').
    repeat split; congruence.
Qed.

#[local] Instance quiet_preorder : PreOrder quiet.
Proof.
  split.
  - intros st. split; reflexivity.
  - intros s1 s2 s3 [H1 H2] [H1' H2']. split; [by etransitivity|congruence].
Qed.

#[local] Instance uncommitted_preorder : PreOrder uncommitted.
Proof.
  split; [by intros st|]. unfold uncommitted. intros s1 s2 s3 H1 H2. congruence.
Qed.

Create HintDb steps.

Lemma connections_taken_emit (e : event) (st : state) :
  connections_taken (emit e st).2
  = (connections_taken st + match e with EvGetConn => 1 | _ => 0 end)%nat.
Proof.
  unfold connections_taken, emit; simpl. rewrite List.filter_app, length_app.
  by destruct e.
Qed.

Lemma quiet_emit (e : event) : e <> EvGetConn -> steps quiet (emit e).
Proof.
  intros He st. split; [reflexivity|].
  rewrite connections_taken_emit. destruct e; try done; lia.
Qed.

Lemma quiet_log (l : log_entry) : steps quiet (log_message l).
Proof. by apply quiet_emit. Qed.

Lemma quiet_on_conn (f : connection -> connection) : steps quiet (on_conn f).
Proof. intros st. split; reflexivity. Qed.

Lemma quiet_add_rows (n : Z) : steps quiet (on_progress (add_rows n)).
Proof. intros st. by repeat split. Qed.

Lemma uncommitted_emit (e : event) : steps uncommitted (emit e).
Proof. by intros st. Qed.

Lemma uncommitted_log (l : log_entry) : steps uncommitted (log_message l).
Proof. by intros st. Qed.

Lemma uncommitted_on_progress (f : tracker -> tracker) :
  steps uncommitted (on_progress f).
Proof. by intros st. Qed.

Lemma uncommitted_in_transaction (f : db_state -> db_state) :
  steps uncommitted (on_conn (in_transaction f)).
Proof. by intros st. Qed.

Lemma uncommitted_rollback : steps uncommitted (on_conn rollback).
Proof. by intros st. Qed.

#[local] Hint Resolve quiet_log quiet_on_conn quiet_add_rows
  uncommitted_emit uncommitted_log uncommitted_on_progress
  uncommitted_in_transaction uncommitted_rollback : steps.

Ltac steps_step :=
  lazymatch goal with
  | |- steps _ (ret _) => apply steps_ret; typeclasses eauto
  | |- steps _ (may_raise _ _) => apply steps_may_raise; [typeclasses eauto|]
  | |- steps _ (bindR _ _) => apply steps_bindR; [typeclasses eauto| |intros ?]
  | |- steps _ (bindM _ _) => apply steps_bindM; [typeclasses eauto| |intros ?]
  | |- steps quiet (emit _) => apply quiet_emit; discriminate
  | |- steps _ (match ?x with _ => _ end) => destruct x
  | |- steps _ _ => solve [auto with steps]
  end.

Lemma quiet_execute (failure : option exn) (s : statement) :
  steps quiet (execute failure s).
Proof. unfold execute. repeat steps_step. Qed.

Lemma uncommitted_execute (failure : option exn) (s : statement) :
  steps uncommitted (execute failure s).
Proof. unfold execute. repeat steps_step. Qed.

Lemma quiet_do_commit (failure : option exn) : steps quiet (do_commit failure).
Proof. unfold do_commit. repeat steps_step. Qed.

Lemma quiet_do_rollback (failure : option exn) : steps quiet (do_rollback failure).
Proof. unfold do_rollback. repeat steps_step. Qed.

Lemma uncommitted_do_rollback (failure : option exn) :
  steps uncommitted (do_rollback failure).
Proof. unfold do_rollback. repeat steps_step. Qed.

Lemma quiet_insert_batch (failure : option exn) (b : list row) :
  steps quiet (_insert_batch failure b).
Proof. unfold _insert_batch. repeat steps_step. Qed.

Lemma uncommitted_insert_batch (failure : option exn) (b : list row) :
  steps uncommitted (_insert_batch failure b).
Proof. unfold _insert_batch. repeat steps_step. Qed.

#[local] Hint Resolve quiet_execute uncommitted_execute quiet_do_commit
  quiet_do_rollback uncommitted_do_rollback quiet_insert_batch
  uncommitted_insert_batch : steps.

Lemma quiet_flush_batch (failure : option (fallback_stage * exn)) (b : batch_state) :
  steps quiet (flush_batch failure b).
Proof. unfold flush_batch. repeat steps_step. Qed.

Lemma uncommitted_flush_batch (failure : option (fallback_stage * exn))
    (b : batch_state) :
  steps uncommitted (flush_batch failure b).
Proof. unfold flush_batch. repeat steps_step. Qed.

#[local] Hint Resolve quiet_flush_batch uncommitted_flush_batch : steps.

Lemma batch_loop_steps (R : state -> state -> Prop) `{!PreOrder R}
    (batch_size : Z) (failure : option (fallback_stage * exn)) :
  (forall b, steps R (flush_batch failure b)) ->
  forall rows b, steps R (batch_loop batch_size failure rows b).
Proof.
  intros Hflush rows. induction rows as [|r rows IH]; intros b; simpl.
  - destruct (raised_at _ _ _); by apply steps_ret.
  - destruct (raised_at _ _ _); [by apply steps_ret|].
    apply steps_bindR; [done| |intros ?; apply IH].
    destruct (_ <=? _)%Z; [apply Hflush|by apply steps_ret].
Qed.

Lemma quiet_batch_loop batch_size failure rows b :
  steps quiet (batch_loop batch_size failure rows b).
Proof. apply batch_loop_steps; [typeclasses eauto|apply quiet_flush_batch]. Qed.

Lemma uncommitted_batch_loop batch_size failure rows b :
  steps uncommitted (batch_loop batch_size failure rows b).
Proof.
  apply batch_loop_steps; [typeclasses eauto|apply uncommitted_flush_batch].
Qed.

#[local] Hint Resolve quiet_batch_loop uncommitted_batch_loop : steps.

(** The fallback takes no connection and touches no counter of the tracker
    but the row counter. *)
Lemma quiet_import_with_batch_insert (file_path : string) (batch_size : Z)
    (w : file_env) :
  steps quiet (_import_with_batch_insert file_path batch_size w).
Proof.
  unfold _import_with_batch_insert, batch_insert_body. repeat steps_step.
Qed.

Lemma quiet_except_block (file_path : string) (batch_size : Z) (w : file_env)
    (e : exn) :
  steps quiet (except_block file_path batch_size w e).
Proof.
  unfold except_block. repeat steps_step. apply quiet_import_with_batch_insert.
Qed.

(** ** One file *)

(** [_import_single_file], step by step. *)
Lemma import_single_file_run (cfg : config) (file_path : string)
    (batch_size : Z) (w : file_env) (st : state) :
  _import_single_file cfg file_path batch_size w st
  = let '(r, st1) := bulk_copy_body cfg file_path w (emit EvGetConn st).2 in
    let '(result, st2) := match r with
                          | Ok b => (Ok b, st1)
                          | Raise e => except_block file_path batch_size w e st1
                          end in
    (result, (emit EvPutConn st2).2).
Proof.
  unfold _import_single_file, bindM. cbn [emit snd].
  destruct (bulk_copy_body _ _ _ _) as [[b|e] st1]; [reflexivity|].
  by destruct (except_block _ _ _ _ _).
Qed.

(** A bulk copy that fails: the exception reaches the handler with nothing
    committed, nothing counted and no other connection taken. *)
Lemma bulk_copy_body_raises (cfg : config) (file_path : string) (w : file_env)
    (stage : bulk_stage) (e : exn) (st : state) :
  bulk_failure w = Some (stage, e) ->
  exists st1, bulk_copy_body cfg file_path w st = (Raise e, st1) /\
              progress st1 = progress st /\
              committed (conn st1) = committed (conn st) /\
              connections_taken st1 = connections_taken st.
Proof.
  intros Hw. unfold bulk_copy_body. rewrite Hw. destruct st as [p c o t].
  destruct stage; run_m; eexists; (split; [reflexivity|]);
    unfold connections_taken; cbn [progress conn committed trace];
    rewrite ?List.filter_app, ?length_app; cbn [List.filter length];
    repeat split; lia.
Qed.

(** A bulk copy that goes through: committed, and counted in rows and in
    bytes. *)
Lemma bulk_copy_body_returns (cfg : config) (file_path : string) (w : file_env)
    (st : state) :
  bulk_failure w = None ->
  exists st1, bulk_copy_body cfg file_path w st = (Ok true, st1) /\
              progress st1 = add_bytes (file_size w)
                               (add_rows (copy_rowcount w) (progress st)) /\
              pending (conn st1) = committed (conn st1) /\
              connections_taken st1 = connections_taken st.
Proof.
  intros Hw. unfold bulk_copy_body. rewrite Hw. destruct st as [p c o t].
  run_m; eexists; (split; [reflexivity|]);
    unfold connections_taken; cbn [progress conn committed pending trace];
    rewrite ?List.filter_app, ?length_app; cbn [List.filter length];
    repeat split; lia.
Qed.

(** What the import of one file does to the pool and to the tracker. *)
Lemma import_single_file_effect (cfg : config) (file_path : string)
    (batch_size : Z) (w : file_env) (st : state) :
  let st' := (_import_single_file cfg file_path batch_size w st).2 in
  connections_taken st' = S (connections_taken st) /\
  bytes_processed (progress st')
  = bytes_processed (progress st) + (if bulk_succeeds w then file_size w else 0) /\
  (bulk_succeeds w = true -> file_result cfg file_path batch_size w = Ok true).
Proof.
  cbv zeta. rewrite <- (import_single_file_result cfg file_path batch_size w st).
  rewrite import_single_file_run. unfold bulk_succeeds.
  pose proof (connections_taken_emit EvGetConn st) as Hc0.
  assert (Hp0 : progress (emit EvGetConn st).2 = progress st) by reflexivity.
  destruct (bulk_failure w) as [[stage e]|] eqn:Hw.
  - destruct (bulk_copy_body_raises cfg file_path w stage e (emit EvGetConn st).2 Hw)
      as (st1 & -> & Hp & _ & Hc).
    pose proof (quiet_except_block file_path batch_size w e st1) as [Hq Hqc].
    destruct (except_block _ _ _ _ _) as [ok st2]. cbn [fst snd] in *.
    rewrite connections_taken_emit, Hqc, Hc, Hc0.
    destruct Hq as (_ & _ & Hb & _). cbn [emit snd progress].
    rewrite Hb, Hp, Hp0. repeat split; [lia|lia|done].
  - destruct (bulk_copy_body_returns cfg file_path w (emit EvGetConn st).2 Hw)
      as (st1 & -> & Hp & _ & Hc).
    cbn [fst snd]. rewrite connections_taken_emit, Hc, Hc0.
    cbn [emit snd progress]. rewrite Hp, Hp0. repeat split; lia.
Qed.

(** ** A job *)

(** The files of [l] that count: those [P] holds of. *)
Lemma filter_length_all {A} (P : A -> Prop) `{!forall x, Decision (P x)} (l : list A) :
  length (filter P l) = length l <-> Forall P l.
Proof.
  induction l as [|x l IH]; [by split; [constructor|]|].
  rewrite filter_cons. destruct (decide (P x)) as [Hx|Hx]; simpl.
  - rewrite Forall_cons. split; [intros Hl; split; [done|]; apply IH; lia|].
    intros [_ Hl]. f_equal. by apply IH.
  - pose proof (length_filter P l). split; [lia|].
    intros Hl. apply Forall_cons in Hl as [? _]. done.
Qed.

Lemma sumZ_cons (f : nat -> Z) (x : nat) (l : list nat) :
  sumZ f (x :: l) = f x + sumZ f l.
Proof. reflexivity. Qed.

Lemma sumZ_app (f : nat -> Z) (l k : list nat) :
  sumZ f (l ++ k) = sumZ f l + sumZ f k.
Proof. induction l as [|x l IH]; simpl; [done|]. rewrite IH. lia. Qed.

Lemma sumZ_Permutation (f : nat -> Z) (l k : list nat) :
  l ≡ₚ k -> sumZ f l = sumZ f k.
Proof. induction 1; simpl; lia. Qed.

Lemma sumZ_ext (f g : nat -> Z) (l : list nat) :
  (forall i, i ∈ l -> f i = g i) -> sumZ f l = sumZ g l.
Proof.
  induction l as [|x l IH]; intros Hfg; simpl; [done|].
  rewrite (Hfg x), IH; [done| |by left]. intros i Hi. apply Hfg. by right.
Qed.

(** A sum over the members that satisfy [P]. *)
Lemma sumZ_filter (f : nat -> Z) (P : nat -> Prop) `{!forall x, Decision (P x)}
    (l : list nat) :
  sumZ f (filter P l) = sumZ (fun i => if decide (P i) then f i else 0) l.
Proof.
  induction l as [|x l IH]; simpl; [done|].
  rewrite filter_cons. destruct (decide (P x)); simpl; rewrite IH; lia.
Qed.

Section Job.

Variable cfg : config.
Variable file_paths : list string.
Variable batch_size : Z.
Variable world : nat -> file_env.

Local Abbreviation succeeds :=
  (fun i => outcome_at cfg file_paths batch_size world i = true).

Local Abbreviation bytes_counted := (DatabaseImporter.bytes_counted file_paths world).

Lemma sequential_loop_cons (total i : nat) (file_path : string)
    (files : list string) (c : Z) (st : state) :
  sequential_loop cfg batch_size world total i (file_path :: files) c st
  = let st1 := (on_progress
                  (update_status
                     ("Importing file " +:+ FileSplitter.decimal (S i) +:+ "/"
                      +:+ FileSplitter.decimal total)) st).2 in
    let '(r, st2) := _import_single_file cfg file_path batch_size (world i) st1 in
    match r with
    | Ok true => sequential_loop cfg batch_size world total (S i) files (c + 1) st2
    | Ok false => sequential_loop cfg batch_size world total (S i) files c
                    (log_message (LogFailedToImport file_path) st2).2
    | Raise e => (Raise e, st2)
    end.
Proof.
  cbn [sequential_loop]. unfold bindM, bindR. cbn [on_progress snd].
  destruct (_import_single_file _ _ _ _ _) as [[[|]|e] st2]; reflexivity.
Qed.

Lemma outcome_at_lookup (i : nat) (file_path : string) :
  file_paths !! i = Some file_path ->
  outcome_at cfg file_paths batch_size world i
  = file_outcome cfg file_path batch_size (world i).
Proof. intros Hi. unfold outcome_at. by rewrite Hi. Qed.

Lemma bytes_counted_lookup (i : nat) (file_path : string) :
  file_paths !! i = Some file_path ->
  bytes_counted i = if bulk_succeeds (world i) then file_size (world i) else 0.
Proof. intros Hi. unfold bytes_counted. by rewrite Hi. Qed.

(** The sequential loop when no exception leaves the import of a file: what
    it returns, the connections it takes and the bytes it counts, for the
    files from the [i]-th on. *)
Lemma sequential_loop_spec (files : list string) (i : nat) (c : Z) (st : state) :
  drop i file_paths = files ->
  imports_return cfg file_paths batch_size world ->
  let r := sequential_loop cfg batch_size world (length file_paths) i files c st in
  r.1 = Ok (c + Z.of_nat (length (filter succeeds (seq i (length files))))) /\
  connections_taken r.2 = (connections_taken st + length files)%nat /\
  bytes_processed (progress r.2)
  = bytes_processed (progress st) + sumZ bytes_counted (seq i (length files)).
Proof.
  intros Hdrop Hret. revert i c st Hdrop.
  induction files as [|file_path files IH]; intros i c st Hdrop; cbv zeta.
  { simpl. split; [f_equal; lia|split; lia]. }
  assert (Hi : file_paths !! i = Some file_path).
  { rewrite <- (Nat.add_0_r i), <- lookup_drop, Hdrop. done. }
  assert (Hdrop' : drop (S i) file_paths = files).
  { replace (S i) with (i + 1)%nat by lia. by rewrite <- drop_drop, Hdrop. }
  rewrite sequential_loop_cons. cbv zeta.
  set (st1 := (on_progress _ st).2).
  assert (Hc1 : connections_taken st1 = connections_taken st) by reflexivity.
  assert (Hb1 : bytes_processed (progress st1) = bytes_processed (progress st))
    by reflexivity.
  pose proof (import_single_file_result cfg file_path batch_size (world i) st1) as Hout.
  destruct (import_single_file_effect cfg file_path batch_size (world i) st1)
    as (Hc & Hb & _).
  pose proof (Hret i file_path Hi) as Hnoraise.
  destruct (_import_single_file cfg file_path batch_size (world i) st1)
    as [r st2]. cbn [fst snd] in *. subst r.
  cbn [length seq]. rewrite filter_cons, sumZ_cons.
  rewrite (bytes_counted_lookup i file_path Hi), (outcome_at_lookup i file_path Hi).
  unfold file_raises in Hnoraise. unfold file_outcome.
  destruct (file_result cfg file_path batch_size (world i)) as [[|]|e];
    [| |discriminate Hnoraise].
  - destruct (IH (S i) (c + 1) st2 Hdrop') as (IH1 & IH2 & IH3).
    rewrite IH1, IH2, IH3, Hc, Hb, Hc1, Hb1, decide_True by done.
    cbn [length]. split; [f_equal; lia|split; lia].
  - pose proof (connections_taken_emit (EvLog (LogFailedToImport file_path)) st2) as Hl.
    set (st3 := (log_message (LogFailedToImport file_path) st2).2) in *.
    assert (Hb3 : bytes_processed (progress st3) = bytes_processed (progress st2))
      by reflexivity.
    destruct (IH (S i) c st3 Hdrop') as (IH1 & IH2 & IH3).
    rewrite IH1, IH2, IH3, Hb3. unfold st3, log_message. rewrite Hl.
    rewrite Hc, Hb, Hc1, Hb1, decide_False by done.
    cbn [length]. split; [f_equal; lia|split; lia].
Qed.

(** The sequential loop when an exception leaves the import of a file: the
    loop raises it, and takes no connection for the files that follow the
    first such file. *)
Lemma sequential_loop_aborts (files : list string) (i k : nat) (c : Z)
    (st : state) (file_path : string) (e : exn) :
  drop i file_paths = files ->
  files !! k = Some file_path ->
  file_result cfg file_path batch_size (world (i + k)) = Raise e ->
  (forall j file_path', (j < k)%nat -> files !! j = Some file_path' ->
     file_raises cfg file_path' batch_size (world (i + j)) = false) ->
  let r := sequential_loop cfg batch_size world (length file_paths) i files c st in
  r.1 = Raise e /\
  connections_taken r.2 = (connections_taken st + S k)%nat.
Proof.
  intros Hdrop. revert i k c st Hdrop.
  induction files as [|file_path0 files IH]; intros i k c st Hdrop Hk Hres Hbefore;
    [done|]. cbv zeta.
  assert (Hdrop' : drop (S i) file_paths = files).
  { replace (S i) with (i + 1)%nat by lia. by rewrite <- drop_drop, Hdrop. }
  rewrite sequential_loop_cons. cbv zeta.
  set (st1 := (on_progress _ st).2).
  assert (Hc1 : connections_taken st1 = connections_taken st) by reflexivity.
  pose proof (import_single_file_result cfg file_path0 batch_size (world i) st1) as Hout.
  destruct (import_single_file_effect cfg file_path0 batch_size (world i) st1)
    as (Hc & _ & _).
  destruct (_import_single_file cfg file_path0 batch_size (world i) st1)
    as [r st2]. cbn [fst snd] in *. subst r.
  destruct k as [|k].
  - injection Hk as ->. rewrite Nat.add_0_r in Hres. rewrite Hres.
    cbn [fst snd]. split; [reflexivity|]. lia.
  - pose proof (Hbefore 0%nat file_path0 ltac:(lia) eq_refl) as Hfirst.
    rewrite Nat.add_0_r in Hfirst. unfold file_raises in Hfirst.
    assert (Hrest : forall j file_path', (j < k)%nat -> files !! j = Some file_path' ->
              file_raises cfg file_path' batch_size (world (S i + j)) = false).
    { intros j file_path' Hj Hlook.
      replace (S i + j)%nat with (i + S j)%nat by lia.
      apply (Hbefore (S j) file_path'); [lia|exact Hlook]. }
    replace (i + S k)%nat with (S i + k)%nat in Hres by lia.
    destruct (file_result cfg file_path0 batch_size (world i)) as [[|]|e0];
      [| |discriminate Hfirst].
    + destruct (IH (S i) k (c + 1) st2 Hdrop' Hk Hres Hrest) as [IH1 IH2].
      split; [exact IH1|]. rewrite IH2, Hc, Hc1. lia.
    + pose proof (connections_taken_emit (EvLog (LogFailedToImport file_path0)) st2)
        as Hl.
      destruct (IH (S i) k c (log_message (LogFailedToImport file_path0) st2).2
                  Hdrop' Hk Hres Hrest) as [IH1 IH2].
      split; [exact IH1|]. rewrite IH2. unfold log_message. rewrite Hl, Hc, Hc1. lia.
Qed.

Lemma parallel_loop_cons (i : nat) (schedule : list nat) (c : Z) (st : state) :
  parallel_loop cfg batch_size world file_paths (i :: schedule) c st
  = match file_paths !! i with
    | None => parallel_loop cfg batch_size world file_paths schedule c st
    | Some file_path =>
        let '(r, st1) := _import_single_file cfg file_path batch_size (world i) st in
        match r with
        | Ok ok =>
            parallel_loop cfg batch_size world file_paths schedule
                          (if ok then c + 1 else c) st1
        | Raise e =>
            parallel_loop cfg batch_size world file_paths schedule c
                          (log_message (LogErrorImporting file_path e) st1).2
        end
    end.
Proof.
  cbn [parallel_loop]. destruct (file_paths !! i); [|reflexivity].
  unfold bindM. by destruct (_import_single_file _ _ _ _ _) as [[ok|e] st1].
Qed.

(** The parallel loop, for the files the workers take in the order of
    [schedule]; a file whose import raises is not counted. *)
Lemma parallel_loop_spec (schedule : list nat) (c : Z) (st : state) :
  let r := parallel_loop cfg batch_size world file_paths schedule c st in
  r.1 = c + Z.of_nat (length (filter succeeds schedule)) /\
  connections_taken r.2
  = (connections_taken st
     + length (filter (fun i => is_Some (file_paths !! i)) schedule))%nat /\
  bytes_processed (progress r.2)
  = bytes_processed (progress st) + sumZ bytes_counted schedule.
Proof.
  revert c st. induction schedule as [|i schedule IH]; intros c st; cbv zeta.
  { simpl. repeat split; lia. }
  rewrite parallel_loop_cons, !filter_cons, sumZ_cons.
  destruct (file_paths !! i) as [file_path|] eqn:Hi.
  - rewrite (bytes_counted_lookup i file_path Hi), (outcome_at_lookup i file_path Hi).
    pose proof (import_single_file_result cfg file_path batch_size (world i) st) as Hout.
    destruct (import_single_file_effect cfg file_path batch_size (world i) st)
      as (Hc & Hb & _).
    destruct (_import_single_file cfg file_path batch_size (world i) st)
      as [r st1]. cbn [fst snd] in *. subst r.
    rewrite (decide_True (P := is_Some (Some file_path))) by done.
    unfold file_outcome.
    destruct (file_result cfg file_path batch_size (world i)) as [[|]|e].
    + destruct (IH (c + 1) st1) as (IH1 & IH2 & IH3).
      rewrite IH1, IH2, IH3, Hc, Hb, decide_True by done.
      cbn [length]. repeat split; lia.
    + destruct (IH c st1) as (IH1 & IH2 & IH3).
      rewrite IH1, IH2, IH3, Hc, Hb, decide_False by done.
      cbn [length]. repeat split; lia.
    + pose proof (connections_taken_emit (EvLog (LogErrorImporting file_path e)) st1)
        as Hl.
      set (st2 := (log_message (LogErrorImporting file_path e) st1).2) in *.
      assert (Hb2 : bytes_processed (progress st2) = bytes_processed (progress st1))
        by reflexivity.
      destruct (IH c st2) as (IH1 & IH2 & IH3).
      rewrite IH1, IH2, IH3, Hb2. unfold st2, log_message. rewrite Hl.
      rewrite Hc, Hb, decide_False by done.
      cbn [length]. repeat split; lia.
  - assert (Hat : outcome_at cfg file_paths batch_size world i = false).
    { unfold outcome_at. by rewrite Hi. }
    assert (Hbc : bytes_counted i = 0).
    { unfold bytes_counted. by rewrite Hi. }
    rewrite Hat, Hbc, decide_False by done.
    rewrite (decide_False (P := is_Some None)) by (by intros [? ?]).
    destruct (IH c st) as (IH1 & IH2 & IH3). rewrite IH1, IH2, IH3.
    repeat split; lia.
Qed.

End Job.

Lemma count_eqb {A} (P : A -> Prop) `{!forall x, Decision (P x)} (l : list A) :
  (0 + Z.of_nat (length (filter P l)) =? Z.of_nat (length l))
  = bool_decide (Forall P l).
Proof.
  destruct (decide (Forall P l)) as [Hall|Hall].
  - rewrite bool_decide_eq_true_2 by done.
    apply (filter_length_all P) in Hall. apply Z.eqb_eq. lia.
  - rewrite bool_decide_eq_false_2 by done.
    apply Z.eqb_neq. intros Heq. apply Hall, (filter_length_all P). lia.
Qed.

Lemma count_seq_eqb (P : nat -> Prop) `{!forall x, Decision (P x)} (m : nat) :
  (0 + Z.of_nat (length (filter P (seq 0 m))) =? Z.of_nat m)
  = bool_decide (Forall P (seq 0 m)).
Proof. pose proof (count_eqb P (seq 0 m)) as Hc. by rewrite length_seq in Hc. Qed.

Section JobResult.

Variable cfg : config.
Variable file_paths : list string.
Variable batch_size : Z.
Variable world : nat -> file_env.

Local Abbreviation succeeds :=
  (fun i => outcome_at cfg file_paths batch_size world i = true).
Local Abbreviation n := (length file_paths).

Lemma succeeds_all :
  Forall succeeds (seq 0 n) <->
  forall i file_path, file_paths !! i = Some file_path ->
                      file_outcome cfg file_path batch_size (world i) = true.
Proof.
  rewrite Forall_forall. split.
  - intros Hall i file_path Hi.
    rewrite <- (outcome_at_lookup cfg file_paths batch_size world i file_path Hi).
    apply Hall, elem_of_seq. apply lookup_lt_Some in Hi. lia.
  - intros Hall i Hi. apply elem_of_seq in Hi.
    destruct (lookup_lt_is_Some_2 file_paths i) as [file_path Hp]; [lia|].
    rewrite (outcome_at_lookup cfg file_paths batch_size world i file_path Hp).
    by apply Hall.
Qed.

(** [import_files] on a job that is not empty, step by step. *)
Lemma import_files_run (use_parallel : bool) (schedule : list nat) (st : state) :
  file_paths <> [] ->
  import_files cfg file_paths use_parallel batch_size world schedule st
  = let st1 := (log_message (LogStartingImport n) st).2 in
    if use_parallel && (1 <? Z.of_nat n)
    then
      let st2 := (log_message (LogUsingWorkers (max_workers cfg)) st1).2 in
      if max_workers cfg <=? 0
      then (Raise (ValueError "max_workers must be greater than 0"), st2)
      else
        let '(c, st3) := parallel_loop cfg batch_size world file_paths schedule 0 st2 in
        (Ok (c =? Z.of_nat n), st3)
    else
      let '(r, st2) := sequential_loop cfg batch_size world n 0 file_paths 0 st1 in
      match r with
      | Ok c => (Ok (c =? Z.of_nat n), st2)
      | Raise e => (Raise e, st2)
      end.
Proof.
  intros Hne. unfold import_files. destruct file_paths as [|p l] eqn:Hfiles; [done|].
  rewrite <- Hfiles. unfold bindM at 1. cbn [log_message emit snd].
  destruct (use_parallel && (1 <? Z.of_nat n)).
  - unfold _import_files_parallel, bindM. cbn [log_message emit snd].
    fold (max_workers cfg). destruct (max_workers cfg <=? 0); [reflexivity|].
    by destruct (parallel_loop _ _ _ _ _ _ _).
  - unfold _import_files_sequential, bindR.
    by destruct (sequential_loop _ _ _ _ _ _ _ _) as [[c|e] st2].
Qed.

(** What a job that runs to its end returns, the connections it takes and
    the bytes it counts. *)
Lemma import_files_spec (use_parallel : bool) (schedule : list nat) (st : state) :
  schedule ≡ₚ seq 0 n ->
  job_completes cfg file_paths use_parallel batch_size world ->
  let r := import_files cfg file_paths use_parallel batch_size world schedule st in
  r.1 = Ok (bool_decide (Forall succeeds (seq 0 n))) /\
  connections_taken r.2 = (connections_taken st + n)%nat /\
  bytes_processed (progress r.2)
  = bytes_processed (progress st)
    + sumZ (DatabaseImporter.bytes_counted file_paths world) (seq 0 n).
Proof.
  intros Hperm [Hruns Hret]. cbv zeta.
  destruct (decide (file_paths = [])) as [Hnil|Hne].
  { rewrite Hnil. simpl. repeat split; lia. }
  rewrite (import_files_run use_parallel schedule st Hne). cbv zeta.
  pose proof (connections_taken_emit (EvLog (LogStartingImport n)) st) as Hl.
  set (st1 := (log_message (LogStartingImport n) st).2) in *.
  assert (Hb1 : bytes_processed (progress st1) = bytes_processed (progress st))
    by reflexivity.
  destruct (use_parallel && (1 <? Z.of_nat n)) eqn:Hpar.
  - specialize (Hruns Hpar).
    pose proof (connections_taken_emit (EvLog (LogUsingWorkers (max_workers cfg))) st1)
      as Hl2.
    set (st2 := (log_message (LogUsingWorkers (max_workers cfg)) st1).2) in *.
    assert (Hb2 : bytes_processed (progress st2) = bytes_processed (progress st1))
      by reflexivity.
    destruct (max_workers cfg <=? 0) eqn:Hw; [apply Z.leb_le in Hw; lia|].
    destruct (parallel_loop_spec cfg file_paths batch_size world schedule 0 st2)
      as (H1 & H2 & H3).
    destruct (parallel_loop cfg batch_size world file_paths schedule 0 st2)
      as [c st3]. cbn [fst snd] in *. subst c.
    rewrite H2, H3, Hb2, Hb1. unfold st2, st1, log_message in *. rewrite Hl2, Hl.
    rewrite (sumZ_Permutation _ _ _ Hperm).
    assert (Hcount : length (filter succeeds schedule)
                     = length (filter succeeds (seq 0 n))) by by rewrite Hperm.
    assert (Hvalid : length (filter (fun i => is_Some (file_paths !! i)) schedule) = n).
    { rewrite Hperm. transitivity (length (seq 0 n)); [|apply length_seq].
      apply filter_length_all, Forall_forall. intros i Hi.
      apply elem_of_seq in Hi. apply lookup_lt_is_Some_2. lia. }
    rewrite Hcount, Hvalid, count_seq_eqb. repeat split; lia.
  - destruct (sequential_loop_spec cfg file_paths batch_size world file_paths 0 0 st1
                eq_refl (Hret eq_refl)) as (H1 & H2 & H3).
    destruct (sequential_loop cfg batch_size world n 0 file_paths 0 st1)
      as [r st2]. cbn [fst snd] in *. subst r. cbn [fst snd].
    rewrite H2, H3, Hb1. unfold st1, log_message in *. rewrite Hl.
    rewrite count_seq_eqb. repeat split; lia.
Qed.

(** A parallel job whose worker cap is not positive is refused by the
    executor before any file is touched. *)
Lemma import_files_refused (use_parallel : bool) (schedule : list nat) (st : state) :
  ~ job_runs cfg file_paths use_parallel ->
  let r := import_files cfg file_paths use_parallel batch_size world schedule st in
  r.1 = Raise (ValueError "max_workers must be greater than 0") /\
  connections_taken r.2 = connections_taken st /\
  progress r.2 = progress st /\
  conn r.2 = conn st.
Proof.
  intros Hnot. cbv zeta. unfold job_runs in Hnot.
  destruct (use_parallel && (1 <? Z.of_nat n)) eqn:Hpar;
    [|exfalso; apply Hnot; intros Hp; discriminate Hp].
  assert (Hcap : max_workers cfg <= 0).
  { destruct (Z.le_gt_cases (max_workers cfg) 0) as [Hle|Hgt]; [exact Hle|].
    exfalso. apply Hnot. intros _. lia. }
  assert (Hne : file_paths <> []).
  { intros Hnil. rewrite Hnil in Hpar. simpl in Hpar.
    by rewrite andb_false_r in Hpar. }
  rewrite (import_files_run use_parallel schedule st Hne), Hpar. cbv zeta.
  apply Z.leb_le in Hcap. rewrite Hcap. unfold log_message.
  split; [reflexivity|]. split; [|by split].
  cbn [snd]. rewrite !connections_taken_emit. lia.
Qed.

(** A sequential job in which an exception leaves the import of a file: the
    job raises it, and the files after the first such file are not
    attempted (no connection is taken for them). *)
Lemma import_files_aborted (use_parallel : bool) (schedule : list nat) (st : state)
    (k : nat) (file_path : string) (e : exn) :
  use_parallel && (1 <? Z.of_nat n) = false ->
  file_paths !! k = Some file_path ->
  file_result cfg file_path batch_size (world k) = Raise e ->
  (forall j file_path', (j < k)%nat -> file_paths !! j = Some file_path' ->
     file_raises cfg file_path' batch_size (world j) = false) ->
  let r := import_files cfg file_paths use_parallel batch_size world schedule st in
  r.1 = Raise e /\
  connections_taken r.2 = (connections_taken st + S k)%nat.
Proof.
  intros Hseq Hk Hres Hbefore. cbv zeta.
  assert (Hne : file_paths <> []) by (intros Hnil; by rewrite Hnil in Hk).
  rewrite (import_files_run use_parallel schedule st Hne), Hseq. cbv zeta.
  pose proof (connections_taken_emit (EvLog (LogStartingImport n)) st) as Hl.
  destruct (sequential_loop_aborts cfg file_paths batch_size world file_paths 0 k 0
              (log_message (LogStartingImport n) st).2 file_path e eq_refl Hk Hres
              Hbefore) as [H1 H2].
  destruct (sequential_loop cfg batch_size world n 0 file_paths 0 _) as [r st2].
  cbn [fst snd] in *. subst r. cbn [fst snd]. split; [reflexivity|].
  rewrite H2. unfold log_message. rewrite Hl. lia.
Qed.

End JobResult.

Lemma file_outcome_true (cfg : config) (file_path : string) (batch_size : Z)
    (w : file_env) :
  file_outcome cfg file_path batch_size w = true <->
  file_result cfg file_path batch_size w = Ok true.
Proof.
  unfold file_outcome.
  destruct (file_result cfg file_path batch_size w) as [b|e]; split;
    intros H; try discriminate H; [by rewrite H|by injection H].
Qed.

Lemma job_runs_dec (cfg : config) (file_paths : list string) (use_parallel : bool) :
  job_runs cfg file_paths use_parallel \/ ~ job_runs cfg file_paths use_parallel.
Proof.
  unfold job_runs.
  destruct (use_parallel && (1 <? Z.of_nat (length file_paths)));
    [|left; intros Hp; discriminate Hp].
  destruct (Z.le_gt_cases (max_workers cfg) 0) as [Hle|Hgt].
  - right. intros Hruns. specialize (Hruns eq_refl). lia.
  - left. intros _. lia.
Qed.

(** Either no exception leaves the import of a file of the job, or there is
    a first file whose import raises. *)
Lemma imports_return_or_first (cfg : config) (file_paths : list string)
    (batch_size : Z) (world : nat -> file_env) :
  imports_return cfg file_paths batch_size world \/
  exists k file_path e,
    file_paths !! k = Some file_path /\
    file_result cfg file_path batch_size (world k) = Raise e /\
    forall j file_path', (j < k)%nat -> file_paths !! j = Some file_path' ->
      file_raises cfg file_path' batch_size (world j) = false.
Proof.
  assert (Hm : forall m : nat,
    (forall i file_path, (i < m)%nat -> file_paths !! i = Some file_path ->
       file_raises cfg file_path batch_size (world i) = false) \/
    exists k file_path e,
      file_paths !! k = Some file_path /\
      file_result cfg file_path batch_size (world k) = Raise e /\
      forall j file_path', (j < k)%nat -> file_paths !! j = Some file_path' ->
        file_raises cfg file_path' batch_size (world j) = false).
  { induction m as [|m [IH|IH]]; [left; intros i file_path Hi; lia| |by right].
    destruct (file_paths !! m) as [file_path|] eqn:Hlook.
    - destruct (file_result cfg file_path batch_size (world m)) as [b|e] eqn:Hres.
      + left. intros i file_path' Hi Hi'.
        destruct (decide (i = m)) as [->|Hne]; [|apply IH; [lia|exact Hi']].
        rewrite Hlook in Hi'. injection Hi' as <-.
        by apply (file_result_outcome cfg file_path batch_size (world m) b).
      + right. by exists m, file_path, e.
    - left. intros i file_path' Hi Hi'.
      destruct (decide (i = m)) as [->|Hne]; [|apply IH; [lia|exact Hi']].
      rewrite Hlook in Hi'. discriminate Hi'. }
  destruct (Hm (length file_paths)) as [Hall|Hfirst]; [left|by right].
  intros i file_path Hi. apply Hall; [|exact Hi]. by apply lookup_lt_Some in Hi.
Qed.

(** [import_files] returns exactly when the job runs to its end. *)
Lemma import_files_returns_iff (cfg : config) (file_paths : list string)
    (use_parallel : bool) (batch_size : Z) (world : nat -> file_env)
    (schedule : list nat) (st : state) :
  schedule ≡ₚ seq 0 (length file_paths) ->
  (exists success : bool,
     (import_files cfg file_paths use_parallel batch_size world schedule st).1
     = Ok success) <->
  job_completes cfg file_paths use_parallel batch_size world.
Proof.
  intros Hperm. split.
  - intros [success Hok].
    destruct (job_runs_dec cfg file_paths use_parallel) as [Hruns|Hnot].
    + split; [exact Hruns|]. intros Hseq.
      destruct (imports_return_or_first cfg file_paths batch_size world)
        as [Hret|(k & file_path & e & Hk & Hres & Hbefore)]; [exact Hret|].
      destruct (import_files_aborted cfg file_paths batch_size world use_parallel
                  schedule st k file_path e Hseq Hk Hres Hbefore) as [Hr _].
      rewrite Hr in Hok. discriminate Hok.
    + destruct (import_files_refused cfg file_paths batch_size world use_parallel
                  schedule st Hnot) as [Hr _].
      rewrite Hr in Hok. discriminate Hok.
  - intros Hdone.
    destruct (import_files_spec cfg file_paths batch_size world use_parallel
                schedule st Hperm Hdone) as [Hr _].
    eexists. exact Hr.
Qed.

(** C4, as the code has it: whenever [import_files] returns, what it
    returns is a boolean, and that boolean is success exactly when the
    import of every file returned [True]; nothing else is returned.  And it
    does return a boolean exactly when the job runs to its end
    ([job_completes]): the executor accepts the worker cap of a parallel
    job, and no exception leaves the import of a file on the sequential
    path. *)
Theorem import_files_success_iff_all :
  forall (cfg : config) (file_paths : list string) (use_parallel : bool)
         (batch_size : Z) (world : nat -> file_env) (schedule : list nat)
         (st : state),
    schedule ≡ₚ seq 0 (length file_paths) ->
    let r := import_files cfg file_paths use_parallel batch_size world schedule st in
    (forall success : bool,
       r.1 = Ok success ->
       (success = true <->
        forall i file_path, file_paths !! i = Some file_path ->
                            file_result cfg file_path batch_size (world i) = Ok true)) /\
    ((exists success : bool, r.1 = Ok success) <->
     job_completes cfg file_paths use_parallel batch_size world).
Proof.
  intros cfg file_paths use_parallel batch_size world schedule st Hperm.
  cbv zeta. split.
  - intros success Hok.
    assert (Hdone : job_completes cfg file_paths use_parallel batch_size world).
    { apply (import_files_returns_iff cfg file_paths use_parallel batch_size world
               schedule st Hperm). by exists success. }
    destruct (import_files_spec cfg file_paths batch_size world use_parallel
                schedule st Hperm Hdone) as (Hr & _).
    rewrite Hr in Hok. injection Hok as <-.
    rewrite bool_decide_eq_true, succeeds_all.
    split; intros Hall i file_path Hi; apply file_outcome_true, Hall, Hi.
  - apply import_files_returns_iff, Hperm.
Qed.

Lemma import_files_success_iff_all_witness :
  let cfg := Config "events" 10 4 None in
  let world := fun i : nat =>
    match i with
    | O => FileEnv 100 5 [] None None None None
    | _ => FileEnv 80 4 [] (Some (BulkOpen, Error "No such file")) None None None
    end in
  let file_paths := ["a.csv"; "b.csv"]%string in
  let r := import_files cfg file_paths true 1000 world [1; 0]%nat initial in
  [1; 0]%nat ≡ₚ seq 0 (length file_paths) /\
  (forall success : bool,
     r.1 = Ok success ->
     (success = true <->
      forall i file_path, file_paths !! i = Some file_path ->
                          file_result cfg file_path 1000 (world i) = Ok true)) /\
  ((exists success : bool, r.1 = Ok success) <->
   job_completes cfg file_paths true 1000 world).
Proof.
  intros cfg world file_paths r.
  assert (Hperm : [1; 0]%nat ≡ₚ seq 0 (length file_paths)) by apply perm_swap.
  split; [exact Hperm|].
  exact (import_files_success_iff_all cfg file_paths true 1000 world [1; 0]%nat
           initial Hperm).
Defined.

(** C4, as the specification words it, fails: no per-file list is
    returned.  Two jobs in which different files fail return the same value,
    so the outcomes of the files cannot be read off what [import_files]
    returns. *)
Lemma import_files_returns_no_detail_counterexample :
  let cfg := Config "events" 10 4 None in
  let good := FileEnv 100 5 [] None None None None in
  let bad := FileEnv 100 5 [] (Some (BulkOpen, Error "No such file")) None None None in
  let job := fun world : nat -> file_env =>
    (import_files cfg ["a.csv"; "b.csv"]%string false 1000 world [] initial).1 in
  let outcomes := fun world : nat -> file_env =>
    [file_result cfg "a.csv" 1000 (world 0%nat);
     file_result cfg "b.csv" 1000 (world 1%nat)] in
  job (fun i => match i with O => good | _ => bad end) = Ok false /\
  job (fun i => match i with O => bad | _ => good end) = Ok false /\
  ~ exists recover : result bool -> list (result bool),
      forall world, recover (job world) = outcomes world.
Proof.
  intros cfg good bad job outcomes. split; [reflexivity|]. split; [reflexivity|].
  intros [recover Hrec].
  pose proof (Hrec (fun i => match i with O => good | _ => bad end)) as H1.
  pose proof (Hrec (fun i => match i with O => bad | _ => good end)) as H2.
  vm_compute in H1, H2. rewrite H1 in H2. discriminate H2.
Qed.

(** ** Rows and bytes *)

Lemma bulk_succeeds_outcome (cfg : config) (file_paths : list string)
    (batch_size : Z) (world : nat -> file_env) (i : nat) :
  bytes_counted file_paths world i
  = if decide (outcome_at cfg file_paths batch_size world i = true)
    then if decide (bulk_succeeds (world i) = false) then 0
         else file_size (world i)
    else 0.
Proof.
  unfold bytes_counted, outcome_at.
  destruct (file_paths !! i) as [file_path|]; [|by rewrite decide_False].
  destruct (import_single_file_effect cfg file_path batch_size (world i) initial)
    as (_ & _ & Hok).
  destruct (bulk_succeeds (world i)).
  - apply file_outcome_true in Hok; [|done].
    rewrite Hok, decide_True, decide_False by done. done.
  - rewrite (decide_True (P := false = false)) by done. by case_decide.
Qed.

(** C10, as the code has it: the fallback changes no counter of the
    tracker but the row counter; and a job that runs to its end counts the
    bytes of the files whose bulk copy went through only, that is, the total
    size of the files successfully imported less the sizes of those imported
    through the fallback.  The bytes reported are therefore fewer than that
    total as soon as one of the files imported through the fallback is not
    empty.  (A parallel job that the executor refuses imports nothing and
    counts nothing.) *)
Theorem fallback_counts_rows_not_bytes :
  forall (cfg : config) (file_paths : list string) (use_parallel : bool)
         (batch_size : Z) (world : nat -> file_env) (schedule : list nat)
         (st : state),
    schedule ≡ₚ seq 0 (length file_paths) ->
    let size := fun i => file_size (world i) in
    let succeeded :=
      filter (fun i => outcome_at cfg file_paths batch_size world i = true)
             (seq 0 (length file_paths)) in
    let through_fallback :=
      filter (fun i => bulk_succeeds (world i) = false) succeeded in
    let st' := (import_files cfg file_paths use_parallel batch_size world
                             schedule st).2 in
    (forall file_path w st0,
       only_rows (progress st0)
                 (progress (_import_with_batch_insert file_path batch_size w st0).2)) /\
    (job_completes cfg file_paths use_parallel batch_size world ->
     bytes_processed (progress st') - bytes_processed (progress st)
     = sumZ size succeeded - sumZ size through_fallback /\
     (0 < sumZ size through_fallback ->
      bytes_processed (progress st') - bytes_processed (progress st)
      < sumZ size succeeded)) /\
    (~ job_runs cfg file_paths use_parallel -> progress st' = progress st).
Proof.
  intros cfg file_paths use_parallel batch_size world schedule st Hperm
         size succeeded through_fallback st'.
  split; [intros file_path w st0;
          apply (quiet_import_with_batch_insert file_path batch_size w st0)|].
  split.
  - intros Hdone.
    destruct (import_files_spec cfg file_paths batch_size world use_parallel
                schedule st Hperm Hdone) as (_ & _ & Hb).
    fold st' in Hb.
    assert (Heq : sumZ (DatabaseImporter.bytes_counted file_paths world)
                       (seq 0 (length file_paths))
                  = sumZ size succeeded - sumZ size through_fallback).
    { unfold through_fallback, succeeded. rewrite !sumZ_filter.
      generalize (seq 0 (length file_paths)). intros l.
      induction l as [|i l IH]; [done|]. rewrite !sumZ_cons, IH.
      rewrite (bulk_succeeds_outcome cfg file_paths batch_size world i).
      unfold size. repeat case_decide; lia. }
    split; lia.
  - intros Hnot.
    by destruct (import_files_refused cfg file_paths batch_size world use_parallel
                   schedule st Hnot) as (_ & _ & Hp & _).
Qed.

Lemma fallback_counts_rows_not_bytes_witness :
  let cfg := Config "events" 10 4 None in
  let world := fun i : nat =>
    match i with
    | O => FileEnv 100 5 [] None None None None
    | _ => FileEnv 80 2 [[("id", "1")]; [("id", "2")]]%string
                   (Some (BulkCopy, Error "COPY events, line 2: bad row")) None
                   None None
    end in
  let file_paths := ["a.csv"; "b.csv"]%string in
  let size := fun i => file_size (world i) in
  let succeeded :=
    filter (fun i => outcome_at cfg file_paths 1000 world i = true)
           (seq 0 (length file_paths)) in
  let through_fallback :=
    filter (fun i => bulk_succeeds (world i) = false) succeeded in
  let st' := (import_files cfg file_paths false 1000 world (seq 0 2) initial).2 in
  seq 0 2 ≡ₚ seq 0 (length file_paths) /\
  (forall file_path w st0,
     only_rows (progress st0)
               (progress (_import_with_batch_insert file_path 1000 w st0).2)) /\
  (job_completes cfg file_paths false 1000 world ->
   bytes_processed (progress st') - bytes_processed (progress initial)
   = sumZ size succeeded - sumZ size through_fallback /\
   (0 < sumZ size through_fallback ->
    bytes_processed (progress st') - bytes_processed (progress initial)
    < sumZ size succeeded)) /\
  (~ job_runs cfg file_paths false -> progress st' = progress initial).
Proof.
  intros cfg world file_paths.
  assert (Hperm : seq 0 2 ≡ₚ seq 0 (length file_paths)) by reflexivity.
  split; [exact Hperm|].
  exact (fallback_counts_rows_not_bytes cfg file_paths false 1000 world (seq 0 2)
           initial Hperm).
Defined.

(** C10, as the specification words it, fails: an empty file whose bulk
    copy fails on the (empty) column list is imported through the fallback,
    which finds no row and commits; the job succeeds, and the bytes reported
    are not fewer than the total size of the files imported, both being 0. *)
Lemma fallback_empty_file_counterexample :
  let cfg := Config "events" 10 4 None in
  let w := FileEnv 0 0 []
             (Some (BulkCopy, Error "syntax error at or near ) LINE 2: COPY events ()"))
             None None None in
  let r := import_files cfg ["empty.csv"]%string false 1000 (fun _ => w) [] initial in
  r.1 = Ok true /\
  bulk_succeeds w = false /\
  file_outcome cfg "empty.csv" 1000 w = true /\
  ~ bytes_processed (progress r.2) - bytes_processed (progress initial) < file_size w.
Proof. vm_compute. repeat split; discriminate. Qed.

(** ** A bulk copy that fails *)

(** The handler of [_import_single_file], step by step: the rollback, which
    can raise, then the fallback when the text of the exception contains
    [COPY]. *)
Lemma except_block_run (file_path : string) (batch_size : Z) (w : file_env)
    (e : exn) (st : state) :
  except_block file_path batch_size w e st
  = let '(r, st_rolled_back) :=
      do_rollback (rollback_failure w)
                  (log_message (LogErrorImporting file_path e) st).2 in
    match r with
    | Raise e' => (Raise e', st_rolled_back)
    | Ok _ =>
        if contains "COPY" (str_of_exn e)
        then _import_with_batch_insert file_path batch_size w
               (log_message LogFallingBack st_rolled_back).2
        else (Ok false, st_rolled_back)
    end.
Proof.
  unfold except_block, bindM, bindR. cbn [log_message emit snd].
  destruct (do_rollback _ _) as [[[]|e'] s]; [|reflexivity].
  by destruct (contains _ _).
Qed.

(** [conn.rollback()], step by step. *)
Lemma do_rollback_run (failure : option exn) (st : state) :
  do_rollback failure st
  = match failure with
    | Some e => (Raise e, (emit EvRollback st).2)
    | None => (Ok tt, (on_conn rollback (emit EvRollback st).2).2)
    end.
Proof. unfold do_rollback, bindM, may_raise. by destruct failure. Qed.

(** When a sequence of calls raises, the state went through steps of the
    part that raised and of those before it. *)
Lemma bindR_raises (R : state -> state -> Prop) `{!PreOrder R} {A B}
    (m : M (result A)) (k : A -> M (result B)) (st st' : state) (e : exn) :
  steps R m ->
  (forall a s, k a s = (Raise e, st') -> R s st') ->
  bindR m k st = (Raise e, st') -> R st st'.
Proof.
  intros Hm Hk. unfold bindR. specialize (Hm st).
  destruct (m st) as [[a|e0] s1]; simpl in Hm.
  - intros Hr. etransitivity; [exact Hm|]. by eapply Hk.
  - intros [= _ <-]. exact Hm.
Qed.

Lemma bindR_returns {A B} (m : M (result A)) (k : A -> M (result B))
    (st st' : state) (b : B) :
  bindR m k st = (Ok b, st') ->
  exists a s, m st = (Ok a, s) /\ k a s = (Ok b, st').
Proof.
  unfold bindR. destruct (m st) as [[a|e0] s1]; [|done]. intros Hk. by exists a, s1.
Qed.

(** The fallback raises before anything is committed. *)
Lemma batch_insert_body_raises (file_path : string) (batch_size : Z)
    (w : file_env) (st st' : state) (e : exn) :
  batch_insert_body file_path batch_size w st = (Raise e, st') ->
  uncommitted st st'.
Proof.
  unfold batch_insert_body.
  apply bindR_raises; [typeclasses eauto|repeat steps_step|intros _ s1].
  apply bindR_raises; [typeclasses eauto|repeat steps_step|intros b s2].
  apply bindR_raises; [typeclasses eauto|repeat steps_step|intros b' s3].
  unfold bindR, do_commit, bindM, may_raise.
  destruct (raised_at _ _ _); [|discriminate].
  cbn [emit ret]. by intros [= _ <-].
Qed.

Lemma batch_insert_body_returns (file_path : string) (batch_size : Z)
    (w : file_env) (st st' : state) (b : bool) :
  batch_insert_body file_path batch_size w st = (Ok b, st') -> b = true.
Proof.
  unfold batch_insert_body. intros Hr.
  apply bindR_returns in Hr as (_ & s1 & _ & Hr).
  apply bindR_returns in Hr as (b1 & s2 & _ & Hr).
  apply bindR_returns in Hr as (b2 & s3 & _ & Hr).
  apply bindR_returns in Hr as (_ & s4 & _ & Hr).
  unfold bindM, ret in Hr. destruct (log_message _ s4). by injection Hr.
Qed.

(** The handler of the fallback, step by step. *)
Lemma import_with_batch_insert_run (file_path : string) (batch_size : Z)
    (w : file_env) (st : state) :
  _import_with_batch_insert file_path batch_size w st
  = let '(r, st1) := batch_insert_body file_path batch_size w st in
    match r with
    | Ok b => (Ok b, st1)
    | Raise e =>
        let '(r', st2) := do_rollback (fallback_rollback_failure w)
                            (log_message (LogBatchInsertFailed e) st1).2 in
        match r' with
        | Ok _ => (Ok false, st2)
        | Raise e' => (Raise e', st2)
        end
    end.
Proof.
  unfold _import_with_batch_insert, bindM.
  destruct (batch_insert_body _ _ _ _) as [[b|e] st1]; [reflexivity|].
  unfold bindR. cbn [log_message emit snd].
  by destruct (do_rollback _ _) as [[[]|e'] s].
Qed.

(** A fallback that returns [False] leaves nothing behind in the database,
    and one that raises has committed nothing. *)
Lemma import_with_batch_insert_false (file_path : string) (batch_size : Z)
    (w : file_env) (st : state) :
  let r := _import_with_batch_insert file_path batch_size w st in
  (r.1 = Ok false ->
   committed (conn r.2) = committed (conn st) /\
   pending (conn r.2) = committed (conn st)) /\
  (forall e, r.1 = Raise e ->
     fallback_rollback_failure w = Some e /\
     committed (conn r.2) = committed (conn st)).
Proof.
  cbv zeta. rewrite import_with_batch_insert_run.
  destruct (batch_insert_body file_path batch_size w st) as [[b|e] st1] eqn:Hbody.
  - apply batch_insert_body_returns in Hbody as ->. by split.
  - apply batch_insert_body_raises in Hbody. unfold uncommitted in Hbody.
    rewrite do_rollback_run.
    destruct (fallback_rollback_failure w) as [e'|]; cbn [fst snd].
    + split; [discriminate|]. intros e0 [= <-]. by split.
    + split; [|discriminate]. intros _.
      cbn [log_message emit on_conn snd conn rollback committed pending]. by split.
Qed.

(** When neither rollback of its handlers raises, the import of a file
    returns. *)
Lemma import_with_batch_insert_returns (file_path : string) (batch_size : Z)
    (w : file_env) (st : state) :
  fallback_rollback_failure w = None ->
  exists b, (_import_with_batch_insert file_path batch_size w st).1 = Ok b.
Proof.
  intros Hw. rewrite import_with_batch_insert_run.
  destruct (batch_insert_body file_path batch_size w st) as [[b|e] st1];
    [by exists b|].
  rewrite do_rollback_run, Hw. by exists false.
Qed.

Lemma file_result_returns (cfg : config) (file_path : string) (batch_size : Z)
    (w : file_env) :
  rollback_failure w = None ->
  fallback_rollback_failure w = None ->
  exists b, file_result cfg file_path batch_size w = Ok b.
Proof.
  intros Hrb Hfb. unfold file_result. rewrite import_single_file_run.
  destruct (bulk_copy_body cfg file_path w _) as [[b|e] st1]; [by exists b|].
  rewrite except_block_run, do_rollback_run, Hrb.
  destruct (contains "COPY" (str_of_exn e)); [|by exists false].
  destruct (import_with_batch_insert_returns file_path batch_size w
              (log_message LogFallingBack
                 (on_conn rollback
                    (emit EvRollback
                       (log_message (LogErrorImporting file_path e) st1).2).2).2).2
              Hfb) as [b Hb].
  destruct (_import_with_batch_insert _ _ _ _) as [r st2]. cbn [fst] in *.
  by exists b.
Qed.

(** A job in which no rollback raises lets no exception out of the import
    of a file. *)
Lemma rollbacks_succeed_imports_return (cfg : config) (file_paths : list string)
    (batch_size : Z) (world : nat -> file_env) :
  (forall i, rollback_failure (world i) = None /\
             fallback_rollback_failure (world i) = None) ->
  imports_return cfg file_paths batch_size world.
Proof.
  intros Hworld i file_path _. destruct (Hworld i) as [Hrb Hfb].
  destruct (file_result_returns cfg file_path batch_size (world i) Hrb Hfb) as [b Hb].
  by apply (file_result_outcome cfg file_path batch_size (world i) b).
Qed.

(** A bulk copy that fails, followed by a rollback that raises: the
    exception of the rollback leaves [_import_single_file]. *)
Lemma file_result_rollback_raises (cfg : config) (file_path : string)
    (batch_size : Z) (w : file_env) (stage : bulk_stage) (e e' : exn) :
  bulk_failure w = Some (stage, e) ->
  rollback_failure w = Some e' ->
  file_result cfg file_path batch_size w = Raise e'.
Proof.
  intros Hw Hrb. unfold file_result. rewrite import_single_file_run.
  destruct (bulk_copy_body_raises cfg file_path w stage e (emit EvGetConn initial).2 Hw)
    as (st1 & -> & _).
  by rewrite except_block_run, do_rollback_run, Hrb.
Qed.

(** C5 fails on the sequential path: the rollback of the handler is not
    guarded, and the loop over the files has no handler of its own.  When
    the bulk copy of a file fails and the rollback that follows raises (the
    connection is lost, say), that exception leaves [_import_single_file]
    and [import_files]: the job raises it, and the files that follow are not
    attempted (no connection is taken for them).  The failure of one file
    has stopped its siblings. *)
Theorem failed_rollback_aborts_siblings :
  forall (cfg : config) (file_paths : list string) (use_parallel : bool)
         (batch_size : Z) (world : nat -> file_env) (schedule : list nat)
         (st : state) (k : nat) (file_path : string) (stage : bulk_stage)
         (e e' : exn),
    use_parallel && (1 <? Z.of_nat (length file_paths)) = false ->
    file_paths !! k = Some file_path ->
    bulk_failure (world k) = Some (stage, e) ->
    rollback_failure (world k) = Some e' ->
    (forall j file_path', (j < k)%nat -> file_paths !! j = Some file_path' ->
       file_raises cfg file_path' batch_size (world j) = false) ->
    let r := import_files cfg file_paths use_parallel batch_size world schedule st in
    r.1 = Raise e' /\
    connections_taken r.2 = (connections_taken st + S k)%nat /\
    (S k < length file_paths ->
     connections_taken r.2 < connections_taken st + length file_paths)%nat.
Proof.
  intros cfg file_paths use_parallel batch_size world schedule st k file_path
         stage e e' Hseq Hk Hfail Hrb Hbefore. cbv zeta.
  pose proof (file_result_rollback_raises cfg file_path batch_size (world k) stage
                e e' Hfail Hrb) as Hres.
  destruct (import_files_aborted cfg file_paths batch_size world use_parallel
              schedule st k file_path e' Hseq Hk Hres Hbefore) as [Hr Hc].
  split; [exact Hr|]. split; [exact Hc|]. lia.
Qed.

(** A sequential job of three files: the copy of the first fails and the
    rollback raises; the job raises, the two other files are not
    attempted. *)
Lemma failed_rollback_aborts_siblings_witness :
  let cfg := Config "events" 10 4 None in
  let world := fun i : nat =>
    match i with
    | O => FileEnv 100 5 [] (Some (BulkCopy, Error "server closed the connection"))
                   None (Some (Error "connection already closed")) None
    | _ => FileEnv 80 4 [] None None None None
    end in
  let file_paths := ["a.csv"; "b.csv"; "c.csv"]%string in
  let r := import_files cfg file_paths false 1000 world [] initial in
  r.1 = Raise (Error "connection already closed") /\
  connections_taken r.2 = (connections_taken initial + 1)%nat /\
  (1 < length file_paths ->
   connections_taken r.2 < connections_taken initial + length file_paths)%nat.
Proof.
  intros cfg world file_paths r.
  apply (failed_rollback_aborts_siblings cfg file_paths false 1000 world []
           initial 0%nat "a.csv" BulkCopy (Error "server closed the connection")
           (Error "connection already closed"));
    [reflexivity|reflexivity|reflexivity|reflexivity|].
  intros j file_path' Hj. lia.
Defined.

(** The same failure in a parallel job is caught around [future.result()]:
    the job returns [False] and every file is attempted. *)
Example failed_rollback_parallel :
  let cfg := Config "events" 10 4 None in
  let world := fun i : nat =>
    match i with
    | O => FileEnv 100 5 [] (Some (BulkCopy, Error "server closed the connection"))
                   None (Some (Error "connection already closed")) None
    | _ => FileEnv 80 4 [] None None None None
    end in
  let file_paths := ["a.csv"; "b.csv"; "c.csv"]%string in
  let sequential := import_files cfg file_paths false 1000 world [] initial in
  let parallel := import_files cfg file_paths true 1000 world (seq 0 3) initial in
  sequential.1 = Raise (Error "connection already closed") /\
  table_rows (committed (conn sequential.2)) = 0 /\
  connections_taken sequential.2 = 1%nat /\
  parallel.1 = Ok false /\
  table_rows (committed (conn parallel.2)) = 8 /\
  connections_taken parallel.2 = 3%nat.
Proof. vm_compute. repeat split. Qed.

(** A job of three files in which no rollback raises: the first is copied,
    the second fails in the copy and is imported through the fallback in
    batches of two rows, the third cannot be opened and fails; all three are
    attempted. *)
Example import_three_files :
  let cfg := Config "events" 10 4 None in
  let world := fun i : nat =>
    match i with
    | 0%nat => FileEnv 100 5 [] None None None None
    | 1%nat => FileEnv 80 3 [[("id", "1")]; [("id", "2")]; [("id", "3")]]%string
                       (Some (BulkCopy, Error "COPY events, line 2: bad row")) None
                       None None
    | _ => FileEnv 60 0 [] (Some (BulkOpen, Error "No such file")) None None None
    end in
  let r := import_files cfg ["a.csv"; "b.csv"; "c.csv"]%string false 2 world
                        (seq 0 3) initial in
  r.1 = Ok false /\
  total_rows (progress r.2) = 8 /\
  bytes_processed (progress r.2) = 100 /\
  table_rows (committed (conn r.2)) = 8 /\
  List.filter (fun ev => match ev with
                         | EvCopy _ | EvInsertBatch _ | EvRollback => true
                         | _ => false
                         end) (trace r.2)
  = [EvCopy "a.csv"; EvCopy "b.csv"; EvRollback;
     EvInsertBatch [[("id", "1")]; [("id", "2")]]; EvInsertBatch [[("id", "3")]];
     EvRollback]%string.
Proof. vm_compute. repeat split. Qed.

End DatabaseImporterFacts.

(* ===================================================================== *)
(** ** Further properties of the code                                 *)
(* ===================================================================== *)

Module SplitFileFacts.
Import FileSplitter FileSplitterSpec FileSplitterFacts.

(** ** Sizes *)

Lemma utf8_width_pos (c : N) : 1 <= utf8_width c.
Proof. unfold utf8_width. repeat case_match; lia. Qed.

Lemma utf8_len_app (a b : text) : utf8_len (a ++ b) = utf8_len a + utf8_len b.
Proof. induction a as [|c a IH]; simpl; [done|]. rewrite IH. lia. Qed.

Lemma utf8_len_nonneg (s : text) : 0 <= utf8_len s.
Proof.
  induction s as [|c s IH]; simpl; [done|]. pose proof (utf8_width_pos c). lia.
Qed.

Lemma utf8_len_pos (s : text) : s <> [] -> 0 < utf8_len s.
Proof.
  destruct s as [|c s]; [done|]. intros _. simpl.
  pose proof (utf8_width_pos c). pose proof (utf8_len_nonneg s). lia.
Qed.

Lemma iter_lines_nil_inv (s : text) : iter_lines s = [] -> s = [].
Proof. intros H. rewrite <- (concat_iter_lines s), H. reflexivity. Qed.

(** ** The loop, one iteration at a time, with the groups it builds *)

Section Loop.

Variable output_dir : string.
Variable base_name : string.
Variable chunk_size_bytes : Z.
Variable header : text.

Local Abbreviation name_of := (chunk_filename output_dir base_name).
Local Abbreviation chunk_inv :=
  (FileSplitter.chunk_inv output_dir base_name header).
Local Abbreviation new_chunk := (needs_new_chunk chunk_size_bytes).
Local Abbreviation body := (loop_body output_dir base_name chunk_size_bytes header).
Local Abbreviation run := (run_loop output_dir base_name chunk_size_bytes header).

(** The size of a chunk file that holds the header and the lines [g]. *)
Local Abbreviation bytes_of := (fun g : list text => utf8_len (header ++ concat g)).
Local Abbreviation sized := (FileSplitterSpec.sized chunk_size_bytes header).

Lemma chunk_inv_open (st : loop_state) (groups : list (list text)) (f : string) :
  chunk_inv st groups -> current_chunk_file st = Some f ->
  exists names gs g, chunk_files st = names ++ [f] /\ groups = gs ++ [g] /\
                     Forall2 (fun name g => files st !! name = Some (header ++ concat g))
                             names gs /\
                     files st !! f = Some (header ++ concat g) /\
                     f ∉ names.
Proof.
  intros (Hnames & Hcur & Hfiles & Hne) Hf.
  rewrite Hf in Hcur. symmetry in Hcur. apply last_Some in Hcur as [names Hsplit].
  pose proof Hfiles as Hfiles'. rewrite Hsplit in Hfiles'.
  apply Forall2_app_inv_l in Hfiles' as (gs & gl & Hold & Hlast & ->).
  inversion Hlast as [|? g ? ? Hg Hnil]; subst. inversion Hnil; subst.
  exists names, gs, g. repeat split; try done.
  assert (Hnd : NoDup (names ++ [f])).
  { rewrite <- Hsplit, Hnames. apply names_NoDup. }
  apply NoDup_app in Hnd as (_ & Hdisj & _).
  intros Hin. apply (Hdisj f Hin). by left.
Qed.

Lemma chunk_inv_closed (st : loop_state) (groups : list (list text)) :
  chunk_inv st groups -> current_chunk_file st = None -> groups = [].
Proof.
  intros (_ & Hcur & Hfiles & _) Hf. rewrite Hf in Hcur.
  symmetry in Hcur. apply last_None in Hcur. rewrite Hcur in Hfiles.
  by inversion Hfiles.
Qed.

(** A new chunk is started and receives the line. *)
Lemma chunk_step_new (st : loop_state) (groups : list (list text)) (line : text) :
  chunk_inv st groups -> new_chunk st = true ->
  chunk_inv (body st line) (groups ++ [[line]]).
Proof.
  intros (Hnames & Hcur & Hfiles & Hne) Hnew.
  unfold loop_body. rewrite Hnew.
  unfold write_line, start_chunk, FileSplitter.chunk_inv.
  cbn [chunk_num chunk_files current_chunk_file files].
  set (name := name_of (S (chunk_num st))).
  assert (Hfresh : name ∉ chunk_files st).
  { rewrite Hnames. apply name_fresh. }
  repeat split.
  - rewrite Hnames, seq_S, map_app. reflexivity.
  - by rewrite last_snoc.
  - apply Forall2_app.
    + eapply Forall2_impl_elem; [exact Hfiles|].
      intros x g Hx Hlook. simpl.
      assert (name <> x) by (intros ->; done).
      unfold fs_write, fs_open_w.
      by rewrite !lookup_alter_ne, lookup_insert_ne.
    + constructor; [|constructor].
      unfold fs_write, fs_open_w.
      rewrite !lookup_alter_eq, lookup_insert_eq. simpl.
      by rewrite app_nil_r.
  - apply Forall_app. split; [done|]. by repeat constructor.
Qed.

(** The line goes to the chunk that is open. *)
Lemma chunk_step_same (st : loop_state) (gs : list (list text)) (g : list text)
    (line : text) :
  chunk_inv st (gs ++ [g]) -> new_chunk st = false ->
  chunk_inv (body st line) (gs ++ [g ++ [line]]).
Proof.
  intros Hinv Hnew. unfold loop_body. rewrite Hnew.
  unfold needs_new_chunk in Hnew.
  destruct (current_chunk_file st) as [f|] eqn:Hf; [|done].
  destruct (chunk_inv_open st _ f Hinv Hf)
    as (names & gs' & g' & Hsplit & Heq & Hold & Hg & Hfresh).
  apply app_inj_tail in Heq as [<- <-].
  destruct Hinv as (Hnames & Hcur & Hfiles & Hne).
  unfold write_line, FileSplitter.chunk_inv. rewrite Hf.
  cbn [chunk_num chunk_files current_chunk_file files]. repeat split.
  - done.
  - rewrite Hsplit. by rewrite last_snoc.
  - rewrite Hsplit. apply Forall2_app.
    + eapply Forall2_impl_elem; [exact Hold|].
      intros x g' Hx Hlook. simpl.
      assert (f <> x) by (intros ->; done).
      unfold fs_write. by rewrite lookup_alter_ne.
    + constructor; [|constructor].
      unfold fs_write. rewrite lookup_alter_eq, Hg. simpl.
      rewrite concat_app. simpl. by rewrite app_nil_r, app_assoc.
  - apply Forall_app in Hne as [Hne0 _].
    apply Forall_app. split; [done|]. constructor; [|constructor].
    by destruct g.
Qed.

Lemma sized_step (st : loop_state) (groups : list (list text)) (line : text) :
  chunk_inv st groups -> sized st groups ->
  exists groups', chunk_inv (body st line) groups' /\ sized (body st line) groups' /\
                  concat groups' = concat groups ++ [line].
Proof.
  intros Hinv (Hsize & Hfull & Hlate).
  destruct (new_chunk st) eqn:Hnew.
  - exists (groups ++ [[line]]). split; [by apply chunk_step_new|].
    split; [|by rewrite concat_app].
    unfold FileSplitterSpec.sized, loop_body. rewrite Hnew. unfold write_line, start_chunk.
    cbn [current_chunk_file current_chunk_size]. rewrite last_snoc. cbn [from_option].
    split; [|split].
    + simpl. rewrite app_nil_r, utf8_len_app. reflexivity.
    + intros gs g rest Heq Hrest.
      destruct (decide (rest = [[line]])) as [->|Hne].
      * change (gs ++ [g; [line]]) with (gs ++ [g] ++ [[line]]) in Heq.
        rewrite app_assoc in Heq. apply app_inj_tail in Heq as [-> _].
        unfold needs_new_chunk in Hnew.
        destruct (current_chunk_file st) as [f|] eqn:Hf.
        -- apply Z.leb_le in Hnew. rewrite Hsize, last_snoc in Hnew. exact Hnew.
        -- apply (chunk_inv_closed _ _ Hinv) in Hf. by destruct gs.
      * destruct (exists_last Hrest) as (rest' & x & ->).
        rewrite app_comm_cons, app_assoc in Heq.
        apply app_inj_tail in Heq as [-> <-].
        apply (Hfull gs g rest'); [done|]. intros ->. done.
    + apply Forall_app. split; [exact Hlate|]. constructor; [|constructor].
      intros g0 l Heq Hg0. apply (f_equal length) in Heq.
      rewrite length_app in Heq. simpl in Heq. destruct g0; [done|]. simpl in Heq. lia.
  - pose proof Hnew as Hnew'. unfold needs_new_chunk in Hnew'.
    destruct (current_chunk_file st) as [f|] eqn:Hf; [|done].
    destruct (chunk_inv_open st _ f Hinv Hf) as (names & gs & g & _ & -> & _).
    exists (gs ++ [g ++ [line]]). split; [by apply chunk_step_same|].
    split; [|by rewrite !concat_app; simpl; rewrite !app_nil_r, app_assoc].
    rewrite last_snoc in Hsize. cbn [from_option] in Hsize.
    apply Z.leb_gt in Hnew'.
    unfold FileSplitterSpec.sized, loop_body. rewrite Hnew. unfold write_line. rewrite Hf.
    cbn [current_chunk_file current_chunk_size]. rewrite last_snoc. cbn [from_option].
    split; [|split].
    + rewrite Hsize, concat_app, !utf8_len_app. simpl.
      rewrite app_nil_r. lia.
    + intros gs1 g1 rest Heq Hrest.
      destruct (exists_last Hrest) as (rest' & x & ->).
      rewrite app_comm_cons, app_assoc in Heq.
      apply app_inj_tail in Heq as [-> _].
      apply (Hfull gs1 g1 (rest' ++ [g])); [by rewrite app_comm_cons, app_assoc|].
      by destruct rest'.
    + apply Forall_app in Hlate as [Hlate0 _].
      apply Forall_app. split; [exact Hlate0|]. constructor; [|constructor].
      intros g0 l Heq _. apply app_inj_tail in Heq as [<- _]. lia.
Qed.

Lemma sized_run (lines : list text) (st : loop_state) (groups : list (list text)) :
  chunk_inv st groups -> sized st groups ->
  exists groups', chunk_inv (run lines st) groups' /\ sized (run lines st) groups' /\
                  concat groups' = concat groups ++ lines.
Proof.
  revert st groups. induction lines as [|line lines IH]; intros st groups Hinv Hs.
  - exists groups. by rewrite app_nil_r.
  - destruct (sized_step st groups line Hinv Hs) as (g1 & Hinv1 & Hs1 & Hcat1).
    destruct (IH _ _ Hinv1 Hs1) as (g2 & Hinv2 & Hs2 & Hcat2).
    exists g2. split; [exact Hinv2|]. split; [exact Hs2|].
    rewrite Hcat2, Hcat1, <- app_assoc. reflexivity.
Qed.

(** ** What the loop leaves alone *)

Lemma chunk_files_body (st : loop_state) (line : text) :
  chunk_files st `prefix_of` chunk_files (body st line).
Proof.
  unfold loop_body, write_line, start_chunk.
  destruct (new_chunk st); cbn [current_chunk_file chunk_files].
  - by apply prefix_app_r.
  - by destruct (current_chunk_file st).
Qed.

Lemma chunk_files_run (lines : list text) (st : loop_state) :
  chunk_files st `prefix_of` chunk_files (run lines st).
Proof.
  revert st. induction lines as [|line lines IH]; intros st; [done|].
  etransitivity; [apply chunk_files_body|apply IH].
Qed.

Lemma body_frame (st : loop_state) (groups : list (list text)) (line : text)
    (p : string) :
  chunk_inv st groups -> p ∉ chunk_files (body st line) ->
  files (body st line) !! p = files st !! p.
Proof.
  intros Hinv. unfold loop_body.
  destruct (new_chunk st) eqn:Hnew.
  - unfold write_line, start_chunk. cbn [current_chunk_file chunk_files files].
    intros Hp. apply not_elem_of_app in Hp as [_ Hp].
    apply not_elem_of_cons in Hp as [Hp _].
    unfold fs_write, fs_open_w. by rewrite !lookup_alter_ne, lookup_insert_ne.
  - unfold needs_new_chunk in Hnew.
    destruct (current_chunk_file st) as [f|] eqn:Hf; [|done].
    destruct (chunk_inv_open st _ f Hinv Hf) as (names & gs & g & Hsplit & _).
    unfold write_line. rewrite Hf. cbn [chunk_files files]. rewrite Hsplit.
    intros Hp. apply not_elem_of_app in Hp as [_ Hp].
    apply not_elem_of_cons in Hp as [Hp _].
    unfold fs_write. by rewrite lookup_alter_ne.
Qed.

Lemma run_frame (lines : list text) (st : loop_state) (groups : list (list text))
    (p : string) :
  chunk_inv st groups -> p ∉ chunk_files (run lines st) ->
  files (run lines st) !! p = files st !! p.
Proof.
  revert st groups. induction lines as [|line lines IH]; intros st groups Hinv Hp;
    [done|].
  destruct (chunk_inv_step output_dir base_name chunk_size_bytes header st groups line
              Hinv) as (g1 & Hinv1 & _).
  cbn [run_loop fold_left] in *. fold (run lines (body st line)) in *.
  rewrite (IH _ _ Hinv1 Hp). apply (body_frame st groups); [done|].
  intros Hin. apply Hp.
  destruct (chunk_files_run lines (body st line)) as [k ->].
  apply elem_of_app. by left.
Qed.

(** ** Two runs over the same lines *)

Lemma agree_body (st st' : loop_state) (line : text) :
  agree st st' -> agree (body st line) (body st' line).
Proof.
  intros (Hn & Hs & Hf & Hl & Hc). unfold loop_body, needs_new_chunk.
  rewrite <- Hf, <- Hs.
  destruct (match current_chunk_file st with
            | Some _ => chunk_size_bytes <=? current_chunk_size st
            | None => true
            end).
  - unfold write_line, start_chunk.
    cbn [chunk_num current_chunk_size current_chunk_file chunk_files files].
    rewrite <- Hn, <- Hl. repeat split. intros p Hp.
    cbn [files chunk_files] in Hp |- *. unfold fs_write, fs_open_w.
    destruct (decide (name_of (S (chunk_num st)) = p)) as [->|Hne].
    + by rewrite !lookup_alter_eq, !lookup_insert_eq.
    + rewrite !lookup_alter_ne, !lookup_insert_ne by done.
      apply Hc. apply elem_of_app in Hp. destruct Hp as [Hp|Hp]; [exact Hp|].
      apply list_elem_of_singleton in Hp. congruence.
  - unfold write_line. rewrite <- Hf.
    destruct (current_chunk_file st) as [f|] eqn:Hcur;
      [|repeat split; try assumption; congruence].
    unfold agree.
    cbn [chunk_num current_chunk_size current_chunk_file chunk_files files].
    split; [exact Hn|]. split; [lia|]. split; [done|]. split; [exact Hl|].
    intros p Hp. unfold fs_write.
    destruct (decide (f = p)) as [->|Hne].
    + by rewrite !lookup_alter_eq, (Hc p Hp).
    + rewrite !lookup_alter_ne by done. by apply Hc.
Qed.

Lemma agree_run (lines : list text) (st st' : loop_state) :
  agree st st' -> agree (run lines st) (run lines st').
Proof.
  revert st st'. induction lines as [|line lines IH]; intros st st' H; [done|].
  apply IH. by apply agree_body.
Qed.

End Loop.

(** ** Paths: no chunk has the path of the source *)

Local Open Scope string_scope.

Lemma split_slash_nonempty (p : string) : split_slash p <> [].
Proof.
  destruct p as [|c r]; simpl; [done|].
  destruct (Ascii.eqb c "/"); [done|]. by destruct (split_slash r).
Qed.

Lemma split_slash_parts (p : string) :
  Forall (fun x => no_slash x = true) (split_slash p).
Proof.
  induction p as [|c r IH]; simpl; [by repeat constructor|].
  destruct (Ascii.eqb c "/") eqn:Hc; [by constructor|].
  destruct (split_slash r) as [|h t]; [constructor; [|done]; simpl; by rewrite Hc|].
  inversion IH; subst. constructor; [|done]. simpl. by rewrite Hc.
Qed.

Lemma split_slash_no_slash (b : string) : no_slash b = true -> split_slash b = [b].
Proof.
  induction b as [|c r IH]; simpl; [done|].
  intros H. apply andb_true_iff in H as [Hc Hr]. apply negb_true_iff in Hc.
  rewrite Hc, IH by done. reflexivity.
Qed.

Lemma split_slash_app (a b : string) :
  split_slash (a ++ String "/" b) = (split_slash a ++ split_slash b)%list.
Proof.
  induction a as [|c a IH]; [reflexivity|].
  rewrite string_cons_app. simpl. destruct (Ascii.eqb c "/"); rewrite IH; [done|].
  pose proof (split_slash_nonempty a). by destruct (split_slash a).
Qed.

Lemma last_Forall {A} (P : A -> Prop) (l : list A) (d : A) :
  Forall P l -> P d -> P (List.last l d).
Proof.
  induction 1 as [|x l Hx Hl IH]; intros Hd; [done|]. simpl.
  destruct l; [done|]. by apply IH.
Qed.

Lemma path_name_no_slash (p : string) : no_slash (path_name p) = true.
Proof.
  unfold path_name. apply (last_Forall (fun x => no_slash x = true)); [|done].
  pose proof (split_slash_parts p) as H. induction H as [|x l Hx Hl IH]; simpl; [done|].
  destruct (is_path_part x); [by constructor|done].
Qed.

Lemma substring_no_slash (n m : nat) (s : string) :
  no_slash s = true -> no_slash (String.substring n m s) = true.
Proof.
  revert n m. induction s as [|c r IH]; intros n m H.
  - by destruct n, m.
  - simpl in H. apply andb_true_iff in H as [Hc Hr].
    destruct n as [|n]; simpl.
    + destruct m as [|m]; [done|]. simpl. rewrite Hc. by apply IH.
    + by apply IH.
Qed.

Lemma substring_length (n : nat) (s : string) :
  (n <= String.length s)%nat -> String.length (String.substring 0 n s) = n.
Proof.
  revert n. induction s as [|c r IH]; intros [|n] H; simpl in *; try done; try lia.
  by rewrite IH by lia.
Qed.

Lemma path_stem_no_slash (p : string) : no_slash (path_stem p) = true.
Proof.
  unfold path_stem. destruct (_ && _).
  - apply substring_no_slash, path_name_no_slash.
  - apply path_name_no_slash.
Qed.

Lemma no_slash_app (a b : string) :
  no_slash (a ++ b) = no_slash a && no_slash b.
Proof.
  induction a as [|c a IH]; [done|]. rewrite string_cons_app. simpl.
  by rewrite IH, andb_assoc.
Qed.

Lemma ends_with_slash_split (a : string) :
  ends_with_slash a = true -> exists a', a = a' ++ "/".
Proof.
  induction a as [|c a IH]; [done|]. simpl. destruct a as [|c' a'].
  - intros H. apply Ascii.eqb_eq in H as ->. by exists "".
  - intros H. destruct (IH H) as [a0 ->]. by exists (String c a0).
Qed.

(** The last component of a path made by [os.path.join] with a plain file
    name is that name. *)
Lemma path_name_join (a b : string) :
  no_slash b = true -> is_path_part b = true -> path_name (os_path_join a b) = b.
Proof.
  intros Hb Hpart. unfold os_path_join.
  assert (Hstart : starts_with_slash b = false).
  { destruct b as [|c r]; [done|]. simpl in *.
    apply andb_true_iff in Hb as [Hc _]. by apply negb_true_iff in Hc. }
  rewrite Hstart.
  assert (Hlast : forall a', path_name (a' ++ String "/" b) = b).
  { intros a'. unfold path_name.
    rewrite split_slash_app, (split_slash_no_slash b Hb), List.filter_app.
    simpl. rewrite Hpart. apply last_last. }
  destruct (String.eqb a "") eqn:Ha.
  - apply String.eqb_eq in Ha as ->. cbn [orb]. change ("" ++ b) with b.
    unfold path_name. rewrite (split_slash_no_slash b Hb). simpl. by rewrite Hpart.
  - cbn [orb]. destruct (ends_with_slash a) eqn:He.
    + apply ends_with_slash_split in He as [a' ->].
      rewrite string_app_assoc. apply Hlast.
    + apply Hlast.
Qed.

Lemma rfind_dot_from_app (a b : string) (i found : Z) :
  rfind_dot_from i (a ++ b) found
  = rfind_dot_from (i + str_len a) b (rfind_dot_from i a found).
Proof.
  revert i found. induction a as [|c a IH]; intros i found.
  - simpl. f_equal. unfold str_len. simpl. lia.
  - rewrite string_cons_app. simpl. rewrite IH. f_equal.
    unfold str_len. simpl. lia.
Qed.

Lemma rfind_dot_csv (x : string) : rfind_dot (x ++ ".csv") = str_len x.
Proof. unfold rfind_dot. rewrite rfind_dot_from_app. reflexivity. Qed.

Lemma no_slash_fmt04d (n : nat) : no_slash (fmt04d n) = true.
Proof.
  unfold fmt04d. rewrite no_slash_app. apply andb_true_iff. split.
  - generalize (4 - String.length (decimal n))%nat. intros k.
    induction k as [|k IH]; [done|]. simpl. exact IH.
  - unfold decimal. generalize (Nat.to_uint n). intros u.
    assert (H : no_slash (NilEmpty.string_of_uint u) = true)
      by (induction u; simpl; done).
    by destruct u.
Qed.

Lemma chunk_filename_not_source (dir file_path : string) (n : nat) :
  chunk_filename dir (path_stem file_path) n <> file_path.
Proof.
  intros Heq. apply (f_equal path_name) in Heq.
  unfold chunk_filename in Heq. rewrite path_name_join in Heq.
  2:{ rewrite !no_slash_app, path_stem_no_slash, no_slash_fmt04d. reflexivity. }
  2:{ unfold is_path_part.
      apply andb_true_iff; split; apply negb_true_iff, String.eqb_neq; intros H;
        apply (f_equal String.length) in H; rewrite !string_app_length in H;
        simpl in H; lia. }
  set (stem := path_stem file_path) in *.
  set (tail := "_chunk_" ++ fmt04d n) in *.
  assert (Hname : path_name file_path = (stem ++ tail) ++ ".csv").
  { rewrite <- Heq. unfold tail. by rewrite !string_app_assoc. }
  assert (Htail : (7 <= String.length tail)%nat).
  { unfold tail. rewrite string_app_length. simpl. lia. }
  assert (Hstem : stem = path_stem file_path) by reflexivity.
  unfold path_stem in Hstem. rewrite Hname, rfind_dot_csv in Hstem.
  unfold str_len in Hstem. rewrite Nat2Z.id in Hstem.
  apply (f_equal String.length) in Hstem.
  destruct (_ && _) in Hstem.
  - rewrite substring_length in Hstem;
      rewrite !string_app_length in *; simpl in *; lia.
  - rewrite !string_app_length in Hstem. simpl in Hstem. lia.
Qed.

Local Close Scope string_scope.

(** ** What [split_file] returns and writes, with the sizes *)

Lemma split_file_groups temp_directory file_path chunk_size_mb output_dir stored fs :
  let dir := match output_dir with None => temp_directory | Some d => d end in
  let infile := universal_newlines stored in
  let header := (readline infile).1 in
  let limit := chunk_size_mb * 1024 * 1024 in
  let result := split_file temp_directory file_path chunk_size_mb output_dir
                           stored fs in
  exists groups,
    result.1 = map (chunk_filename dir (path_stem file_path)) (seq 1 (length groups)) /\
    Forall2 (fun name g => result.2 !! name = Some (header ++ concat g)) result.1 groups /\
    Forall (fun g => g <> []) groups /\
    concat groups = iter_lines (readline infile).2 /\
    (forall gs g rest, groups = gs ++ g :: rest -> rest <> [] ->
                       limit <= utf8_len (header ++ concat g)) /\
    Forall (fun g => forall g0 l, g = g0 ++ [l] -> g0 <> [] ->
                                  utf8_len (header ++ concat g0) < limit) groups.
Proof.
  intros dir infile header limit result. unfold result, header, split_file.
  fold dir. fold infile. fold limit.
  destruct (readline infile) as [h rest]; simpl.
  destruct (sized_run dir (path_stem file_path) limit h (iter_lines rest)
              (initial_state fs) [])
    as (groups & (Hn & _ & Hf & Hne) & (_ & Hfull & Hlate) & Hcat).
  { apply chunk_inv_initial. }
  { split; [done|]. split; [by intros [] ? ?|constructor]. }
  exists groups. split; [|by repeat split].
  rewrite Hn. f_equal. f_equal.
  apply Forall2_length in Hf. rewrite Hn, length_map, length_seq in Hf. exact Hf.
Qed.

End SplitFileFacts.

Module SplitFileProperties.
Import FileSplitter FileSplitterSpec FileSplitterFacts SplitFileFacts.

(** X1: a source without data lines (empty, or a header only) gives no
    chunk at all, and nothing is written; and only such a source gives an
    empty list. *)
Theorem split_file_no_data_lines :
  forall (temp_directory file_path : string) (chunk_size_mb : Z)
         (output_dir : option string) (stored : text) (fs : gmap string text),
    let source_body := (readline (universal_newlines stored)).2 in
    let result := split_file temp_directory file_path chunk_size_mb output_dir
                             stored fs in
    (result.1 = [] <-> source_body = []) /\
    (source_body = [] -> result.2 = fs).
Proof.
  intros temp_directory file_path chunk_size_mb output_dir stored fs source_body result.
  assert (Hempty : source_body = [] -> result = ([], fs)).
  { unfold result, source_body, split_file.
    destruct (readline (universal_newlines stored)) as [h rest]; simpl.
    by intros ->. }
  split; [split|].
  - intros Hnil.
    destruct (split_file_groups temp_directory file_path chunk_size_mb output_dir
                stored fs) as (groups & Hn & _ & _ & Hcat & _).
    cbv zeta in Hn, Hcat. fold result in Hn. rewrite Hnil in Hn.
    symmetry in Hn. apply map_eq_nil in Hn.
    apply (f_equal length) in Hn. rewrite length_seq in Hn. simpl in Hn.
    apply nil_length_inv in Hn. subst groups.
    apply iter_lines_nil_inv. unfold source_body. by rewrite <- Hcat.
  - intros H. by rewrite (Hempty H).
  - intros H. by rewrite (Hempty H).
Qed.


Lemma single_groups (P : string -> list text -> Prop) (Q : string -> text -> Prop)
    (names : list string) (groups : list (list text)) :
  (forall name l, P name [l] -> Q name l) ->
  Forall2 P names groups -> Forall (fun g => exists l, g = [l]) groups ->
  Forall2 Q names (concat groups).
Proof.
  intros HPQ H. induction H as [|name g names groups Hg _ IH]; intros Hs; [constructor|].
  apply Forall_cons in Hs as [[l ->] Hs]. simpl. constructor; [by apply HPQ|by apply IH].
Qed.

(** X3: with a chunk size of zero or less every data line gets a chunk of
    its own, the header in front of it. *)
Theorem split_file_one_line_per_chunk :
  forall (temp_directory file_path : string) (chunk_size_mb : Z)
         (output_dir : option string) (stored : text) (fs : gmap string text),
    chunk_size_mb <= 0 ->
    let infile := universal_newlines stored in
    let header := (readline infile).1 in
    let result := split_file temp_directory file_path chunk_size_mb output_dir
                             stored fs in
    read_files result.1 result.2
    = Some (map (fun line => header ++ line) (iter_lines (readline infile).2)).
Proof.
  intros temp_directory file_path chunk_size_mb output_dir stored fs Hsize
         infile header result.
  destruct (split_file_groups temp_directory file_path chunk_size_mb output_dir
              stored fs) as (groups & _ & Hf & Hne & Hcat & _ & Hlate).
  cbv zeta in Hf, Hcat, Hlate. fold infile in Hf, Hcat, Hlate.
  fold header in Hf, Hlate. fold result in Hf.
  assert (Hsingle : Forall (fun g => exists l, g = [l]) groups).
  { rewrite Forall_forall in Hne, Hlate. apply Forall_forall. intros g Hg.
    destruct (exists_last (Hne g Hg)) as (g0 & l & ->).
    destruct g0 as [|l0 g0]; [by exists l|]. exfalso.
    pose proof (Hlate _ Hg (l0 :: g0) l eq_refl) as Hlt.
    pose proof (utf8_len_nonneg (header ++ concat (l0 :: g0))).
    specialize (Hlt ltac:(done)). lia. }
  unfold read_files. apply mapM_Some. apply Forall2_fmap_r. rewrite <- Hcat.
  eapply single_groups; [|exact Hf|exact Hsingle].
  intros name l Hl. simpl in Hl. by rewrite app_nil_r in Hl.
Qed.

Lemma split_file_one_line_per_chunk_witness :
  let stored := (text_of_string "id" ++ [LF; 49; LF; 50; LF])%N in
  0 <= 0 /\
  read_files (split_file "tmp" "data.csv" 0 None stored ∅).1
             (split_file "tmp" "data.csv" 0 None stored ∅).2
  = Some (map (fun line => (readline (universal_newlines stored)).1 ++ line)
              (iter_lines (readline (universal_newlines stored)).2)).
Proof.
  split; [lia|].
  apply (split_file_one_line_per_chunk "tmp" "data.csv" 0 None); lia.
Defined.

(** A source within the chunk size: the list returned and the file
    written. *)
Lemma split_file_single (temp_directory file_path : string) (chunk_size_mb : Z)
    (output_dir : option string) (stored : text) (fs : gmap string text) :
  let infile := universal_newlines stored in
  let dir := match output_dir with None => temp_directory | Some d => d end in
  let result := split_file temp_directory file_path chunk_size_mb output_dir
                           stored fs in
  utf8_len infile <= chunk_size_mb * 1024 * 1024 ->
  (readline infile).2 <> [] ->
  result.1 = [chunk_filename dir (path_stem file_path) 1] /\
  result.2 !! chunk_filename dir (path_stem file_path) 1 = Some infile.
Proof.
  intros infile dir result Hfits Hbody.
  destruct (split_file_groups temp_directory file_path chunk_size_mb output_dir
              stored fs) as (groups & Hn & Hf & Hne & Hcat & Hfull & _).
  cbv zeta in Hn, Hf, Hcat, Hfull. fold infile in Hn, Hf, Hcat, Hfull.
  fold dir in Hn. fold result in Hn, Hf.
  assert (Hin : infile = (readline infile).1 ++ concat (concat groups)).
  { rewrite Hcat, concat_iter_lines. symmetry. apply readline_app. }
  destruct groups as [|g [|g' rest]].
  - exfalso. apply Hbody. apply iter_lines_nil_inv. by rewrite <- Hcat.
  - split; [exact Hn|]. rewrite Hn in Hf.
    simpl in Hf. inversion Hf as [|? ? ? ? Hlook _]; subst.
    rewrite Hlook. simpl in Hin. rewrite app_nil_r in Hin. by rewrite <- Hin.
  - exfalso.
    pose proof (Hfull [] g (g' :: rest) eq_refl ltac:(done)) as Hlimit.
    assert (Hpos : 0 < utf8_len (concat g')).
    { apply Forall_cons in Hne as [_ Hne]. apply Forall_cons in Hne as [Hg' _].
      destruct g' as [|l g']; [done|].
      pose proof (iter_lines_nonempty (readline infile).2) as Hlines.
      rewrite <- Hcat in Hlines. simpl in Hlines.
      apply Forall_app in Hlines as [_ Hlines].
      apply Forall_cons in Hlines as [Hl _].
      simpl. rewrite utf8_len_app.
      pose proof (utf8_len_pos l Hl). pose proof (utf8_len_nonneg (concat g')). lia. }
    apply (f_equal utf8_len) in Hin. simpl in Hin.
    rewrite !concat_app, !utf8_len_app in Hin. rewrite utf8_len_app in Hlimit.
    pose proof (utf8_len_nonneg (concat (concat rest))). lia.
Qed.

(** X4: a source that is not larger than the chunk size (in UTF-8, as it is
    read) and has at least one data line gives exactly one chunk, numbered
    0001, and that chunk holds the whole text of the source as it is read. *)
Theorem split_file_fits_one_chunk :
  forall (temp_directory file_path : string) (chunk_size_mb : Z)
         (output_dir : option string) (stored : text) (fs : gmap string text),
    let infile := universal_newlines stored in
    let dir := match output_dir with None => temp_directory | Some d => d end in
    let result := split_file temp_directory file_path chunk_size_mb output_dir
                             stored fs in
    utf8_len infile <= chunk_size_mb * 1024 * 1024 ->
    (readline infile).2 <> [] ->
    result.1 = [chunk_filename dir (path_stem file_path) 1] /\
    read_files result.1 result.2 = Some [infile].
Proof.
  intros temp_directory file_path chunk_size_mb output_dir stored fs
         infile dir result Hfits Hbody.
  destruct (split_file_single temp_directory file_path chunk_size_mb output_dir
              stored fs Hfits Hbody) as [Hn Hlook].
  fold dir result in Hn, Hlook. split; [exact Hn|].
  rewrite Hn. unfold read_files. simpl. by rewrite Hlook.
Qed.

Lemma split_file_fits_one_chunk_witness :
  let stored := (text_of_string "id" ++ [LF; 49; LF; 50; LF])%N in
  let result := split_file "tmp" "data.csv" 1 None stored ∅ in
  utf8_len (universal_newlines stored) <= 1 * 1024 * 1024 /\
  (readline (universal_newlines stored)).2 <> [] /\
  result.1 = [chunk_filename "tmp" (path_stem "data.csv") 1] /\
  read_files result.1 result.2 = Some [universal_newlines stored].
Proof.
  intros stored result.
  assert (H1 : utf8_len (universal_newlines stored) <= 1 * 1024 * 1024)
    by (vm_compute; discriminate).
  assert (H2 : (readline (universal_newlines stored)).2 <> [])
    by (vm_compute; discriminate).
  split; [exact H1|]. split; [exact H2|].
  exact (split_file_fits_one_chunk "tmp" "data.csv" 1 None stored ∅ H1 H2).
Defined.

Lemma split_file_frame_eq temp_directory file_path chunk_size_mb output_dir stored fs
    (p : string) :
  p ∉ (split_file temp_directory file_path chunk_size_mb output_dir stored fs).1 ->
  (split_file temp_directory file_path chunk_size_mb output_dir stored fs).2 !! p
  = fs !! p.
Proof.
  unfold split_file.
  destruct (readline (universal_newlines stored)) as [h rest]; simpl.
  intros Hp. eapply (run_frame _ _ _ _ _ (initial_state fs)); [|exact Hp].
  apply chunk_inv_initial.
Qed.

(** X5: [split_file] creates or overwrites the files it returns, and no
    other: every other path of the file system holds what it held before. *)
Theorem split_file_frame :
  forall (temp_directory file_path : string) (chunk_size_mb : Z)
         (output_dir : option string) (stored : text) (fs : gmap string text)
         (p : string),
    let result := split_file temp_directory file_path chunk_size_mb output_dir
                             stored fs in
    p ∉ result.1 -> result.2 !! p = fs !! p.
Proof.
  intros temp_directory file_path chunk_size_mb output_dir stored fs p result.
  unfold result, split_file.
  destruct (readline (universal_newlines stored)) as [header rest]; simpl.
  intros Hp.
  (* The loop writes to the files it has listed only. *)
  eapply (run_frame _ _ _ _ _ (initial_state fs)); [|exact Hp].
  apply chunk_inv_initial.
Qed.

Lemma split_file_frame_witness :
  let stored := (text_of_string "id" ++ [LF; 49; LF; 50; LF])%N in
  let fs : gmap string text := {["tmp/notes.txt"%string := text_of_string "keep"]} in
  let result := split_file "tmp" "data.csv" 0 None stored fs in
  ("tmp/notes.txt"%string ∉ result.1) /\
  result.2 !! "tmp/notes.txt"%string = fs !! "tmp/notes.txt"%string.
Proof.
  intros stored fs result.
  assert (H : "tmp/notes.txt"%string ∉ result.1).
  { apply (bool_decide_unpack _). vm_compute. exact I. }
  split; [exact H|].
  exact (split_file_frame "tmp" "data.csv" 0 None stored fs "tmp/notes.txt" H).
Defined.

(** X6: no chunk is given the path of the source, so the file that is being
    split is never overwritten: whatever the output directory and the name of
    the source, the path of the source holds after the call what it held
    before. *)
Theorem split_file_keeps_source :
  forall (temp_directory file_path : string) (chunk_size_mb : Z)
         (output_dir : option string) (stored : text) (fs : gmap string text),
    let result := split_file temp_directory file_path chunk_size_mb output_dir
                             stored fs in
    Forall (fun name => name <> file_path) result.1 /\
    result.2 !! file_path = fs !! file_path.
Proof.
  intros temp_directory file_path chunk_size_mb output_dir stored fs result.
  assert (Hnames : Forall (fun name => name <> file_path) result.1).
  { destruct (split_file_groups temp_directory file_path chunk_size_mb output_dir
                stored fs) as (groups & Hn & _).
    cbv zeta in Hn. fold result in Hn. rewrite Hn.
    apply Forall_fmap, Forall_forall. intros n _. apply chunk_filename_not_source. }
  split; [exact Hnames|].
  apply split_file_frame_eq. fold result. intros Hin.
  rewrite Forall_forall in Hnames. by apply (Hnames file_path Hin).
Qed.

(** X7: splitting the same source again, over the files the first call
    left, returns the same list and leaves the same files: the result does
    not depend on what the chunk files held before. *)
Theorem split_file_idempotent :
  forall (temp_directory file_path : string) (chunk_size_mb : Z)
         (output_dir : option string) (stored : text) (fs : gmap string text),
    let result := split_file temp_directory file_path chunk_size_mb output_dir
                             stored fs in
    split_file temp_directory file_path chunk_size_mb output_dir stored result.2
    = result.
Proof.
  intros temp_directory file_path chunk_size_mb output_dir stored fs result.
  assert (Hframe := fun p =>
    split_file_frame_eq temp_directory file_path chunk_size_mb output_dir stored
                        result.2 p).
  unfold result in *. clear result. unfold split_file in *.
  destruct (readline (universal_newlines stored)) as [h rest]. simpl in *.
  set (dir := match output_dir with Some d => d | None => temp_directory end) in *.
  set (st1 := run_loop dir (path_stem file_path) (chunk_size_mb * 1024 * 1024) h
                       (iter_lines rest) (initial_state fs)) in *.
  set (st2 := run_loop dir (path_stem file_path) (chunk_size_mb * 1024 * 1024) h
                       (iter_lines rest) (initial_state (files st1))) in *.
  assert (Hagree : agree st1 st2).
  { apply agree_run. repeat split. intros p Hp. by apply elem_of_nil in Hp. }
  destruct Hagree as (_ & _ & _ & Hl & Hc).
  rewrite <- Hl in *. f_equal. apply map_eq. intros p.
  destruct (decide (p ∈ chunk_files st1)) as [Hp|Hp].
  - symmetry. by apply Hc.
  - by apply Hframe.
Qed.

End SplitFileProperties.

Module TunerFacts.
Import Py PerformanceOptimizer PerformanceOptimizerSpec PerformanceOptimizerFacts.

Lemma instance_specs_domain (size : Z) :
  is_Some (INSTANCE_SPECS size) <-> 1 <= size <= 11.
Proof.
  split.
  - intros [instance H]. table_cases H; lia.
  - intros H.
    assert (Hs : size = 1 \/ size = 2 \/ size = 3 \/ size = 4 \/ size = 5 \/ size = 6 \/
                 size = 7 \/ size = 8 \/ size = 9 \/ size = 10 \/ size = 11) by lia.
    repeat (destruct Hs as [->|Hs]; [by eexists|]). subst. by eexists.
Qed.

Lemma performance_levels_domain (level : Z) :
  is_Some (PERFORMANCE_LEVELS level) <-> 1 <= level <= 3.
Proof.
  split.
  - intros [perf H]. table_cases H; lia.
  - intros H. assert (Hs : level = 1 \/ level = 2 \/ level = 3) by lia.
    repeat (destruct Hs as [->|Hs]; [by eexists|]). subst. by eexists.
Qed.

(** What [_calculate_settings] returns is built from what its helpers
    return. *)
Lemma calculate_settings_inv (local : local_specs) (instance : instance_spec)
    (perf : performance_level) (s : settings) :
  _calculate_settings local instance perf = Ok s ->
  exists mc pw w c b t,
    connection_settings instance (multiplier perf) (local_cpu_cores local) = Ok (mc, pw) /\
    _calculate_work_mem (memory_gb instance) (multiplier perf) = Ok w /\
    _calculate_chunk_size (memory_gb instance) (available_memory_gb local)
                          (multiplier perf) = Ok c /\
    _calculate_batch_size (memory_gb instance) (multiplier perf) = Ok b /\
    _calculate_timeout c (multiplier perf) = Ok t /\
    database_pool s = {| min_connections := Z.max 2 pw; max_connections := mc;
                         keepalive := 30 |} /\
    import s = {| chunk_size_mb := c; batch_size := b; parallel_workers := pw;
                  use_copy := true |} /\
    statement_timeout (optimization s) = t /\
    disable_triggers (optimization s) = PrimFloat.ltb 0.5 (multiplier perf) /\
    run_vacuum (optimization s) = PrimFloat.ltb (multiplier perf) 1.0 /\
    run_analyze (optimization s) = true.
Proof.
  unfold _calculate_settings.
  destruct (connection_settings _ _ _) as [[mc pw]|e] eqn:Hconn; [|discriminate].
  cbn [bind].
  destruct (_calculate_work_mem _ _) as [w|e] eqn:Hw; [|discriminate]. cbn [bind].
  destruct (_calculate_chunk_size _ _ _) as [c|e] eqn:Hc; [|discriminate]. cbn [bind].
  destruct (_calculate_batch_size _ _) as [b|e] eqn:Hb; [|discriminate]. cbn [bind].
  destruct (_calculate_timeout _ _) as [t|e] eqn:Ht; [|discriminate]. cbn [bind].
  intros [= <-]. exists mc, pw, w, c, b, t. by repeat split.
Qed.

Lemma get_optimized_settings_inv (local : local_specs) (size level : Z)
    (instance : instance_spec) (perf : performance_level) (s : settings) :
  INSTANCE_SPECS size = Some instance ->
  PERFORMANCE_LEVELS level = Some perf ->
  get_optimized_settings local size level = Ok s ->
  _calculate_settings local instance perf = Ok s.
Proof. unfold get_optimized_settings. by intros -> ->. Qed.

Lemma get_optimized_settings_returns (local : local_specs) (size level : Z)
    (instance : instance_spec) (perf : performance_level) :
  INSTANCE_SPECS size = Some instance ->
  PERFORMANCE_LEVELS level = Some perf ->
  exists s, get_optimized_settings local size level = Ok s.
Proof.
  intros Hi Hp.
  pose proof (connection_settings_table size level instance perf
                (local_cpu_cores local) Hi Hp) as Hconn.
  pose proof (work_mem_table size level instance perf Hi Hp) as Hw.
  destruct (tuned_settings local size level instance perf _ _ _ Hi Hp Hconn Hw)
    as (s & Hs & _).
  by exists s.
Qed.

(** X8: [get_optimized_settings] returns settings for the instance sizes 1
    to 11 and the levels 1 to 3, whatever the local machine; any other size
    raises [ValueError], and so does any other level, the size being checked
    first. *)
Theorem get_optimized_settings_validates :
  forall (local : local_specs) (size level : Z),
    (1 <= size <= 11 /\ 1 <= level <= 3 ->
     exists s, get_optimized_settings local size level = Ok s) /\
    (~ 1 <= size <= 11 ->
     get_optimized_settings local size level
     = Raise (ValueError "Invalid instance size. Choose between 1-11")) /\
    (1 <= size <= 11 /\ ~ 1 <= level <= 3 ->
     get_optimized_settings local size level
     = Raise (ValueError
         "Invalid performance level. Choose 1 (Conservative), 2 (Balanced), or 3 (Aggressive)")).
Proof.
  intros local size level. split; [|split].
  - intros [Hs Hl].
    apply instance_specs_domain in Hs as [instance Hi].
    apply performance_levels_domain in Hl as [perf Hp].
    by eapply get_optimized_settings_returns.
  - intros Hs. unfold get_optimized_settings.
    destruct (INSTANCE_SPECS size) as [instance|] eqn:Hi; [|reflexivity].
    exfalso. apply Hs, instance_specs_domain. by exists instance.
  - intros [Hs Hl]. unfold get_optimized_settings.
    apply instance_specs_domain in Hs as [instance ->].
    destruct (PERFORMANCE_LEVELS level) as [perf|] eqn:Hp; [|reflexivity].
    exfalso. apply Hl, performance_levels_domain. by exists perf.
Qed.

(** X9: the pool the tuner asks for is well formed: for every pair of the
    two tables and every local machine, [2 ≤ min_connections ≤
    max_connections ≤ 50], with [min_connections = max(2, parallel_workers)]
    and a keepalive of 30 seconds. *)
Theorem tuner_pool_well_formed :
  forall (local : local_specs) (size level : Z) (instance : instance_spec)
         (perf : performance_level) (s : settings),
    INSTANCE_SPECS size = Some instance ->
    PERFORMANCE_LEVELS level = Some perf ->
    get_optimized_settings local size level = Ok s ->
    min_connections (database_pool s) = Z.max 2 (parallel_workers (import s)) /\
    2 <= min_connections (database_pool s) /\
    min_connections (database_pool s) <= max_connections (database_pool s) /\
    max_connections (database_pool s) <= 50 /\
    keepalive (database_pool s) = 30.
Proof.
  intros local size level instance perf s Hi Hp Hs.
  apply (get_optimized_settings_inv local size level instance perf s Hi Hp) in Hs.
  apply calculate_settings_inv in Hs
    as (mc & pw & w & c & b & t & Hconn & _ & _ & _ & _ & -> & -> & _).
  rewrite (connection_settings_table size level instance perf _ Hi Hp) in Hconn.
  injection Hconn as <- <-. cbn [min_connections max_connections keepalive
                                 parallel_workers].
  clear -Hi Hp. table_cases Hi; table_cases Hp;
    unfold formula_parallel_workers, formula_max_connections;
    cbn [tier cpu_cores]; eval_arith; repeat split; lia.
Qed.

Lemma tuner_pool_well_formed_witness :
  INSTANCE_SPECS 1 = Some (InstanceSpec "Nano" 0.5 1 shared) /\
  PERFORMANCE_LEVELS 1 = Some (PerformanceLevel "Conservative" 0.5) /\
  exists s, get_optimized_settings (LocalSpecs 1 16 8 10) 1 1 = Ok s /\
    min_connections (database_pool s) = Z.max 2 (parallel_workers (import s)) /\
    2 <= min_connections (database_pool s) /\
    min_connections (database_pool s) <= max_connections (database_pool s) /\
    max_connections (database_pool s) <= 50 /\
    keepalive (database_pool s) = 30.
Proof.
  split; [reflexivity|]. split; [reflexivity|].
  eexists. split; [vm_compute; reflexivity|].
  eapply (tuner_pool_well_formed (LocalSpecs 1 16 8 10) 1 1);
    [reflexivity|reflexivity|vm_compute; reflexivity].
Defined.

(** The chunk size and the timeout, by the level and the memory that
    limits. *)
Lemma chunk_size_table (level : Z) (perf : performance_level)
    (instance_memory local_memory : float) :
  PERFORMANCE_LEVELS level = Some perf ->
  let lim := min_float instance_memory (local_memory * 0.5)%float in
  exists c, _calculate_chunk_size instance_memory local_memory (multiplier perf) = Ok c /\
    _calculate_timeout c (multiplier perf)
    = Ok (if PrimFloat.ltb lim 2 then "30min"
          else if PrimFloat.ltb lim 8 then "1h" else "2h")%string /\
    c = (if PrimFloat.ltb lim 2 then (125 + 25 * level) / 2
         else if PrimFloat.ltb lim 8 then 125 + 25 * level
         else 275 + 75 * level).
Proof.
  intros Hp lim. unfold _calculate_chunk_size. fold lim.
  table_cases Hp;
    destruct (PrimFloat.ltb lim 2); [|destruct (PrimFloat.ltb lim 8)| |destruct (PrimFloat.ltb lim 8)| |destruct (PrimFloat.ltb lim 8)];
    eexists; (split; [vm_compute; reflexivity|]); split; vm_compute; reflexivity.
Qed.

(** X10: the chunk size lies between 75 and 500 MB, so the cap of 1000 MB
    in [_calculate_chunk_size] never applies; and the statement timeout
    depends on the memory that limits only (the instance memory, or half the
    memory available locally), not on the level: 30 minutes below 2 GB, one
    hour below 8 GB, two hours otherwise. *)
Theorem tuner_chunk_size_and_timeout :
  forall (local : local_specs) (size level : Z) (instance : instance_spec)
         (perf : performance_level) (s : settings),
    INSTANCE_SPECS size = Some instance ->
    PERFORMANCE_LEVELS level = Some perf ->
    get_optimized_settings local size level = Ok s ->
    let lim := limiting_memory local instance in
    75 <= chunk_size_mb (import s) <= 500 /\
    chunk_size_mb (import s)
    = (if PrimFloat.ltb lim 2 then (125 + 25 * level) / 2
       else if PrimFloat.ltb lim 8 then 125 + 25 * level
       else 275 + 75 * level) /\
    statement_timeout (optimization s)
    = (if PrimFloat.ltb lim 2 then "30min"
       else if PrimFloat.ltb lim 8 then "1h" else "2h")%string.
Proof.
  intros local size level instance perf s Hi Hp Hs lim.
  apply (get_optimized_settings_inv local size level instance perf s Hi Hp) in Hs.
  apply calculate_settings_inv in Hs
    as (mc & pw & w & c & b & t & _ & _ & Hc & _ & Ht & _ & -> & -> & _).
  destruct (chunk_size_table level perf (memory_gb instance)
              (available_memory_gb local) Hp) as (c' & Hc' & Ht' & Hval).
  rewrite Hc in Hc'. injection Hc' as <-. rewrite Ht in Ht'. injection Ht' as ->.
  cbn [chunk_size_mb]. fold (limiting_memory local instance) in Hval. fold lim in Hval.
  split; [|by split].
  rewrite Hval. assert (1 <= level <= 3) by (apply performance_levels_domain; eauto).
  assert (Hl : level = 1 \/ level = 2 \/ level = 3) by lia.
  destruct (PrimFloat.ltb lim 2); [|destruct (PrimFloat.ltb lim 8)];
    destruct Hl as [->|[->| ->]]; vm_compute; split; discriminate.
Qed.

Lemma tuner_chunk_size_and_timeout_witness :
  INSTANCE_SPECS 6 = Some (InstanceSpec "XL" 16 4 dedicated) /\
  PERFORMANCE_LEVELS 2 = Some (PerformanceLevel "Balanced" 0.75) /\
  exists s, get_optimized_settings (LocalSpecs 8 16 8 10) 6 2 = Ok s /\
    let lim := limiting_memory (LocalSpecs 8 16 8 10)
                               (InstanceSpec "XL" 16 4 dedicated) in
    75 <= chunk_size_mb (import s) <= 500 /\
    chunk_size_mb (import s)
    = (if PrimFloat.ltb lim 2 then (125 + 25 * 2) / 2
       else if PrimFloat.ltb lim 8 then 125 + 25 * 2
       else 275 + 75 * 2) /\
    statement_timeout (optimization s)
    = (if PrimFloat.ltb lim 2 then "30min"
       else if PrimFloat.ltb lim 8 then "1h" else "2h")%string.
Proof.
  split; [reflexivity|]. split; [reflexivity|].
  eexists. split; [vm_compute; reflexivity|].
  eapply (tuner_chunk_size_and_timeout (LocalSpecs 8 16 8 10) 6 2);
    [reflexivity|reflexivity|vm_compute; reflexivity].
Defined.

Lemma batch_size_table (size level : Z) (instance : instance_spec)
    (perf : performance_level) :
  INSTANCE_SPECS size = Some instance ->
  PERFORMANCE_LEVELS level = Some perf ->
  exists b, _calculate_batch_size (memory_gb instance) (multiplier perf) = Ok b /\
            4 * b = batch_base instance * (5 + level).
Proof.
  intros Hi Hp. table_cases Hi; table_cases Hp; eexists;
    (split; [vm_compute; reflexivity|]); vm_compute; reflexivity.
Qed.

(** X11: the batch size is the base of the instance (1000 rows below 2 GB
    of instance memory, 5000 below 8 GB, 10000 otherwise) times 1.5, 1.75 or
    2 by the level, without any loss in the conversion to an integer; it lies
    between 1500 and 20000 rows. *)
Theorem tuner_batch_size :
  forall (local : local_specs) (size level : Z) (instance : instance_spec)
         (perf : performance_level) (s : settings),
    INSTANCE_SPECS size = Some instance ->
    PERFORMANCE_LEVELS level = Some perf ->
    get_optimized_settings local size level = Ok s ->
    4 * batch_size (import s) = batch_base instance * (5 + level) /\
    batch_base instance
    = (if size <=? 2 then 1000 else if size <=? 4 then 5000 else 10000) /\
    1500 <= batch_size (import s) <= 20000.
Proof.
  intros local size level instance perf s Hi Hp Hs.
  apply (get_optimized_settings_inv local size level instance perf s Hi Hp) in Hs.
  apply calculate_settings_inv in Hs
    as (mc & pw & w & c & b & t & _ & _ & _ & Hb & _ & _ & -> & _).
  destruct (batch_size_table size level instance perf Hi Hp) as (b' & Hb' & Hval).
  rewrite Hb in Hb'. injection Hb' as <-. cbn [batch_size].
  assert (Hbase : batch_base instance
                  = (if size <=? 2 then 1000 else if size <=? 4 then 5000 else 10000)).
  { clear -Hi. table_cases Hi; vm_compute; reflexivity. }
  assert (1 <= level <= 3) by (apply performance_levels_domain; eauto).
  split; [exact Hval|]. split; [exact Hbase|].
  rewrite Hbase in Hval. destruct (size <=? 2); [|destruct (size <=? 4)]; lia.
Qed.

Lemma tuner_batch_size_witness :
  INSTANCE_SPECS 3 = Some (InstanceSpec "Small" 2 2 dedicated) /\
  PERFORMANCE_LEVELS 2 = Some (PerformanceLevel "Balanced" 0.75) /\
  exists s, get_optimized_settings (LocalSpecs 8 16 8 10) 3 2 = Ok s /\
    4 * batch_size (import s) = batch_base (InstanceSpec "Small" 2 2 dedicated) * (5 + 2) /\
    batch_base (InstanceSpec "Small" 2 2 dedicated)
    = (if 3 <=? 2 then 1000 else if 3 <=? 4 then 5000 else 10000) /\
    1500 <= batch_size (import s) <= 20000.
Proof.
  split; [reflexivity|]. split; [reflexivity|].
  eexists. split; [vm_compute; reflexivity|].
  eapply (tuner_batch_size (LocalSpecs 8 16 8 10) 3 2);
    [reflexivity|reflexivity|vm_compute; reflexivity].
Defined.

(** X12: the flags of the tuning profile by level: triggers are disabled at
    the balanced and aggressive levels only, the vacuum is skipped at the
    aggressive level only, and [run_analyze] and [use_copy] are always
    set. *)
Theorem tuner_flags_by_level :
  forall (local : local_specs) (size level : Z) (instance : instance_spec)
         (perf : performance_level) (s : settings),
    INSTANCE_SPECS size = Some instance ->
    PERFORMANCE_LEVELS level = Some perf ->
    get_optimized_settings local size level = Ok s ->
    disable_triggers (optimization s) = (2 <=? level) /\
    run_vacuum (optimization s) = (level <=? 2) /\
    run_analyze (optimization s) = true /\
    use_copy (import s) = true.
Proof.
  intros local size level instance perf s Hi Hp Hs.
  apply (get_optimized_settings_inv local size level instance perf s Hi Hp) in Hs.
  apply calculate_settings_inv in Hs
    as (mc & pw & w & c & b & t & _ & _ & _ & _ & _ & _ & -> & _ & -> & -> & ->).
  cbn [use_copy]. clear -Hp. table_cases Hp; vm_compute; repeat split.
Qed.

Lemma tuner_flags_by_level_witness :
  INSTANCE_SPECS 5 = Some (InstanceSpec "Large" 8 2 dedicated) /\
  PERFORMANCE_LEVELS 1 = Some (PerformanceLevel "Conservative" 0.5) /\
  exists s, get_optimized_settings (LocalSpecs 8 16 8 10) 5 1 = Ok s /\
    disable_triggers (optimization s) = (2 <=? 1) /\
    run_vacuum (optimization s) = (1 <=? 2) /\
    run_analyze (optimization s) = true /\
    use_copy (import s) = true.
Proof.
  split; [reflexivity|]. split; [reflexivity|].
  eexists. split; [vm_compute; reflexivity|].
  eapply (tuner_flags_by_level (LocalSpecs 8 16 8 10) 5 1);
    [reflexivity|reflexivity|vm_compute; reflexivity].
Defined.

Lemma get_optimized_settings_level (local : local_specs) (size level : Z)
    (s : settings) :
  get_optimized_settings local size level = Ok s ->
  exists instance perf, INSTANCE_SPECS size = Some instance /\
                        PERFORMANCE_LEVELS level = Some perf.
Proof.
  unfold get_optimized_settings.
  destruct (INSTANCE_SPECS size) as [instance|]; [|discriminate].
  destruct (PERFORMANCE_LEVELS level) as [perf|]; [|discriminate].
  intros _. by exists instance, perf.
Qed.

(** X13: a higher level never gives smaller settings: for the same
    instance and the same local machine, the connections, the workers, the
    chunk size and the batch size computed for a level are at most those
    computed for any level above it. *)
Theorem tuner_monotone_in_level :
  forall (local : local_specs) (size level level' : Z) (s s' : settings),
    level <= level' ->
    get_optimized_settings local size level = Ok s ->
    get_optimized_settings local size level' = Ok s' ->
    max_connections (database_pool s) <= max_connections (database_pool s') /\
    min_connections (database_pool s) <= min_connections (database_pool s') /\
    parallel_workers (import s) <= parallel_workers (import s') /\
    chunk_size_mb (import s) <= chunk_size_mb (import s') /\
    batch_size (import s) <= batch_size (import s').
Proof.
  intros local size level level' s s' Hle Hs Hs'.
  destruct (get_optimized_settings_level _ _ _ _ Hs) as (instance & perf & Hi & Hp).
  destruct (get_optimized_settings_level _ _ _ _ Hs') as (instance' & perf' & Hi' & Hp').
  rewrite Hi in Hi'. injection Hi' as <-.
  apply (get_optimized_settings_inv local size level instance perf s Hi Hp) in Hs.
  apply (get_optimized_settings_inv local size level' instance perf' s' Hi Hp') in Hs'.
  apply calculate_settings_inv in Hs
    as (mc & pw & w & c & b & t & Hconn & _ & Hc & Hb & _ & -> & -> & _).
  apply calculate_settings_inv in Hs'
    as (mc' & pw' & w' & c' & b' & t' & Hconn' & _ & Hc' & Hb' & _ & -> & -> & _).
  cbn [min_connections max_connections parallel_workers chunk_size_mb batch_size].
  rewrite (connection_settings_table size level instance perf _ Hi Hp) in Hconn.
  rewrite (connection_settings_table size level' instance perf' _ Hi Hp') in Hconn'.
  injection Hconn as <- <-. injection Hconn' as <- <-.
  destruct (chunk_size_table level perf (memory_gb instance)
              (available_memory_gb local) Hp) as (c0 & Hc0 & _ & Hcv).
  destruct (chunk_size_table level' perf' (memory_gb instance)
              (available_memory_gb local) Hp') as (c0' & Hc0' & _ & Hcv').
  rewrite Hc in Hc0. injection Hc0 as <-. rewrite Hc' in Hc0'. injection Hc0' as <-.
  destruct (batch_size_table size level instance perf Hi Hp) as (b0 & Hb0 & Hbv).
  destruct (batch_size_table size level' instance perf' Hi Hp') as (b0' & Hb0' & Hbv').
  rewrite Hb in Hb0. injection Hb0 as <-. rewrite Hb' in Hb0'. injection Hb0' as <-.
  assert (Hchunk : c <= c').
  { rewrite Hcv, Hcv'. cbv zeta.
    destruct (PrimFloat.ltb _ 2); [|destruct (PrimFloat.ltb _ 8)]; [|lia|lia].
    apply Z.div_le_mono; lia. }
  assert (Hbatch : b <= b').
  { assert (0 < batch_base instance)
      by (unfold batch_base; repeat case_match; lia).
    nia. }
  clear Hcv Hcv' Hbv Hbv' Hc Hc' Hb Hb'.
  assert (Hconn : formula_max_connections Qfloor instance (float_to_Q (multiplier perf))
                  <= formula_max_connections Qfloor instance (float_to_Q (multiplier perf'))
                  /\ formula_parallel_workers Qfloor instance (float_to_Q (multiplier perf))
                       (local_cpu_cores local)
                     <= formula_parallel_workers Qfloor instance
                          (float_to_Q (multiplier perf')) (local_cpu_cores local)).
  { clear -Hi Hp Hp' Hle.
    table_cases Hi; table_cases Hp; table_cases Hp'; try lia;
      unfold formula_parallel_workers, formula_max_connections;
      cbn [tier cpu_cores multiplier]; eval_arith; lia. }
  lia.
Qed.

Lemma tuner_monotone_in_level_witness :
  exists s s',
    get_optimized_settings (LocalSpecs 8 16 8 10) 7 1 = Ok s /\
    get_optimized_settings (LocalSpecs 8 16 8 10) 7 3 = Ok s' /\
    max_connections (database_pool s) <= max_connections (database_pool s') /\
    min_connections (database_pool s) <= min_connections (database_pool s') /\
    parallel_workers (import s) <= parallel_workers (import s') /\
    chunk_size_mb (import s) <= chunk_size_mb (import s') /\
    batch_size (import s) <= batch_size (import s').
Proof.
  do 2 eexists. split; [vm_compute; reflexivity|]. split; [vm_compute; reflexivity|].
  eapply (tuner_monotone_in_level (LocalSpecs 8 16 8 10) 7 1 3);
    [lia|vm_compute; reflexivity|vm_compute; reflexivity].
Defined.

End TunerFacts.

Module ImporterFacts.
Import Py ProgressTracker DatabaseImporter DatabaseImporterSpec DatabaseImporterFacts.
Local Open Scope m_scope.

(** ** Relations every step of the importer respects *)

#[export] Instance pool_idle_preorder : PreOrder pool_idle.
Proof.
  split; [by intros st|].
  intros s1 s2 s3 [H1 H2] [H3 H4]. split; congruence.
Qed.

#[export] Instance balanced_preorder : PreOrder balanced.
Proof.
  split; [intros st; unfold balanced; lia|].
  unfold balanced. intros s1 s2 s3 H1 H2. lia.
Qed.

#[export] Instance in_step_preorder : PreOrder in_step.
Proof.
  split; [intros st; unfold in_step; lia|].
  unfold in_step. intros s1 s2 s3 H1 H2. lia.
Qed.

#[export] Instance rows_grow_preorder : PreOrder rows_grow.
Proof.
  split; [intros st; unfold rows_grow; lia|].
  unfold rows_grow. intros s1 s2 s3 H1 H2. lia.
Qed.

#[export] Instance never_under_preorder : PreOrder never_under.
Proof.
  split; [intros st Hs; split; [done|lia]|].
  intros s1 s2 s3 H1 H2 Hs. destruct (H1 Hs) as [Hs2 Hd1].
  destruct (H2 Hs2) as [Hs3 Hd2]. split; [done|lia].
Qed.

#[export] Instance counted_exactly_preorder : PreOrder counted_exactly.
Proof.
  split; [intros st Hs; split; [done|lia]|].
  intros s1 s2 s3 H1 H2 Hs. destruct (H1 Hs) as [Hs2 Hd1].
  destruct (H2 Hs2) as [Hs3 Hd2]. split; [done|lia].
Qed.

Lemma connections_returned_emit (e : event) (st : state) :
  connections_returned (emit e st).2
  = (connections_returned st + match e with EvPutConn => 1 | _ => 0 end)%nat.
Proof.
  unfold connections_returned, emit; simpl. rewrite List.filter_app, length_app.
  by destruct e.
Qed.

(** ** What the code between [getconn] and [putconn] respects *)

Section Inner.

Context (R : state -> state -> Prop) `{!PreOrder R}.
Hypothesis R_emit : forall e, e <> EvGetConn -> e <> EvPutConn -> steps R (emit e).
Hypothesis R_conn : forall f, steps R (on_conn f).
Hypothesis R_progress : forall n, steps R (on_progress (add_rows n)).
Hypothesis R_bytes : forall n, steps R (on_progress (add_bytes n)).
Hypothesis R_original : forall v, steps R (set_original_settings v).

Ltac walk :=
  lazymatch goal with
  | |- steps _ (ret _) => apply steps_ret; typeclasses eauto
  | |- steps _ (may_raise _ _) => apply steps_may_raise; [typeclasses eauto|]
  | |- steps _ (bindR _ _) => apply steps_bindR; [typeclasses eauto| |intros ?]
  | |- steps _ (bindM _ _) => apply steps_bindM; [typeclasses eauto| |intros ?]
  | |- steps _ (emit _) => apply R_emit; discriminate
  | |- steps _ (log_message _) => apply R_emit; discriminate
  | |- steps _ (on_conn _) => apply R_conn
  | |- steps _ (on_progress (add_rows _)) => apply R_progress
  | |- steps _ (on_progress (add_bytes _)) => apply R_bytes
  | |- steps _ (set_original_settings _) => apply R_original
  | |- steps _ get_pending => let st := fresh in intros st; reflexivity
  | |- steps _ (match ?x with _ => _ end) => destruct x
  | |- steps _ _ => solve [eauto]
  end.

Lemma inner_execute (failure : option exn) (s : statement) :
  steps R (execute failure s).
Proof. unfold execute. repeat walk. Qed.

Lemma inner_do_commit (failure : option exn) : steps R (do_commit failure).
Proof. unfold do_commit. repeat walk. Qed.

Lemma inner_do_rollback (failure : option exn) : steps R (do_rollback failure).
Proof. unfold do_rollback. repeat walk. Qed.

Lemma inner_flush_batch (failure : option (fallback_stage * exn)) (b : batch_state) :
  steps R (flush_batch failure b).
Proof. unfold flush_batch, _insert_batch. repeat walk. Qed.

Lemma inner_batch_insert_body (file_path : string) (batch_size : Z) (w : file_env) :
  steps R (batch_insert_body file_path batch_size w).
Proof.
  unfold batch_insert_body.
  pose proof inner_do_commit. pose proof inner_flush_batch.
  assert (forall rows b, steps R (batch_loop batch_size (fallback_failure w) rows b))
    by (apply batch_loop_steps; [typeclasses eauto|done]).
  repeat walk.
Qed.

Lemma inner_import_with_batch_insert (file_path : string) (batch_size : Z)
    (w : file_env) :
  steps R (_import_with_batch_insert file_path batch_size w).
Proof.
  unfold _import_with_batch_insert.
  pose proof inner_batch_insert_body. pose proof inner_do_rollback. repeat walk.
Qed.

Lemma inner_bulk_copy_body (cfg : config) (file_path : string) (w : file_env) :
  steps R (bulk_copy_body cfg file_path w).
Proof.
  unfold bulk_copy_body.
  pose proof inner_execute. pose proof inner_do_commit. repeat walk.
Qed.

Lemma inner_except_block (file_path : string) (batch_size : Z) (w : file_env)
    (e : exn) :
  steps R (except_block file_path batch_size w e).
Proof.
  unfold except_block.
  pose proof inner_import_with_batch_insert. pose proof inner_do_rollback.
  repeat walk.
Qed.

Lemma inner_apply_optimizations (failure : option (optimize_stage * exn)) (k : nat)
    (l : list statement) :
  steps R (apply_optimizations failure k l).
Proof.
  revert k. induction l as [|s l IH]; intros k; cbn [apply_optimizations].
  - walk.
  - pose proof inner_execute. repeat walk.
Qed.

Lemma inner_optimize_body (cfg : config) (failure : option (optimize_stage * exn)) :
  steps R (optimize_body cfg failure).
Proof.
  unfold optimize_body.
  pose proof inner_execute. pose proof inner_do_commit.
  pose proof inner_apply_optimizations. repeat walk.
Qed.

End Inner.

Lemma pool_idle_emit (e : event) :
  e <> EvGetConn -> e <> EvPutConn -> steps pool_idle (emit e).
Proof.
  intros Hg Hp st. split.
  - rewrite connections_taken_emit. destruct e; try done; lia.
  - rewrite connections_returned_emit. destruct e; try done; lia.
Qed.

Lemma balanced_emit (e : event) :
  e <> EvGetConn -> e <> EvPutConn -> steps balanced (emit e).
Proof.
  intros Hg Hp st. unfold balanced.
  rewrite connections_taken_emit, connections_returned_emit.
  destruct e; try done; lia.
Qed.

Lemma pool_idle_balanced (st st' : state) : pool_idle st st' -> balanced st st'.
Proof. intros [H1 H2]. unfold balanced. lia. Qed.

(** One file: the connection taken at the start is given back at the end,
    whatever happens in between. *)
Lemma import_single_file_pool (cfg : config) (file_path : string) (batch_size : Z)
    (w : file_env) (st : state) :
  let st' := (_import_single_file cfg file_path batch_size w st).2 in
  connections_taken st' = S (connections_taken st) /\
  connections_returned st' = S (connections_returned st).
Proof.
  cbv zeta. rewrite import_single_file_run.
  pose proof (connections_taken_emit EvGetConn st) as Ht0.
  pose proof (connections_returned_emit EvGetConn st) as Hr0.
  set (st0 := (emit EvGetConn st).2) in *.
  assert (Hbody : pool_idle st0 (bulk_copy_body cfg file_path w st0).2).
  { apply (inner_bulk_copy_body pool_idle); try done.
    exact pool_idle_emit. }
  destruct (bulk_copy_body cfg file_path w st0) as [r st1]. cbn [snd] in Hbody.
  assert (Hrest : pool_idle st1 (match r with
                                 | Ok b => (Ok b, st1)
                                 | Raise e => except_block file_path batch_size w e st1
                                 end).2).
  { destruct r as [b|e]; [done|].
    apply (inner_except_block pool_idle); try done. exact pool_idle_emit. }
  destruct (match r with Ok b => (Ok b, st1) | Raise e => _ end) as [result st2].
  cbn [fst snd] in *.
  rewrite connections_taken_emit, connections_returned_emit.
  destruct Hbody as [Hb1 Hb2], Hrest as [Hr1 Hr2]. lia.
Qed.

Lemma balanced_import_single_file (cfg : config) (file_path : string)
    (batch_size : Z) (w : file_env) :
  steps balanced (_import_single_file cfg file_path batch_size w).
Proof.
  intros st. destruct (import_single_file_pool cfg file_path batch_size w st).
  unfold balanced. lia.
Qed.

(** ** A job, for a relation the import of one file respects *)

Section JobSteps.

Context (R : state -> state -> Prop) `{!PreOrder R}.
Variable cfg : config.
Variable batch_size : Z.
Variable world : nat -> file_env.
Hypothesis R_emit : forall e, e <> EvGetConn -> e <> EvPutConn -> steps R (emit e).
Hypothesis R_status : forall s, steps R (on_progress (update_status s)).
Hypothesis R_file : forall i file_path,
  steps R (_import_single_file cfg file_path batch_size (world i)).

Lemma job_sequential_loop (total i : nat) (file_paths : list string) (c : Z) :
  steps R (sequential_loop cfg batch_size world total i file_paths c).
Proof.
  revert i c. induction file_paths as [|file_path files IH]; intros i c;
    cbn [sequential_loop].
  - by apply steps_ret.
  - apply steps_bindM; [done|apply R_status|intros _].
    apply steps_bindR; [done|apply R_file|intros ok].
    apply steps_bindM; [done| |intros c'; apply IH].
    destruct ok; [by apply steps_ret|].
    apply steps_bindM; [done|by apply R_emit|intros _]. by apply steps_ret.
Qed.

Lemma job_parallel_loop (file_paths : list string) (schedule : list nat) (c : Z) :
  steps R (parallel_loop cfg batch_size world file_paths schedule c).
Proof.
  revert c. induction schedule as [|i schedule IH]; intros c; cbn [parallel_loop].
  - by apply steps_ret.
  - destruct (file_paths !! i) as [file_path|]; [|apply IH].
    apply steps_bindM; [done|apply R_file|intros [ok|e]]; [apply IH|].
    apply steps_bindM; [done|by apply R_emit|intros _]. apply IH.
Qed.

Lemma job_import_files (file_paths : list string) (use_parallel : bool)
    (schedule : list nat) :
  steps R (import_files cfg file_paths use_parallel batch_size world schedule).
Proof.
  unfold import_files. destruct file_paths as [|p l]; [by apply steps_ret|].
  apply steps_bindM; [done|by apply R_emit|intros _].
  destruct (use_parallel && _).
  - unfold _import_files_parallel.
    apply steps_bindM; [done|by apply R_emit|intros _].
    destruct (_ <=? 0); [by apply steps_ret|].
    apply steps_bindM; [done|apply job_parallel_loop|intros c]. by apply steps_ret.
  - unfold _import_files_sequential.
    apply steps_bindR; [done|apply job_sequential_loop|intros c]. by apply steps_ret.
Qed.

End JobSteps.

(** [optimize_for_import], step by step. *)
Lemma optimize_for_import_run (cfg : config)
    (failure : option (optimize_stage * exn)) (rollback_raises : option exn)
    (st : state) :
  optimize_for_import cfg failure rollback_raises st
  = let '(r, st1) := optimize_body cfg failure (emit EvGetConn st).2 in
    let '(r', st2) :=
      match r with
      | Ok _ => (Ok tt, st1)
      | Raise e => do_rollback rollback_raises
                               (log_message (LogErrorOptimizing e) st1).2
      end in
    (r', (emit EvPutConn st2).2).
Proof.
  unfold optimize_for_import, bindM. cbn [emit snd].
  destruct (optimize_body _ _ _) as [[u|e] st1]; [reflexivity|].
  cbn [log_message emit snd]. by destruct (do_rollback _ _).
Qed.

(** X14: every connection taken from the pool is given back.  The import
    of one file takes one connection and returns one, whatever fails (a
    rollback that raises included); a job and the session tuning return as
    many connections as they take, on every path (sequential or parallel,
    run to the end, stopped by an exception or refused by the executor). *)
Theorem connections_always_returned :
  forall (cfg : config) (file_paths : list string) (use_parallel : bool)
         (batch_size : Z) (world : nat -> file_env) (schedule : list nat)
         (failure : option (optimize_stage * exn)) (rollback_raises : option exn)
         (st : state),
    (forall file_path w,
       let st' := (_import_single_file cfg file_path batch_size w st).2 in
       connections_taken st' = S (connections_taken st) /\
       connections_returned st' = S (connections_returned st)) /\
    balanced st (import_files cfg file_paths use_parallel batch_size world
                              schedule st).2 /\
    balanced st (optimize_for_import cfg failure rollback_raises st).2.
Proof.
  intros cfg file_paths use_parallel batch_size world schedule failure
         rollback_raises st.
  split; [|split].
  - intros file_path w. apply import_single_file_pool.
  - apply (job_import_files balanced cfg batch_size world balanced_emit).
    + intros s st0. unfold balanced, connections_taken, connections_returned.
      cbn [on_progress snd trace]. lia.
    + intros i file_path. apply balanced_import_single_file.
  - rewrite optimize_for_import_run.
    pose proof (connections_taken_emit EvGetConn st) as Ht0.
    pose proof (connections_returned_emit EvGetConn st) as Hr0.
    set (st0 := (emit EvGetConn st).2) in *.
    assert (Hbody : pool_idle st0 (optimize_body cfg failure st0).2).
    { apply (inner_optimize_body pool_idle); try done. exact pool_idle_emit. }
    destruct (optimize_body cfg failure st0) as [r st1]. cbn [snd] in Hbody.
    assert (Hrest : pool_idle st1
              (match r with
               | Ok _ => (Ok tt, st1)
               | Raise e => do_rollback rollback_raises
                                        (log_message (LogErrorOptimizing e) st1).2
               end).2).
    { destruct r as [u|e]; [done|]. etransitivity.
      - apply (pool_idle_emit (EvLog (LogErrorOptimizing e))); discriminate.
      - apply (inner_do_rollback pool_idle); try done. exact pool_idle_emit. }
    destruct (match r with Ok _ => (Ok tt, st1) | Raise e => _ end) as [r' st2].
    cbn [snd] in *. unfold balanced.
    rewrite connections_taken_emit, connections_returned_emit.
    destruct Hbody as [Hb1 Hb2], Hrest as [Hr1 Hr2].
    rewrite Hr1, Hr2, Hb1, Hb2, Ht0, Hr0. lia.
Qed.

End ImporterFacts.

Module FallbackFacts.
Import Py ProgressTracker DatabaseImporter DatabaseImporterSpec.
Import DatabaseImporterFacts ImporterFacts.
Local Open Scope m_scope.

(** ** The batches, as lists *)

Lemma split_batches_concat (batch_size : Z) (rows cur : list row) :
  concat (split_batches batch_size rows cur).1 ++ (split_batches batch_size rows cur).2
  = cur ++ rows.
Proof.
  revert cur. induction rows as [|row rest IH]; intros cur; cbn [split_batches].
  - simpl. by rewrite app_nil_r.
  - cbv zeta. destruct (batch_size <=? _).
    + specialize (IH []). destruct (split_batches batch_size rest []) as [sent remaining].
      simpl in *. rewrite <- !app_assoc, IH. reflexivity.
    + rewrite IH, <- app_assoc. reflexivity.
Qed.

Lemma split_batches_sizes (batch_size : Z) (rows cur : list row) :
  Z.of_nat (length cur) < Z.max 1 batch_size ->
  Forall (fun b => Z.of_nat (length b) = Z.max 1 batch_size)
         (split_batches batch_size rows cur).1 /\
  Z.of_nat (length (split_batches batch_size rows cur).2) < Z.max 1 batch_size.
Proof.
  revert cur. induction rows as [|row rest IH]; intros cur Hcur; cbn [split_batches].
  - by split.
  - cbv zeta.
    assert (Hlen : Z.of_nat (length (cur ++ [row])) = Z.of_nat (length cur) + 1).
    { rewrite length_app. simpl. lia. }
    destruct (batch_size <=? _) eqn:Hfull.
    + apply Z.leb_le in Hfull.
      destruct (IH []) as [Hsent Hrem]; [simpl; lia|].
      destruct (split_batches batch_size rest []) as [sent remaining].
      simpl in *. split; [|done]. constructor; [lia|done].
    + apply Z.leb_gt in Hfull. apply IH. lia.
Qed.

Lemma fallback_batches_concat (batch_size : Z) (rows : list row) :
  concat (fallback_batches batch_size rows) = rows.
Proof.
  unfold fallback_batches. pose proof (split_batches_concat batch_size rows []) as H.
  destruct (split_batches batch_size rows []) as [sent remaining]. simpl in H.
  rewrite concat_app. destruct remaining; simpl in *; by rewrite ?app_nil_r in *.
Qed.

Lemma fallback_batches_sizes (batch_size : Z) (rows : list row) (i : nat)
    (b : list row) :
  fallback_batches batch_size rows !! i = Some b ->
  1 <= Z.of_nat (length b) <= Z.max 1 batch_size /\
  ((S i < length (fallback_batches batch_size rows))%nat ->
   Z.of_nat (length b) = Z.max 1 batch_size).
Proof.
  unfold fallback_batches.
  destruct (split_batches_sizes batch_size rows []) as [Hsent Hrem]; [simpl; lia|].
  destruct (split_batches batch_size rows []) as [sent remaining]. simpl in *.
  intros Hi. destruct (decide (i < length sent)%nat) as [Hlt|Hge].
  - rewrite lookup_app_l in Hi by done.
    rewrite Forall_forall in Hsent.
    pose proof (Hsent b (list_elem_of_lookup_2 _ _ _ Hi)). split; lia.
  - rewrite lookup_app_r in Hi by lia.
    destruct remaining as [|r remaining]; [done|].
    destruct (i - length sent)%nat as [|k] eqn:Hk; [|done].
    injection Hi as <-. split; [simpl in *; lia|].
    rewrite length_app. simpl. lia.
Qed.

(** ** The fallback when nothing fails before its commit *)

Lemma flush_batch_run (failure : option (fallback_stage * exn)) (b : batch_state)
    (st : state) :
  unhindered failure -> batch b <> [] ->
  flush_batch failure b st
  = (Ok {| batch := [];
           rows_imported := rows_imported b + Z.of_nat (length (batch b));
           rows_read := rows_read b;
           batches_sent := S (batches_sent b) |},
     after_batch st (batch b)).
Proof.
  intros Hun Hne. unfold flush_batch, _insert_batch, bindR, bindM.
  destruct (Hun (batches_sent b)) as [_ ->].
  destruct (batch b) as [|r l] eqn:Hb; [done|]. reflexivity.
Qed.

Lemma batch_loop_run (batch_size : Z) (failure : option (fallback_stage * exn))
    (rows : list row) (b : batch_state) (st : state) :
  unhindered failure ->
  batch_loop batch_size failure rows b st
  = (Ok {| batch := (split_batches batch_size rows (batch b)).2;
           rows_imported :=
             rows_imported b
             + Z.of_nat (length (concat (split_batches batch_size rows (batch b)).1));
           rows_read := rows_read b + length rows;
           batches_sent :=
             batches_sent b + length (split_batches batch_size rows (batch b)).1 |},
     foldl after_batch st (split_batches batch_size rows (batch b)).1).
Proof.
  intros Hun. revert b st. induction rows as [|row rest IH]; intros b st;
    cbn [batch_loop split_batches]; destruct (Hun (rows_read b)) as [-> _].
  - destruct b. simpl. unfold ret. do 3 f_equal; lia.
  - cbv zeta. unfold bindR.
    set (b1 := {| batch := batch b ++ [row]; rows_imported := rows_imported b;
                  rows_read := S (rows_read b); batches_sent := batches_sent b |}).
    change (batch b ++ [row]) with (batch b1).
    destruct (batch_size <=? Z.of_nat (length (batch b1))).
    + rewrite flush_batch_run by (done || by destruct (batch b)).
      rewrite IH. cbn [batch rows_imported rows_read batches_sent].
      destruct (split_batches batch_size rest []) as [sent remaining].
      cbn [fst snd concat length foldl]. rewrite length_app.
      subst b1. cbn [batch rows_imported rows_read batches_sent].
      do 3 f_equal; lia.
    + unfold ret. rewrite IH. subst b1.
      cbn [batch rows_imported rows_read batches_sent].
      replace (S (rows_read b) + length rest)%nat
        with (rows_read b + S (length rest))%nat by lia.
      reflexivity.
Qed.

(** What a sequence of batches does to the importer. *)
Lemma foldl_after_batch (l : list (list row)) (st : state) :
  let st' := foldl after_batch st l in
  let n := Z.of_nat (length (concat l)) in
  progress st' = add_rows n (progress st) /\
  pending (conn st') = add_table_rows n (pending (conn st)) /\
  committed (conn st') = committed (conn st) /\
  original_settings st' = original_settings st /\
  trace st' = trace st ++ map EvInsertBatch l.
Proof.
  revert st. induction l as [|b l IH]; intros st; cbv zeta.
  - destruct st as [[] [c []] o t]. unfold add_rows, add_table_rows. cbn.
    rewrite !Z.add_0_r, app_nil_r. done.
  - cbn [foldl]. destruct (IH (after_batch st b)) as (H1 & H2 & H3 & H4 & H5).
    rewrite H1, H2, H3, H4, H5. cbn [after_batch progress conn original_settings
                                     trace in_transaction pending committed].
    cbn [concat]. rewrite length_app, Nat2Z.inj_add.
    unfold add_rows, add_table_rows. cbn. rewrite <- !app_assoc.
    repeat split; f_equal; lia.
Qed.

Lemma inserted_batches_app (t t' : list event) :
  inserted_batches (t ++ t') = inserted_batches t ++ inserted_batches t'.
Proof. unfold inserted_batches. by rewrite omap_app. Qed.

Lemma inserted_batches_map (l : list (list row)) :
  inserted_batches (map EvInsertBatch l) = l.
Proof. induction l as [|b l IH]; [done|]. simpl. by rewrite IH. Qed.

Lemma batch_insert_body_run (file_path : string) (batch_size : Z) (w : file_env)
    (st : state) :
  unhindered (fallback_failure w) ->
  raised_at fallback_stage_eqb (fallback_failure w) FbOpen = None ->
  batch_insert_body file_path batch_size w st
  = let st1 := (emit EvCommit (before_commit file_path batch_size w st)).2 in
    match raised_at fallback_stage_eqb (fallback_failure w) FbCommit with
    | Some e => (Raise e, st1)
    | None =>
        (Ok true,
         (log_message (LogImportedBatchInsert (Z.of_nat (length (csv_rows w))))
                      (on_conn commit st1).2).2)
    end.
Proof.
  intros Hun Hopen. unfold batch_insert_body, before_commit, fallback_batches.
  rewrite Hopen. unfold may_raise. unfold bindR at 1. unfold bindM at 1.
  cbn [emit ret fst snd]. unfold bindR at 1. rewrite batch_loop_run by done.
  cbn [batch rows_imported rows_read batches_sent].
  pose proof (split_batches_concat batch_size (csv_rows w) []) as Hcat.
  destruct (split_batches batch_size (csv_rows w) []) as [sent remaining].
  cbn [fst snd] in *. simpl in Hcat.
  assert (Hn : 0 + Z.of_nat (length (concat sent)) + Z.of_nat (length remaining)
               = Z.of_nat (length (csv_rows w))).
  { rewrite <- Hcat, length_app. lia. }
  unfold bindR at 1.
  destruct remaining as [|r remaining].
  - cbn [ret]. rewrite app_nil_r. simpl in Hn. rewrite Z.add_0_r in Hn.
    unfold bindR, do_commit, bindM, may_raise. cbn [emit snd].
    destruct (raised_at _ _ FbCommit); [reflexivity|].
    unfold bindM. cbn [on_conn ret log_message emit fst snd rows_imported].
    by rewrite Hn.
  - rewrite flush_batch_run by done. cbn [batch rows_imported].
    rewrite foldl_app. cbn [foldl].
    unfold bindR, do_commit, bindM, may_raise. cbn [emit snd].
    destruct (raised_at _ _ FbCommit); [reflexivity|].
    unfold bindM. cbn [on_conn ret log_message emit fst snd rows_imported].
    by rewrite Hn.
Qed.

Lemma before_commit_fields (file_path : string) (batch_size : Z) (w : file_env)
    (st : state) :
  let st' := before_commit file_path batch_size w st in
  let n := Z.of_nat (length (csv_rows w)) in
  progress st' = add_rows n (progress st) /\
  pending (conn st') = add_table_rows n (pending (conn st)) /\
  committed (conn st') = committed (conn st) /\
  trace st' = trace st ++ EvReadRows file_path
                          :: map EvInsertBatch (fallback_batches batch_size (csv_rows w)).
Proof.
  cbv zeta. unfold before_commit.
  destruct (foldl_after_batch (fallback_batches batch_size (csv_rows w))
              (emit (EvReadRows file_path) st).2) as (H1 & H2 & H3 & _ & H5).
  rewrite fallback_batches_concat in H1, H2.
  rewrite H1, H2, H3, H5. cbn [emit snd progress conn trace].
  by rewrite <- app_assoc.
Qed.

Lemma unhindered_None : unhindered None.
Proof. by intros k. Qed.

Lemma unhindered_commit (e : exn) : unhindered (Some (FbCommit, e)).
Proof. by intros k. Qed.

(** X15: when nothing fails, the fallback sends the rows of the file in
    batches that, put one after the other, are exactly the rows the reader
    yields, in their order; every batch but the last has exactly
    [batch_size] rows (one row when [batch_size] is below 1), the last has
    at least one row and at most that many; and the call returns [True]. *)
Theorem fallback_batches_partition :
  forall (file_path : string) (batch_size : Z) (w : file_env) (st : state),
    fallback_failure w = None ->
    let r := _import_with_batch_insert file_path batch_size w st in
    let batches := fallback_batches batch_size (csv_rows w) in
    r.1 = Ok true /\
    inserted_batches (trace r.2) = inserted_batches (trace st) ++ batches /\
    concat batches = csv_rows w /\
    (forall i b, batches !! i = Some b ->
       1 <= Z.of_nat (length b) <= Z.max 1 batch_size /\
       ((S i < length batches)%nat -> Z.of_nat (length b) = Z.max 1 batch_size)).
Proof.
  intros file_path batch_size w st Hw. cbv zeta.
  unfold _import_with_batch_insert, bindM.
  rewrite batch_insert_body_run by (rewrite Hw; done || apply unhindered_None).
  rewrite Hw. cbn [raised_at ret fst snd].
  split; [done|]. split; [|split].
  - cbn [log_message emit on_conn snd trace].
    destruct (before_commit_fields file_path batch_size w st) as (_ & _ & _ & Ht).
    rewrite Ht, <- !app_assoc, !inserted_batches_app. cbn [app].
    change (EvReadRows file_path :: ?l) with ([EvReadRows file_path] ++ l).
    rewrite !inserted_batches_app, inserted_batches_map. simpl.
    by rewrite app_nil_r.
  - apply fallback_batches_concat.
  - apply fallback_batches_sizes.
Qed.

Lemma fallback_batches_partition_witness :
  let w := FileEnv 80 0 [[("id", "1")]; [("id", "2")]; [("id", "3")]]%string
                   (Some (BulkCopy, Error "COPY failed")) None None None in
  let r := _import_with_batch_insert "a.csv" 2 w initial in
  let batches := fallback_batches 2 (csv_rows w) in
  fallback_failure w = None /\
  r.1 = Ok true /\
  inserted_batches (trace r.2) = inserted_batches (trace initial) ++ batches /\
  concat batches = csv_rows w /\
  (forall i b, batches !! i = Some b ->
     1 <= Z.of_nat (length b) <= Z.max 1 2 /\
     ((S i < length batches)%nat -> Z.of_nat (length b) = Z.max 1 2)).
Proof.
  intros w r batches. split; [reflexivity|].
  exact (fallback_batches_partition "a.csv" 2 w initial eq_refl).
Defined.

End FallbackFacts.

Module CountFacts.
Import Py ProgressTracker DatabaseImporter DatabaseImporterSpec.
Import DatabaseImporterFacts ImporterFacts FallbackFacts.
Local Open Scope m_scope.

(** ** One file that goes through the fallback *)

(** The handler of [_import_single_file] when the bulk copy has failed with
    an exception whose text contains [COPY] and the rollback goes through:
    the state in which the fallback starts. *)
Lemma import_single_file_fallback (cfg : config) (file_path : string)
    (batch_size : Z) (w : file_env) (stage : bulk_stage) (e : exn) (st : state) :
  bulk_failure w = Some (stage, e) ->
  contains "COPY" (str_of_exn e) = true ->
  rollback_failure w = None ->
  exists s,
    progress s = progress st /\
    pending (conn s) = committed (conn st) /\
    committed (conn s) = committed (conn st) /\
    _import_single_file cfg file_path batch_size w st
    = let '(ok, s') := _import_with_batch_insert file_path batch_size w s in
      (ok, (emit EvPutConn s').2).
Proof.
  intros Hw Hcopy Hrb.
  destruct (bulk_copy_body_raises cfg file_path w stage e (emit EvGetConn st).2 Hw)
    as (st1 & Hbody & Hp & Hc & _).
  exists (log_message LogFallingBack
            (do_rollback None (log_message (LogErrorImporting file_path e) st1).2).2).2.
  split; [exact Hp|]. split; [exact Hc|]. split; [exact Hc|].
  rewrite import_single_file_run, Hbody, except_block_run, Hrb, Hcopy. reflexivity.
Qed.

(** X16: a file whose bulk copy fails with an exception whose text contains
    [COPY], whose rollback goes through and whose fallback meets no failure
    is imported: the call returns [True], the rows the reader yields are
    committed on top of what was committed before (the failed copy leaves
    nothing), and the tracker counts exactly these rows and no byte. *)
Theorem fallback_imports_all_rows :
  forall (cfg : config) (file_path : string) (batch_size : Z) (w : file_env)
         (stage : bulk_stage) (e : exn) (st : state),
    bulk_failure w = Some (stage, e) ->
    contains "COPY" (str_of_exn e) = true ->
    rollback_failure w = None ->
    fallback_failure w = None ->
    let r := _import_single_file cfg file_path batch_size w st in
    let n := Z.of_nat (length (csv_rows w)) in
    r.1 = Ok true /\
    committed (conn r.2) = add_table_rows n (committed (conn st)) /\
    pending (conn r.2) = committed (conn r.2) /\
    progress r.2 = add_rows n (progress st).
Proof.
  intros cfg file_path batch_size w stage e st Hw Hcopy Hrb Hfb. cbv zeta.
  destruct (import_single_file_fallback cfg file_path batch_size w stage e st Hw Hcopy
              Hrb) as (s & Hp & Hpend & Hcom & ->).
  unfold _import_with_batch_insert, bindM.
  rewrite batch_insert_body_run by (rewrite Hfb; done || apply unhindered_None).
  rewrite Hfb. cbn [raised_at ret fst snd].
  destruct (before_commit_fields file_path batch_size w s) as (H1 & H2 & _).
  cbn [log_message emit on_conn snd conn progress commit committed pending].
  rewrite H1, H2, Hp, Hpend. done.
Qed.

Lemma fallback_imports_all_rows_witness :
  let cfg := Config "events" 10 4 None in
  let w := FileEnv 80 0 [[("id", "1")]; [("id", "2")]; [("id", "3")]]%string
                   (Some (BulkCopy, Error "COPY events, line 2: bad row")) None
                   None None in
  let r := _import_single_file cfg "a.csv" 2 w initial in
  bulk_failure w = Some (BulkCopy, Error "COPY events, line 2: bad row") /\
  contains "COPY" (str_of_exn (Error "COPY events, line 2: bad row")) = true /\
  rollback_failure w = None /\
  fallback_failure w = None /\
  r.1 = Ok true /\
  committed (conn r.2) = add_table_rows 3 (committed (conn initial)) /\
  pending (conn r.2) = committed (conn r.2) /\
  progress r.2 = add_rows 3 (progress initial).
Proof.
  intros cfg w r. split; [reflexivity|]. split; [reflexivity|]. split; [reflexivity|].
  split; [reflexivity|].
  exact (fallback_imports_all_rows cfg "a.csv" 2 w BulkCopy
           (Error "COPY events, line 2: bad row") initial eq_refl eq_refl eq_refl
           eq_refl).
Defined.

(** X17: the fallback counts its rows before it commits them.  When the
    commit of the fallback raises, nothing is committed, but the tracker
    keeps the rows it has counted, all the rows of the file.  The call
    returns [False] with the transaction rolled back when the rollback of
    the fallback goes through, and raises the exception of that rollback
    otherwise. *)
Theorem fallback_commit_failure_keeps_count :
  forall (cfg : config) (file_path : string) (batch_size : Z) (w : file_env)
         (stage : bulk_stage) (e e' : exn) (st : state),
    bulk_failure w = Some (stage, e) ->
    contains "COPY" (str_of_exn e) = true ->
    rollback_failure w = None ->
    fallback_failure w = Some (FbCommit, e') ->
    let r := _import_single_file cfg file_path batch_size w st in
    let n := Z.of_nat (length (csv_rows w)) in
    r.1 = match fallback_rollback_failure w with
          | None => Ok false
          | Some e'' => Raise e''
          end /\
    committed (conn r.2) = committed (conn st) /\
    (fallback_rollback_failure w = None -> pending (conn r.2) = committed (conn st)) /\
    progress r.2 = add_rows n (progress st).
Proof.
  intros cfg file_path batch_size w stage e e' st Hw Hcopy Hrb Hfb. cbv zeta.
  destruct (import_single_file_fallback cfg file_path batch_size w stage e st Hw Hcopy
              Hrb) as (s & Hp & Hpend & Hcom & ->).
  rewrite import_with_batch_insert_run.
  rewrite batch_insert_body_run by (rewrite Hfb; done || apply unhindered_commit).
  rewrite Hfb. cbn [raised_at fallback_stage_eqb].
  destruct (before_commit_fields file_path batch_size w s) as (H1 & _ & H3 & _).
  revert H1 H3. generalize (before_commit file_path batch_size w s). intros bc H1 H3.
  destruct bc as [p c o t]. unfold do_commit, bindM, may_raise.
  cbn [emit ret fst snd]. rewrite do_rollback_run.
  destruct (fallback_rollback_failure w) as [e''|]; cbn in *;
    rewrite H1, H3, Hp, Hcom; done.
Qed.

Lemma fallback_commit_failure_keeps_count_witness :
  let cfg := Config "events" 10 4 None in
  let w := FileEnv 80 0 [[("id", "1")]; [("id", "2")]; [("id", "3")]]%string
                   (Some (BulkCopy, Error "COPY events, line 2: bad row"))
                   (Some (FbCommit, Error "connection lost")) None None in
  let r := _import_single_file cfg "a.csv" 2 w initial in
  bulk_failure w = Some (BulkCopy, Error "COPY events, line 2: bad row") /\
  contains "COPY" (str_of_exn (Error "COPY events, line 2: bad row")) = true /\
  rollback_failure w = None /\
  fallback_failure w = Some (FbCommit, Error "connection lost") /\
  r.1 = Ok false /\
  committed (conn r.2) = committed (conn initial) /\
  (fallback_rollback_failure w = None -> pending (conn r.2) = committed (conn initial)) /\
  progress r.2 = add_rows 3 (progress initial).
Proof.
  intros cfg w r. split; [reflexivity|]. split; [reflexivity|]. split; [reflexivity|].
  split; [reflexivity|].
  exact (fallback_commit_failure_keeps_count cfg "a.csv" 2 w BulkCopy
           (Error "COPY events, line 2: bad row") (Error "connection lost") initial
           eq_refl eq_refl eq_refl eq_refl).
Defined.

(** ** Rows counted and rows committed *)

Section Body.

Context (R : state -> state -> Prop) `{!PreOrder R}.
Hypothesis R_emit : forall e, steps R (emit e).
Hypothesis R_flush : forall failure b, steps R (flush_batch failure b).
Hypothesis R_commit : forall failure, steps R (do_commit failure).

Lemma body_steps (file_path : string) (batch_size : Z) (w : file_env) :
  steps R (batch_insert_body file_path batch_size w).
Proof.
  unfold batch_insert_body.
  apply steps_bindR; [done| |intros _].
  { apply steps_may_raise; [done|apply R_emit]. }
  apply steps_bindR; [done| |intros b].
  { apply batch_loop_steps; [done|apply R_flush]. }
  apply steps_bindR; [done| |intros b'].
  { destruct (batch b); [by apply steps_ret|apply R_flush]. }
  apply steps_bindR; [done|apply R_commit|intros _].
  apply steps_bindM; [done|apply R_emit|intros _]. by apply steps_ret.
Qed.

End Body.

Lemma in_step_emit (e : event) : steps in_step (emit e).
Proof. intros st. unfold in_step, rows_counted. cbn. lia. Qed.

Lemma rows_grow_emit (e : event) : steps rows_grow (emit e).
Proof. intros st. unfold rows_grow, rows_counted. cbn. lia. Qed.

Lemma in_step_flush (failure : option (fallback_stage * exn)) (b : batch_state) :
  steps in_step (flush_batch failure b).
Proof.
  intros st. unfold flush_batch, _insert_batch, bindR, bindM, may_raise.
  destruct (batch b) as [|r l]; [|destruct (raised_at _ _ _)];
    unfold in_step, rows_counted; cbn; lia.
Qed.

Lemma in_step_commit (failure : option exn) : steps in_step (do_commit failure).
Proof.
  intros st. unfold do_commit, bindM, may_raise.
  destruct failure; unfold in_step, rows_counted; cbn; lia.
Qed.

Lemma rows_grow_flush (failure : option (fallback_stage * exn)) (b : batch_state) :
  steps rows_grow (flush_batch failure b).
Proof.
  intros st. unfold flush_batch, _insert_batch, bindR, bindM, may_raise.
  destruct (batch b) as [|r l]; [|destruct (raised_at _ _ _)];
    unfold rows_grow, rows_counted; cbn; lia.
Qed.

Lemma rows_grow_commit (failure : option exn) : steps rows_grow (do_commit failure).
Proof.
  intros st. unfold do_commit, bindM, may_raise.
  destruct failure; unfold rows_grow, rows_counted; cbn; lia.
Qed.

(** The fallback returns after its commit only. *)
Lemma batch_insert_body_committed (file_path : string) (batch_size : Z)
    (w : file_env) (st st' : state) (b : bool) :
  batch_insert_body file_path batch_size w st = (Ok b, st') ->
  committed (conn st') = pending (conn st').
Proof.
  unfold batch_insert_body. intros Hr.
  apply bindR_returns in Hr as (_ & s1 & _ & Hr).
  apply bindR_returns in Hr as (b1 & s2 & _ & Hr).
  apply bindR_returns in Hr as (b2 & s3 & _ & Hr).
  apply bindR_returns in Hr as (u & s4 & Hcommit & Hr).
  unfold bindM, ret in Hr. cbn [log_message emit] in Hr. injection Hr as _ <-.
  cbn [conn]. unfold do_commit, bindM, may_raise in Hcommit.
  destruct (raised_at _ _ _); [discriminate|].
  cbn [emit on_conn ret] in Hcommit. by injection Hcommit as _ <-.
Qed.

(** The fallback, from a state without open transaction. *)
Lemma fallback_never_under (file_path : string) (batch_size : Z) (w : file_env)
    (s : state) :
  fallback_rollback_failure w = None ->
  settled s ->
  let r := _import_with_batch_insert file_path batch_size w s in
  settled r.2 /\
  rows_committed r.2 - rows_committed s <= rows_counted r.2 - rows_counted s /\
  (r.1 = Ok true ->
   rows_committed r.2 - rows_committed s = rows_counted r.2 - rows_counted s).
Proof.
  intros Hfrb Hs. cbv zeta. rewrite import_with_batch_insert_run.
  pose proof (body_steps in_step in_step_emit in_step_flush
                in_step_commit file_path batch_size w s) as Hin.
  pose proof (body_steps rows_grow rows_grow_emit rows_grow_flush
                rows_grow_commit file_path batch_size w s) as Hgrow.
  destruct (batch_insert_body file_path batch_size w s) as [[b|e] s1] eqn:Hbody;
    cbn [fst snd] in *.
  - pose proof (batch_insert_body_committed _ _ _ _ _ _ Hbody) as Hc.
    apply batch_insert_body_returns in Hbody as ->.
    unfold settled, in_step, rows_committed in *. cbn [ret fst snd].
    rewrite Hc. rewrite <- Hs. split; [done|]. split; [lia|]. intros _. lia.
  - apply batch_insert_body_raises in Hbody. unfold uncommitted in Hbody.
    unfold settled, rows_grow, rows_committed, rows_counted in *.
    rewrite do_rollback_run, Hfrb.
    destruct s1 as [p c o t]. cbn in *.
    rewrite Hbody. split; [done|]. split; [lia|]. intros [=].
Qed.

Lemma fallback_succeeds (file_path : string) (batch_size : Z) (w : file_env)
    (s : state) :
  fallback_failure w = None ->
  (_import_with_batch_insert file_path batch_size w s).1 = Ok true.
Proof.
  intros Hfb. unfold _import_with_batch_insert, bindM.
  rewrite batch_insert_body_run by (rewrite Hfb; done || apply unhindered_None).
  by rewrite Hfb.
Qed.

(** A bulk copy that goes through, in full. *)
Lemma bulk_copy_body_commits (cfg : config) (file_path : string) (w : file_env)
    (st : state) :
  bulk_failure w = None ->
  exists st1, bulk_copy_body cfg file_path w st = (Ok true, st1) /\
              progress st1 = add_bytes (file_size w)
                               (add_rows (copy_rowcount w) (progress st)) /\
              pending (conn st1) = committed (conn st1) /\
              table_rows (committed (conn st1))
              = table_rows (pending (conn st)) + copy_rowcount w.
Proof.
  intros Hw. unfold bulk_copy_body. rewrite Hw. destruct st as [p c o t].
  run_m. eexists. split; [reflexivity|]. by repeat split.
Qed.

(** The import of one file, from a state without open transaction. *)
Lemma import_single_file_never_under (cfg : config) (file_path : string)
    (batch_size : Z) (w : file_env) (st : state) :
  rollback_failure w = None ->
  fallback_rollback_failure w = None ->
  settled st ->
  let st' := (_import_single_file cfg file_path batch_size w st).2 in
  settled st' /\
  rows_committed st' - rows_committed st <= rows_counted st' - rows_counted st /\
  (fallback_failure w = None ->
   rows_committed st' - rows_committed st = rows_counted st' - rows_counted st).
Proof.
  intros Hrb Hfrb Hs. cbv zeta. destruct (bulk_failure w) as [[stage e]|] eqn:Hw.
  - destruct (contains "COPY" (str_of_exn e)) eqn:Hcopy.
    + destruct (import_single_file_fallback cfg file_path batch_size w stage e st
                  Hw Hcopy Hrb) as (s & Hp & Hpend & Hcom & ->).
      assert (Hss : settled s) by (unfold settled; congruence).
      destruct (fallback_never_under file_path batch_size w s Hfrb Hss)
        as (H1 & H2 & H3).
      pose proof (fallback_succeeds file_path batch_size w s) as Hok.
      destruct (_import_with_batch_insert file_path batch_size w s) as [ok s'].
      cbn [fst snd] in *. unfold settled, rows_committed, rows_counted in *.
      cbn [emit snd conn progress]. rewrite Hcom, Hp in *.
      split; [done|]. split; [lia|]. intros Hfb. apply H3. by apply Hok.
    + destruct (bulk_copy_body_raises cfg file_path w stage e (emit EvGetConn st).2 Hw)
        as (st1 & Hbody & Hp & Hc & _).
      rewrite import_single_file_run, Hbody, except_block_run, do_rollback_run,
        Hrb, Hcopy.
      unfold settled, rows_committed, rows_counted in *.
      destruct st1 as [p c o t], st as [p0 c0 o0 t0].
      cbn in *. subst p.
      rewrite Hc. split; [done|]. split; [lia|]. intros _. lia.
  - destruct (bulk_copy_body_commits cfg file_path w (emit EvGetConn st).2 Hw)
      as (st1 & Hbody & Hp & Hpend & Hrows).
    rewrite import_single_file_run, Hbody.
    unfold settled, rows_committed, rows_counted in *.
    cbn [emit snd conn progress] in *. rewrite Hp, Hrows, Hs. cbn.
    split; [done|]. split; [lia|]. intros _. lia.
Qed.

Lemma never_under_emit (e : event) : steps never_under (emit e).
Proof. intros st Hs. split; [exact Hs|]. unfold rows_committed, rows_counted. cbn. lia. Qed.

Lemma counted_exactly_emit (e : event) : steps counted_exactly (emit e).
Proof. intros st Hs. split; [exact Hs|]. unfold rows_committed, rows_counted. cbn. lia. Qed.

(** X18: the tracker does not report fewer rows than the table holds.
    From an importer without open transaction, after a job in which no
    rollback raises (sequential or parallel, whatever statement, file
    operation or commit fails, and in whichever file) no transaction is
    open, and the rows committed by the job are at most the rows the job has
    added to the tracker; they are exactly as many when no fallback
    fails. *)
Theorem tracker_never_under_reports :
  forall (cfg : config) (file_paths : list string) (use_parallel : bool)
         (batch_size : Z) (world : nat -> file_env) (schedule : list nat)
         (st : state),
    (forall i, rollback_failure (world i) = None /\
               fallback_rollback_failure (world i) = None) ->
    settled st ->
    let st' := (import_files cfg file_paths use_parallel batch_size world
                             schedule st).2 in
    settled st' /\
    rows_committed st' - rows_committed st <= rows_counted st' - rows_counted st /\
    ((forall i, fallback_failure (world i) = None) ->
     rows_committed st' - rows_committed st = rows_counted st' - rows_counted st).
Proof.
  intros cfg file_paths use_parallel batch_size world schedule st Hrb Hs. cbv zeta.
  assert (Hle : never_under st (import_files cfg file_paths use_parallel batch_size
                                             world schedule st).2).
  { apply (job_import_files never_under cfg batch_size world).
    - intros e _ _. apply never_under_emit.
    - intros s st0 Hs0. split; [exact Hs0|].
      unfold rows_committed, rows_counted. cbn. lia.
    - intros i file_path st0 Hs0. destruct (Hrb i) as [Hr1 Hr2].
      destruct (import_single_file_never_under cfg file_path batch_size (world i)
                  st0 Hr1 Hr2 Hs0) as (H1 & H2 & _).
      by split. }
  destruct (Hle Hs) as [Hs' Hd]. split; [exact Hs'|]. split; [exact Hd|].
  intros Hfb.
  assert (Heq : counted_exactly st (import_files cfg file_paths use_parallel batch_size
                                                 world schedule st).2).
  { apply (job_import_files counted_exactly cfg batch_size world).
    - intros e _ _. apply counted_exactly_emit.
    - intros s st0 Hs0. split; [exact Hs0|].
      unfold rows_committed, rows_counted. cbn. lia.
    - intros i file_path st0 Hs0. destruct (Hrb i) as [Hr1 Hr2].
      destruct (import_single_file_never_under cfg file_path batch_size (world i)
                  st0 Hr1 Hr2 Hs0) as (H1 & _ & H3).
      split; [exact H1|]. apply H3, Hfb. }
  by destruct (Heq Hs).
Qed.

Lemma tracker_never_under_reports_witness :
  let cfg := Config "events" 10 4 None in
  let world := fun i : nat =>
    match i with
    | O => FileEnv 100 5 [] None None None None
    | _ => FileEnv 80 0 [[("id", "1")]; [("id", "2")]]%string
                   (Some (BulkCopy, Error "COPY events, line 2: bad row"))
                   (Some (FbCommit, Error "connection lost")) None None
    end in
  let st' := (import_files cfg ["a.csv"; "b.csv"]%string false 1 world [] initial).2 in
  (forall i, rollback_failure (world i) = None /\
             fallback_rollback_failure (world i) = None) /\
  settled initial /\
  settled st' /\
  rows_committed st' - rows_committed initial <= rows_counted st' - rows_counted initial /\
  ((forall i, fallback_failure (world i) = None) ->
   rows_committed st' - rows_committed initial = rows_counted st' - rows_counted initial).
Proof.
  intros cfg world st'.
  assert (Hrb : forall i, rollback_failure (world i) = None /\
                          fallback_rollback_failure (world i) = None)
    by (intros [|i]; split; reflexivity).
  split; [exact Hrb|]. split; [reflexivity|].
  exact (tracker_never_under_reports cfg ["a.csv"; "b.csv"]%string false 1 world []
           initial Hrb eq_refl).
Defined.

End CountFacts.

Module RestoreFacts.
Import Py ProgressTracker DatabaseImporter DatabaseImporterRestore.
Import DatabaseImporterFacts.

(** ** [restore_after_import] alone *)

Ltac restore_cases cfg m failure rollback_raises c :=
  destruct cfg as [t pm pw [[wm mwm to [[|]|]]|]];
  destruct m as [[[|]|] [[|]|]];
  destruct c as [cm pd];
  try (destruct failure as [[[[|[|[|k]]]|] e]|]);
  destruct rollback_raises as [?|].

(** A call that fails and whose rollback goes through returns normally and
    leaves the connection rolled back. *)
Lemma restore_rolls_back (cfg : config) (m : maintenance_config)
    (failure : option (restore_stage * exn)) (c : connection) :
  restore_fails cfg m failure = true ->
  let r := restore_after_import cfg m failure None c in
  r.1 = Ok tt /\ res_conn r.2 = rollback c.
Proof.
  set (rollback_raises := @None exn). assert (Hrb : rollback_raises = None) by done.
  clearbody rollback_raises.
  restore_cases cfg m failure rollback_raises c; cbn; intros H;
    try discriminate H; try discriminate Hrb; by split.
Qed.

(** A call that fails and whose rollback raises: the exception of the
    rollback leaves the call, and nothing is committed. *)
Lemma restore_rollback_raises (cfg : config) (m : maintenance_config)
    (failure : option (restore_stage * exn)) (e' : exn) (c : connection) :
  restore_fails cfg m failure = true ->
  let r := restore_after_import cfg m failure (Some e') c in
  r.1 = Raise e' /\ committed (res_conn r.2) = committed c.
Proof.
  set (rollback_raises := Some e').
  assert (Hrb : rollback_raises = Some e') by done. clearbody rollback_raises.
  restore_cases cfg m failure rollback_raises c; cbn; intros H;
    try discriminate H; try discriminate Hrb; injection Hrb as ->; by split.
Qed.

(** A call that does not fail returns normally, commits what its statements
    do, and sends them all. *)
Lemma restore_commits (cfg : config) (m : maintenance_config)
    (failure : option (restore_stage * exn)) (rollback_raises : option exn)
    (c : connection) :
  restore_fails cfg m failure = false ->
  let r := restore_after_import cfg m failure rollback_raises c in
  r.1 = Ok tt /\
  res_conn r.2
  = commit (in_transaction
              (fun d => foldl (fun d s => apply_restore_statement s d) d
                              (restore_statements cfg m)) c) /\
  statements_sent (res_trace r.2) = restore_statements cfg m.
Proof.
  restore_cases cfg m failure rollback_raises c; cbn; intros H;
    try discriminate H; by repeat split.
Qed.

(** A call whose rollback does not raise returns normally. *)
Lemma restore_returns (cfg : config) (m : maintenance_config)
    (failure : option (restore_stage * exn)) (c : connection) :
  (restore_after_import cfg m failure None c).1 = Ok tt.
Proof.
  destruct (restore_fails cfg m failure) eqn:H.
  - by destruct (restore_rolls_back cfg m failure c H).
  - by destruct (restore_commits cfg m failure None c H).
Qed.

(** X19: [restore_after_import] is all or nothing.  When the call reaches an
    operation that fails (a statement, the commit, or the missing section
    [optimization]), the handler rolls back: if the rollback goes through,
    the call returns normally and the connection is rolled back, nothing of
    what the call did is kept; if the rollback raises, its exception leaves
    the call, and nothing has been committed.  When no operation fails, the
    call sends the re-enabling of the triggers when [disable_triggers] is
    set, then [VACUUM ANALYZE] when [run_vacuum] is set or absent, else
    [ANALYZE] when [run_analyze] is set or absent, commits, and returns
    normally. *)
Theorem restore_after_import_all_or_nothing :
  forall (cfg : config) (m : maintenance_config)
         (failure : option (restore_stage * exn)) (rollback_raises : option exn)
         (c : connection),
    let r := restore_after_import cfg m failure rollback_raises c in
    if restore_fails cfg m failure
    then match rollback_raises with
         | None => r.1 = Ok tt /\ res_conn r.2 = rollback c
         | Some e' => r.1 = Raise e' /\ committed (res_conn r.2) = committed c
         end
    else r.1 = Ok tt /\
         res_conn r.2
         = commit (in_transaction
                     (fun d => foldl (fun d s => apply_restore_statement s d) d
                                     (restore_statements cfg m)) c) /\
         statements_sent (res_trace r.2) = restore_statements cfg m.
Proof.
  intros cfg m failure rollback_raises c. cbv zeta.
  destruct (restore_fails cfg m failure) eqn:H.
  - destruct rollback_raises as [e'|].
    + by apply restore_rollback_raises.
    + by apply restore_rolls_back.
  - by apply restore_commits.
Qed.

(** A [VACUUM ANALYZE] that raises, with a rollback that goes through and
    with one that raises. *)
Example restore_after_import_vacuum_fails :
  let cfg := Config "events" 10 4 (Some (OptimizationConfig None None None (Some true))) in
  let m := MaintenanceConfig None None in
  let failure := Some (AtExecute 1, Error "VACUUM cannot run inside a transaction block") in
  let c := {| committed := DbState ∅ {["events"%string]} 7;
              pending := DbState ∅ {["events"%string]} 7 |} in
  restore_after_import cfg m failure None c
  = (Ok tt,
     {| res_conn := c;
        res_trace :=
          [ResGetConn; ResExecuted (EnableTriggers "events");
           ResLog (LogReenabledTriggers "events");
           ResExecuted (VacuumAnalyze "events");
           ResLog (LogErrorRestoring
                     (Error "VACUUM cannot run inside a transaction block"));
           ResRollback; ResPutConn] |}) /\
  (restore_after_import cfg m failure (Some (Error "connection already closed")) c).1
  = Raise (Error "connection already closed").
Proof. split; reflexivity. Qed.

(** ** After [optimize_for_import] *)

Lemma tuned_settings_only (timeout : string) (table : option string) (d : db_state) :
  session_settings (tuned timeout table d) = session_settings (tuned timeout None d) /\
  table_rows (tuned timeout table d) = table_rows d /\
  triggers_disabled (tuned timeout table d)
  = match table with
    | Some t => {[t]} ∪ triggers_disabled d
    | None => triggers_disabled d
    end.
Proof. destruct table; by repeat split. Qed.

(** X20: the re-enabling of the triggers shares its transaction with the
    maintenance command.  After an [optimize_for_import] that has disabled
    the triggers of the table, a [restore_after_import] that fails (its
    [VACUUM ANALYZE] raises, say) leaves the triggers of the table disabled,
    whether its rollback goes through or raises; when the rollback goes
    through, the call returns normally and no transaction is left open. *)
Theorem failed_restore_leaves_triggers_disabled :
  forall (cfg : config) (o : optimization_config) (m : maintenance_config)
         (failure : option (restore_stage * exn))
         (optimize_rollback restore_rollback : option exn) (st : state),
    optimization cfg = Some o ->
    opt_disable_triggers o = Some true ->
    restore_fails cfg m failure = true ->
    let st1 := (optimize_for_import cfg None optimize_rollback st).2 in
    let r := restore_after_import cfg m failure restore_rollback (conn st1) in
    table_name cfg ∈ triggers_disabled (committed (res_conn r.2)) /\
    (restore_rollback = None ->
     r.1 = Ok tt /\ pending (res_conn r.2) = committed (res_conn r.2)).
Proof.
  intros cfg o m failure optimize_rollback restore_rollback st Ho Ht Hf. cbv zeta.
  destruct (optimize_for_import_success cfg o optimize_rollback st Ho) as (_ & Hc & _).
  cbv zeta in Hc. rewrite Ht in Hc. cbn [default from_option id] in Hc.
  assert (Hin : table_name cfg
                ∈ triggers_disabled
                    (committed (conn (optimize_for_import cfg None optimize_rollback
                                                          st).2))).
  { rewrite Hc.
    destruct (tuned_settings_only (default "30min"%string (opt_statement_timeout o))
                (Some (table_name cfg)) (pending (conn st))) as (_ & _ & ->).
    set_solver. }
  set (c := conn (optimize_for_import cfg None optimize_rollback st).2) in *.
  destruct restore_rollback as [e'|].
  - destruct (restore_rollback_raises cfg m failure e' c Hf) as [_ Hcom].
    cbv zeta in Hcom. rewrite Hcom. split; [exact Hin|discriminate].
  - destruct (restore_rolls_back cfg m failure c Hf) as [Hr Hconn].
    cbv zeta in Hr, Hconn. rewrite Hconn. cbn [rollback committed pending].
    split; [exact Hin|]. intros _. by split.
Qed.

Lemma failed_restore_leaves_triggers_disabled_witness :
  let o := OptimizationConfig None None None (Some true) in
  let cfg := Config "events" 10 4 (Some o) in
  let m := MaintenanceConfig None None in
  let failure := Some (AtExecute 1, Error "VACUUM cannot run inside a transaction block") in
  let st1 := (optimize_for_import cfg None None initial).2 in
  let r := restore_after_import cfg m failure None (conn st1) in
  optimization cfg = Some o /\
  opt_disable_triggers o = Some true /\
  restore_fails cfg m failure = true /\
  table_name cfg ∈ triggers_disabled (committed (res_conn r.2)) /\
  (@None exn = None ->
   r.1 = Ok tt /\ pending (res_conn r.2) = committed (res_conn r.2)).
Proof.
  intros o cfg m failure st1 r.
  split; [reflexivity|]. split; [reflexivity|]. split; [reflexivity|].
  exact (failed_restore_leaves_triggers_disabled cfg o m failure None None initial
           eq_refl eq_refl eq_refl).
Defined.

Lemma enable_after_disable (t : string) (T : gset string) :
  ({[t]} ∪ T) ∖ {[t]} = T ∖ {[t]}.
Proof.
  apply set_eq. intros x. rewrite !elem_of_difference, elem_of_union. tauto.
Qed.

Lemma tuned_work_mem (timeout : string) (d : db_state) :
  session_settings (tuned timeout None d) !! "work_mem"%string = Some "'256MB'"%string /\
  session_settings (tuned timeout None d) !! "maintenance_work_mem"%string
  = Some "'1GB'"%string.
Proof.
  unfold tuned, optimizations. cbn [foldl apply_statement set_param session_settings].
  split; by repeat (rewrite lookup_insert_ne by done); rewrite lookup_insert_eq.
Qed.

(** X21: [restore_after_import] does not restore the settings of the
    session.  After [optimize_for_import] and [restore_after_import], none
    failing, both calls have returned normally and the parameters
    [optimize_for_import] has set are still in force ([work_mem] is
    ['256MB'], [maintenance_work_mem] is ['1GB']); the settings saved in
    [original_settings] are not applied.  The triggers of the table are
    enabled when [disable_triggers] is set, and the rows are untouched. *)
Theorem restore_keeps_session_tuning :
  forall (cfg : config) (o : optimization_config) (m : maintenance_config)
         (optimize_rollback restore_rollback : option exn) (st : state),
    optimization cfg = Some o ->
    let timeout := default "30min"%string (opt_statement_timeout o) in
    let before := pending (conn st) in
    let tuning := optimize_for_import cfg None optimize_rollback st in
    let r := restore_after_import cfg m None restore_rollback (conn tuning.2) in
    let after := committed (res_conn r.2) in
    tuning.1 = Ok tt /\
    r.1 = Ok tt /\
    session_settings after = session_settings (tuned timeout None before) /\
    session_settings after !! "work_mem"%string = Some "'256MB'"%string /\
    session_settings after !! "maintenance_work_mem"%string = Some "'1GB'"%string /\
    triggers_disabled after
    = (if default false (opt_disable_triggers o)
       then triggers_disabled before ∖ {[table_name cfg]}
       else triggers_disabled before) /\
    table_rows after = table_rows before.
Proof.
  intros cfg o m optimize_rollback restore_rollback st Ho. cbv zeta.
  assert (Hf : restore_fails cfg m None = false) by (unfold restore_fails; by rewrite Ho).
  destruct (restore_commits cfg m None restore_rollback
              (conn (optimize_for_import cfg None optimize_rollback st).2) Hf)
    as (Hr & Hconn & _).
  cbv zeta in Hr, Hconn. rewrite Hr, Hconn.
  destruct (optimize_for_import_success cfg o optimize_rollback st Ho)
    as (Hret & Hc & Hp & _).
  cbv zeta in Hret, Hc, Hp. cbn [commit in_transaction committed pending].
  rewrite Hret, Hp, Hc. unfold restore_statements. rewrite Ho.
  set (timeout := default "30min"%string (opt_statement_timeout o)).
  destruct (tuned_work_mem timeout (pending (conn st))) as [Hw Hm].
  destruct (default false (opt_disable_triggers o)) eqn:Ht;
    destruct (default true (opt_run_vacuum m));
    try destruct (default true (opt_run_analyze m));
    cbn [app foldl apply_restore_statement enable_triggers session_settings
         triggers_disabled table_rows];
    destruct (tuned_settings_only timeout (Some (table_name cfg)) (pending (conn st)))
      as (Hs & Hrw & Hd);
    destruct (tuned_settings_only timeout None (pending (conn st))) as (_ & Hr' & Hd');
    rewrite ?Hs, ?Hrw, ?Hd, ?Hr', ?Hd', ?Hw, ?Hm;
    repeat split; try reflexivity; apply enable_after_disable.
Qed.

Lemma restore_keeps_session_tuning_witness :
  let o := OptimizationConfig None None None (Some true) in
  let cfg := Config "events" 10 4 (Some o) in
  let m := MaintenanceConfig None None in
  let before := pending (conn initial) in
  let tuning := optimize_for_import cfg None None initial in
  let r := restore_after_import cfg m None None (conn tuning.2) in
  let after := committed (res_conn r.2) in
  optimization cfg = Some o /\
  tuning.1 = Ok tt /\
  r.1 = Ok tt /\
  session_settings after = session_settings (tuned "30min" None before) /\
  session_settings after !! "work_mem"%string = Some "'256MB'"%string /\
  session_settings after !! "maintenance_work_mem"%string = Some "'1GB'"%string /\
  triggers_disabled after = triggers_disabled before ∖ {["events"%string]} /\
  table_rows after = table_rows before.
Proof.
  intros o cfg m before tuning r after. split; [reflexivity|].
  exact (restore_keeps_session_tuning cfg o m None None initial eq_refl).
Defined.

End RestoreFacts.

Module MainFacts.
Import Py FileSplitter PerformanceOptimizer DatabaseImporter DatabaseImporterRestore Main.
Import FileSplitterFacts SplitFileFacts SplitFileProperties.
Import PerformanceOptimizerFacts TunerFacts DatabaseImporterFacts RestoreFacts.

(** ** The settings of the tuner, written over the configuration *)

Lemma apply_optimized_inv (optimized : settings) (cfg cfg' : app_config) :
  apply_optimized optimized cfg = Ok cfg' ->
  table_name (importer_config cfg') = table_name (importer_config cfg) /\
  pool_max_connections (importer_config cfg') = max_connections (database_pool optimized) /\
  import_parallel_workers (importer_config cfg') = parallel_workers (import optimized) /\
  DatabaseImporter.optimization (importer_config cfg')
  = Some {| opt_work_mem := Some (work_mem (PerformanceOptimizer.optimization optimized));
            opt_maintenance_work_mem :=
              Some (maintenance_work_mem (PerformanceOptimizer.optimization optimized));
            opt_statement_timeout :=
              Some (PerformanceOptimizer.statement_timeout (PerformanceOptimizer.optimization optimized));
            opt_disable_triggers :=
              Some (PerformanceOptimizer.disable_triggers (PerformanceOptimizer.optimization optimized)) |} /\
  maintenance cfg' = {| opt_run_vacuum := Some (run_vacuum (PerformanceOptimizer.optimization optimized));
                        opt_run_analyze := Some (run_analyze (PerformanceOptimizer.optimization optimized)) |}.
Proof.
  unfold apply_optimized.
  destruct (DatabaseImporter.optimization (importer_config cfg)); [|discriminate].
  by intros [= <-].
Qed.

(** The flags of the tuner, by level. *)
Lemma tuner_flags (local : local_specs) (size level : Z) (s : settings) :
  get_optimized_settings local size level = Ok s ->
  PerformanceOptimizer.disable_triggers (PerformanceOptimizer.optimization s) = (2 <=? level) /\
  run_vacuum (PerformanceOptimizer.optimization s) = (level <=? 2) /\
  run_analyze (PerformanceOptimizer.optimization s) = true.
Proof.
  intros Hs.
  destruct (get_optimized_settings_level local size level s Hs)
    as (instance & perf & Hi & Hp).
  apply (get_optimized_settings_inv local size level instance perf s Hi Hp) in Hs.
  apply calculate_settings_inv in Hs
    as (mc & pw & w & c & b & t & _ & _ & _ & _ & _ & _ & _ & _ & -> & -> & ->).
  clear -Hp. table_cases Hp; vm_compute; repeat split.
Qed.

(** X22: what the level of the tuner means for the database, once [main]
    has written the settings of the tuner over the configuration, when
    nothing fails.  [optimize_for_import] returns with the statement
    timeout of the tuner set and the triggers of the table disabled at the
    levels 2 and 3 only.  [restore_after_import], called then, returns
    after sending the re-enabling of the triggers at these levels, followed
    by [VACUUM ANALYZE] at the levels 1 and 2 and by [ANALYZE] alone at the
    level 3; once it has committed, the triggers of the table are enabled
    at the levels 2 and 3, and as they were before at the level 1. *)
Theorem tuned_profile_in_force :
  forall (local : local_specs) (size level : Z) (s : settings)
         (cfg cfg' : app_config) (optimize_rollback restore_rollback : option exn)
         (st : state),
    get_optimized_settings local size level = Ok s ->
    apply_optimized s cfg = Ok cfg' ->
    let t := table_name (importer_config cfg) in
    let before := pending (conn st) in
    let tuning := optimize_for_import (importer_config cfg') None optimize_rollback st in
    let r := restore_after_import (importer_config cfg') (maintenance cfg') None
                                  restore_rollback (conn tuning.2) in
    tuning.1 = Ok tt /\
    committed (conn tuning.2)
    = tuned (PerformanceOptimizer.statement_timeout (PerformanceOptimizer.optimization s))
            (if 2 <=? level then Some t else None) before /\
    r.1 = Ok tt /\
    statements_sent (res_trace r.2)
    = ((if 2 <=? level then [EnableTriggers t] else [])
       ++ [if level <=? 2 then VacuumAnalyze t else Analyze t])%list /\
    pending (res_conn r.2) = committed (res_conn r.2) /\
    triggers_disabled (committed (res_conn r.2))
    = (if 2 <=? level then triggers_disabled before ∖ {[t]}
       else triggers_disabled before).
Proof.
  intros local size level s cfg cfg' optimize_rollback restore_rollback st Hs Hcfg.
  cbv zeta.
  destruct (tuner_flags local size level s Hs) as (Hd & Hv & Ha).
  destruct (apply_optimized_inv s cfg cfg' Hcfg) as (Ht & _ & _ & Ho & Hm).
  destruct (optimize_for_import_success (importer_config cfg') _ optimize_rollback st Ho)
    as (Hret & Hc & Hp & _).
  cbv zeta in Hret, Hc, Hp.
  cbn [opt_disable_triggers opt_statement_timeout default from_option id] in Hc.
  assert (Hf : restore_fails (importer_config cfg') (maintenance cfg') None = false)
    by (unfold restore_fails; by rewrite Ho).
  destruct (restore_commits (importer_config cfg') (maintenance cfg') None
              restore_rollback
              (conn (optimize_for_import (importer_config cfg') None optimize_rollback
                                         st).2) Hf) as (Hr & Hconn & Hsent).
  cbv zeta in Hr, Hconn, Hsent.
  assert (Hstmts : restore_statements (importer_config cfg') (maintenance cfg')
                   = ((if 2 <=? level
                       then [EnableTriggers (table_name (importer_config cfg))] else [])
                      ++ [if level <=? 2
                          then VacuumAnalyze (table_name (importer_config cfg))
                          else Analyze (table_name (importer_config cfg))])%list).
  { unfold restore_statements. rewrite Ho, Hm, Ht.
    cbn [opt_disable_triggers opt_run_vacuum opt_run_analyze default from_option id].
    rewrite Hd, Hv, Ha. by destruct (2 <=? level), (level <=? 2). }
  split; [exact Hret|]. split; [by rewrite Hc, Hd, Ht|]. split; [exact Hr|].
  split; [by rewrite Hsent|].
  rewrite Hconn, Hstmts. cbn [commit in_transaction committed pending].
  split; [reflexivity|]. rewrite Hp, Hc, Hd, Ht.
  set (timeout := PerformanceOptimizer.statement_timeout
                    (PerformanceOptimizer.optimization s)).
  set (t := table_name (importer_config cfg)).
  destruct (2 <=? level), (level <=? 2);
    cbn [app foldl apply_restore_statement enable_triggers triggers_disabled];
    first [ destruct (tuned_settings_only timeout (Some t) (pending (conn st)))
              as (_ & _ & ->); apply enable_after_disable
          | by destruct (tuned_settings_only timeout None (pending (conn st)))
              as (_ & _ & ->) ].
Qed.

Lemma tuned_profile_in_force_witness :
  let local := LocalSpecs 8 16 8 10 in
  let cfg := AppConfig (Config "events" 10 4 (Some (OptimizationConfig None None None None)))
                       (MaintenanceConfig None None) 100 10000 "tmp" in
  exists s cfg',
    get_optimized_settings local 5 3 = Ok s /\
    apply_optimized s cfg = Ok cfg' /\
    let tuning := optimize_for_import (importer_config cfg') None None initial in
    let r := restore_after_import (importer_config cfg') (maintenance cfg') None None
                                  (conn tuning.2) in
    tuning.1 = Ok tt /\
    committed (conn tuning.2)
    = tuned (PerformanceOptimizer.statement_timeout (PerformanceOptimizer.optimization s))
            (Some "events"%string) (pending (conn initial)) /\
    r.1 = Ok tt /\
    statements_sent (res_trace r.2)
    = [EnableTriggers "events"; Analyze "events"]%string /\
    pending (res_conn r.2) = committed (res_conn r.2) /\
    triggers_disabled (committed (res_conn r.2))
    = triggers_disabled (pending (conn initial)) ∖ {["events"%string]}.
Proof.
  intros local cfg. eexists. eexists.
  split; [vm_compute; reflexivity|]. split; [vm_compute; reflexivity|].
  eapply (tuned_profile_in_force local 5 3 _ cfg _ None None initial);
    vm_compute; reflexivity.
Defined.

(** The worker cap of the tuned configuration. *)
Lemma tuned_max_workers (size level : Z) (instance : instance_spec)
    (perf : performance_level) (local_cores : Z) :
  INSTANCE_SPECS size = Some instance ->
  PERFORMANCE_LEVELS level = Some perf ->
  let mw := Z.min (formula_parallel_workers Qfloor instance (float_to_Q (multiplier perf))
                                            local_cores)
                  (formula_max_connections Qfloor instance (float_to_Q (multiplier perf))
                   - 1) in
  (2 <= size -> local_cores <= 1 -> mw <= 0) /\
  (size = 1 \/ 2 <= local_cores -> 0 < mw).
Proof.
  intros Hi Hp. cbv zeta. table_cases Hi; table_cases Hp;
    unfold formula_parallel_workers, formula_max_connections;
    cbn [tier cpu_cores tier_eqb]; eval_arith; split; lia.
Qed.

Lemma import_files_returns (cfg : config) (file_paths : list string)
    (use_parallel : bool) (batch_size : Z) (world : nat -> file_env)
    (schedule : list nat) (st : state) :
  job_completes cfg file_paths use_parallel batch_size world ->
  exists ok, (import_files cfg file_paths use_parallel batch_size world schedule st).1
             = Ok ok.
Proof.
  intros [Hruns Hret]. destruct (decide (file_paths = [])) as [->|Hne]; [by exists true|].
  rewrite (import_files_run cfg file_paths batch_size world use_parallel schedule st Hne).
  cbv zeta. unfold job_runs in Hruns.
  destruct (use_parallel && _).
  - specialize (Hruns eq_refl).
    destruct (max_workers cfg <=? 0) eqn:Hw; [apply Z.leb_le in Hw; lia|].
    destruct (parallel_loop _ _ _ _ _ _ _). by eexists.
  - destruct (sequential_loop_spec cfg file_paths batch_size world file_paths 0 0
                (log_message (LogStartingImport (length file_paths)) st).2
                eq_refl (Hret eq_refl)) as (H1 & _).
    destruct (sequential_loop _ _ _ _ _ _ _ _) as [r st2]. cbn [fst] in H1.
    rewrite H1. by eexists.
Qed.

(** X23: the tuner and the parallel path.  With the settings of the tuner
    written over the configuration, a parallel job of two files or more is
    refused with [ValueError] when the instance is a dedicated one (sizes 2
    to 11) and the local machine has a single core: the tuner then asks for
    no worker.  For the shared instance, or with two local cores or more,
    the job runs and returns (an exception that leaves the import of a
    file is caught around [future.result()]). *)
Theorem tuned_parallel_job :
  forall (local : local_specs) (size level : Z) (s : settings)
         (cfg cfg' : app_config) (file_paths : list string) (batch_size : Z)
         (world : nat -> file_env) (schedule : list nat) (st : state),
    get_optimized_settings local size level = Ok s ->
    apply_optimized s cfg = Ok cfg' ->
    (1 < length file_paths)%nat ->
    let r := (import_files (importer_config cfg') file_paths true batch_size world
                           schedule st).1 in
    (2 <= size -> local_cpu_cores local <= 1 ->
     r = Raise (ValueError "max_workers must be greater than 0")) /\
    (size = 1 \/ 2 <= local_cpu_cores local -> exists ok, r = Ok ok).
Proof.
  intros local size level s cfg cfg' file_paths batch_size world schedule st
         Hs Hcfg Hlen. cbv zeta.
  destruct (get_optimized_settings_level local size level s Hs)
    as (instance & perf & Hi & Hp).
  apply (get_optimized_settings_inv local size level instance perf s Hi Hp) in Hs.
  apply calculate_settings_inv in Hs
    as (mc & pw & w & c & b & t & Hconn & _ & _ & _ & _ & Hpool & Himp & _).
  rewrite (connection_settings_table size level instance perf _ Hi Hp) in Hconn.
  injection Hconn as <- <-.
  destruct (apply_optimized_inv s cfg cfg' Hcfg) as (_ & Hmc & Hpw & _).
  rewrite Hpool in Hmc. rewrite Himp in Hpw. cbn [max_connections parallel_workers] in *.
  destruct (tuned_max_workers size level instance perf (local_cpu_cores local) Hi Hp)
    as [Hno Hyes]. cbv zeta in Hno, Hyes.
  assert (Hpar : true && (1 <? Z.of_nat (length file_paths)) = true).
  { apply andb_true_iff. split; [reflexivity|]. apply Z.ltb_lt. lia. }
  split.
  - intros Hsize Hcores.
    apply (import_files_refused (importer_config cfg') file_paths batch_size world
             true schedule st).
    unfold job_runs, max_workers. rewrite Hmc, Hpw. intros Hruns.
    specialize (Hruns Hpar). specialize (Hno Hsize Hcores). lia.
  - intros Hok. apply import_files_returns. split.
    + unfold job_runs, max_workers. rewrite Hmc, Hpw. intros _. by apply Hyes.
    + rewrite Hpar. discriminate.
Qed.

Lemma tuned_parallel_job_witness :
  let local := LocalSpecs 1 16 8 10 in
  let cfg := AppConfig (Config "events" 10 4 (Some (OptimizationConfig None None None None)))
                       (MaintenanceConfig None None) 100 10000 "tmp" in
  let world := fun _ : nat => FileEnv 10 1 [] None None None None in
  exists s cfg',
    get_optimized_settings local 5 2 = Ok s /\
    apply_optimized s cfg = Ok cfg' /\
    (1 < length ["a.csv"; "b.csv"]%string)%nat /\
    let r := (import_files (importer_config cfg') ["a.csv"; "b.csv"]%string
                           true 1000 world [0; 1]%nat initial).1 in
    (2 <= 5 -> local_cpu_cores local <= 1 ->
     r = Raise (ValueError "max_workers must be greater than 0")) /\
    (5 = 1 \/ 2 <= local_cpu_cores local -> exists ok, r = Ok ok).
Proof.
  intros local cfg world. eexists. eexists.
  split; [vm_compute; reflexivity|]. split; [vm_compute; reflexivity|].
  split; [simpl; lia|].
  eapply (tuned_parallel_job local 5 2 _ cfg); [vm_compute; reflexivity
                                               |vm_compute; reflexivity|simpl; lia].
Defined.

(** ** [import_file]: the files *)

Lemma remove_all_lookup (l : list string) (fs : gmap string text) (p : string) :
  foldl (fun fs chunk_file => delete chunk_file fs) fs l !! p
  = if decide (p ∈ l) then None else fs !! p.
Proof.
  revert fs. induction l as [|a l IH]; intros fs; simpl.
  - destruct (decide (p ∈ [])) as [H|_]; [by apply elem_of_nil in H|reflexivity].
  - rewrite IH. destruct (decide (p ∈ l)) as [Hl|Hl].
    + rewrite decide_True; [reflexivity|by apply elem_of_cons; right].
    + destruct (decide (a = p)) as [->|Hne].
      * rewrite decide_True; [apply lookup_delete_eq|by apply elem_of_cons; left].
      * rewrite lookup_delete_ne by done.
        rewrite decide_False; [reflexivity|].
        intros [H|H]%elem_of_cons; [by subst|done].
Qed.

Lemma cleanup_lookup (l : list string) (fs : gmap string text) (p : string) :
  p ∉ l -> cleanup l fs !! p = fs !! p.
Proof.
  intros Hp. unfold cleanup. destruct (1 <? length l)%nat; [|reflexivity].
  rewrite remove_all_lookup. by rewrite decide_False.
Qed.

Lemma split_file_names_not_source (temp_directory file_path : string)
    (chunk_size_mb : Z) (output_dir : option string) (stored : text)
    (fs : gmap string text) :
  file_path ∉ (split_file temp_directory file_path chunk_size_mb output_dir stored fs).1.
Proof.
  destruct (split_file_groups temp_directory file_path chunk_size_mb output_dir
              stored fs) as (groups & Hn & _).
  cbv zeta in Hn. rewrite Hn. intros (n & Heq & _)%list_elem_of_fmap.
  symmetry in Heq. revert Heq. apply chunk_filename_not_source.
Qed.

(** The files after a run, case by case. *)
Lemma import_file_files (cfg : app_config) (file_path : string) (o : options)
    (env : run_env) (fs : gmap string text) (st : state) :
  let out := import_file cfg file_path o env fs st in
  let split := split_of cfg file_path o env fs in
  files_after out = fs \/
  needs_split cfg env = true /\ valid (analyzed env) = true /\
  (files_after out = split.2 \/ files_after out = cleanup split.1 split.2).
Proof.
  cbv zeta. unfold import_file, needs_split, split_of.
  destruct (valid (analyzed env)); [|by left]. cbn [negb].
  destruct (PrimFloat.ltb _ _).
  - destruct (split_file _ _ _ _ _ _) as [names fs1]. cbn [fst snd].
    destruct (pool_failure env); [by right; repeat split; left|].
    destruct (if default true (optimize o) then _ else _) as [[u|e] st1];
      [|by right; repeat split; left].
    destruct (import_files _ _ _ _ _ _ _) as [[ok|e] st2];
      [|by right; repeat split; left].
    destruct (if default true (optimize o) then _ else _) as [[u'|e] rs];
      by right; repeat split; (left + right).
  - destruct (pool_failure env); [by left|].
    destruct (if default true (optimize o) then _ else _) as [[u|e] st1]; [|by left].
    destruct (import_files _ _ _ _ _ _ _) as [[ok|e] st2]; [|by left].
    destruct (if default true (optimize o) then _ else _) as [[u'|e] rs]; by left.
Qed.

(** X24: the log files aside, [import_file] never touches the source file,
    nor any file but the chunks of its split: on every path (invalid file,
    pool that cannot be created, tuning that raises, job refused, stopped
    or run, restore failing, raising or not), every path of the file system
    that is not a chunk name holds after the call what it held before, the
    path of the source among them; and nothing at all is written or removed
    when the file is not split. *)
Theorem import_file_touches_chunks_only :
  forall (cfg : app_config) (file_path : string) (o : options) (env : run_env)
         (fs : gmap string text) (st : state),
    let out := import_file cfg file_path o env fs st in
    let chunks := (split_of cfg file_path o env fs).1 in
    files_after out !! file_path = fs !! file_path /\
    (forall p, p ∉ chunks -> files_after out !! p = fs !! p) /\
    (needs_split cfg env = false -> files_after out = fs).
Proof.
  intros cfg file_path o env fs st. cbv zeta.
  assert (Hframe : forall p, p ∉ (split_of cfg file_path o env fs).1 ->
            files_after (import_file cfg file_path o env fs st) !! p = fs !! p).
  { intros p Hp.
    destruct (import_file_files cfg file_path o env fs st) as [->|(_ & _ & [->| ->])];
      [reflexivity| |rewrite cleanup_lookup by done];
      by apply split_file_frame_eq. }
  split; [|split].
  - apply Hframe, split_file_names_not_source.
  - exact Hframe.
  - intros Hno.
    destruct (import_file_files cfg file_path o env fs st) as [H|(Hyes & _)];
      [exact H|congruence].
Qed.

Lemma import_file_split_run (cfg : app_config) (file_path : string) (o : options)
    (env : run_env) (fs : gmap string text) (st : state) :
  valid (analyzed env) = true ->
  needs_split cfg env = true ->
  import_file cfg file_path o env fs st
  = let split := split_of cfg file_path o env fs in
    match pool_failure env with
    | Some e => Outcome false split.2 st []
    | None =>
        let st1 := importer_at_start cfg o env st in
        match (tuning cfg o env st).1 with
        | Raise e => Outcome false split.2 st1 []
        | Ok _ =>
            let r := import_files (importer_config cfg) split.1
                       (default true (parallel o))
                       (default (import_batch_size cfg) (batch_size_option o))
                       (world env) (schedule env) st1 in
            match r.1 with
            | Raise e => Outcome false split.2 r.2 []
            | Ok success =>
                let restored := restoring cfg o env (conn r.2) in
                let st3 := {| progress := progress r.2;
                              conn := res_conn restored.2;
                              original_settings := original_settings r.2;
                              trace := trace r.2 |} in
                match restored.1 with
                | Raise e => Outcome false split.2 st3 (res_trace restored.2)
                | Ok _ => Outcome success (cleanup split.1 split.2) st3
                                  (res_trace restored.2)
                end
            end
        end
    end.
Proof.
  intros Hvalid Hsplit.
  unfold import_file, needs_split, split_of, importer_at_start, tuning, restoring in *.
  rewrite Hvalid, Hsplit. cbn [negb]. cbv zeta.
  destruct (split_file _ _ _ _ _ _) as [names fs1]. cbn [fst snd].
  destruct (pool_failure env); [reflexivity|].
  destruct (if default true (optimize o) then _ else _) as [[u|e] st1];
    cbn [fst snd]; [|reflexivity].
  destruct (import_files _ _ _ _ _ _ _) as [[ok|e] st2]; cbn [fst snd]; [|reflexivity].
  by destruct (if default true (optimize o) then _ else _) as [[u'|e] rs].
Qed.

(** When the rollback of its handler does not raise, the tuning returns;
    and so does the restore. *)
Lemma tuning_returns (cfg : app_config) (o : options) (env : run_env) (st : state) :
  optimize_rollback_failure env = None ->
  (tuning cfg o env st).1 = Ok tt.
Proof.
  intros Hrb. unfold tuning. destruct (default true (optimize o)); [|reflexivity].
  rewrite Hrb.
  by destruct (optimize_for_import_atomic (importer_config cfg) (optimize_failure env)
                 None st) as ((-> & _) & _).
Qed.

Lemma restoring_returns (cfg : app_config) (o : options) (env : run_env)
    (c : connection) :
  restore_rollback_failure env = None ->
  (restoring cfg o env c).1 = Ok tt.
Proof.
  intros Hrb. unfold restoring. destruct (default true (optimize o)); [|reflexivity].
  rewrite Hrb. apply restore_returns.
Qed.

(** X25: when the file is split into two chunks or more, no rollback of
    [optimize_for_import] or [restore_after_import] raises and the job runs
    to its end, whatever it returns, every chunk is removed: after the call
    no chunk name holds a file (a file that was there before under a chunk
    name is lost), and every other path holds what it held before. *)
Theorem import_file_removes_chunks :
  forall (cfg : app_config) (file_path : string) (o : options) (env : run_env)
         (fs : gmap string text) (st : state),
    let out := import_file cfg file_path o env fs st in
    let chunks := (split_of cfg file_path o env fs).1 in
    valid (analyzed env) = true ->
    needs_split cfg env = true ->
    pool_failure env = None ->
    optimize_rollback_failure env = None ->
    restore_rollback_failure env = None ->
    job_completes (importer_config cfg) chunks (default true (parallel o))
                  (default (import_batch_size cfg) (batch_size_option o))
                  (world env) ->
    (1 < length chunks)%nat ->
    forall p, files_after out !! p = if decide (p ∈ chunks) then None else fs !! p.
Proof.
  intros cfg file_path o env fs st out chunks Hvalid Hsplit Hpool Hopt Hres Hdone
         Hlen p.
  unfold out. rewrite (import_file_split_run cfg file_path o env fs st Hvalid Hsplit).
  cbv zeta. rewrite Hpool, (tuning_returns cfg o env st Hopt). fold chunks.
  destruct (import_files_returns (importer_config cfg) chunks
              (default true (parallel o))
              (default (import_batch_size cfg) (batch_size_option o))
              (world env) (schedule env) (importer_at_start cfg o env st) Hdone)
    as [ok ->].
  rewrite (restoring_returns cfg o env _ Hres).
  cbn [files_after]. unfold cleanup. fold chunks.
  apply Nat.ltb_lt in Hlen. rewrite Hlen, remove_all_lookup.
  destruct (decide (p ∈ chunks)); [reflexivity|]. by apply split_file_frame_eq.
Qed.

Lemma import_file_removes_chunks_witness :
  let cfg := AppConfig (Config "events" 10 4 None) (MaintenanceConfig None None)
                       0 1000 "tmp" in
  let o := Options None None None None None in
  let env := RunEnv (Analysis true (8 / 1048576)%float)
                    (text_of_string "id" ++ [LF; 49; LF; 50; LF])%N
                    None None None (fun _ => FileEnv 5 1 [] None None None None)
                    [0; 1]%nat None None in
  let fs : gmap string text := {["tmp/notes.txt"%string := text_of_string "keep"]} in
  let out := import_file cfg "data.csv" o env fs initial in
  let chunks := (split_of cfg "data.csv" o env fs).1 in
  valid (analyzed env) = true /\
  needs_split cfg env = true /\
  pool_failure env = None /\
  optimize_rollback_failure env = None /\
  restore_rollback_failure env = None /\
  job_completes (importer_config cfg) chunks (default true (parallel o))
                (default (import_batch_size cfg) (batch_size_option o))
                (world env) /\
  (1 < length chunks)%nat /\
  forall p, files_after out !! p = if decide (p ∈ chunks) then None else fs !! p.
Proof.
  intros cfg o env fs out chunks.
  assert (H1 : valid (analyzed env) = true) by reflexivity.
  assert (H2 : needs_split cfg env = true) by (vm_compute; reflexivity).
  assert (H3 : pool_failure env = None) by reflexivity.
  assert (H3a : optimize_rollback_failure env = None) by reflexivity.
  assert (H3b : restore_rollback_failure env = None) by reflexivity.
  assert (H4 : job_completes (importer_config cfg) chunks (default true (parallel o))
                 (default (import_batch_size cfg) (batch_size_option o)) (world env)).
  { split; [intros _; vm_compute; reflexivity|]. intros Hseq. vm_compute in Hseq.
    discriminate Hseq. }
  assert (H5 : (1 < length chunks)%nat) by (vm_compute; lia).
  repeat (split; [assumption|]).
  exact (import_file_removes_chunks cfg "data.csv" o env fs initial H1 H2 H3 H3a H3b
           H4 H5).
Defined.

(** X26: a split that gives a single chunk leaves it behind.  When the
    file is split (it is larger than the chunk size of the configuration)
    with a chunk size it fits in (the one of the options), the one chunk
    written is not removed, on any path: after the call the chunk numbered
    0001 still holds the text of the source. *)
Theorem import_file_leaves_single_chunk :
  forall (cfg : app_config) (file_path : string) (o : options) (env : run_env)
         (fs : gmap string text) (st : state),
    let out := import_file cfg file_path o env fs st in
    let infile := universal_newlines (stored env) in
    let dir := match temp_dir o with None => temp_directory cfg | Some d => d end in
    valid (analyzed env) = true ->
    needs_split cfg env = true ->
    utf8_len infile
    <= default (import_chunk_size_mb cfg) (chunk_size o) * 1024 * 1024 ->
    (readline infile).2 <> [] ->
    files_after out !! chunk_filename dir (path_stem file_path) 1 = Some infile.
Proof.
  intros cfg file_path o env fs st out infile dir Hvalid Hsplit Hfits Hbody.
  destruct (split_file_single (temp_directory cfg) file_path
              (default (import_chunk_size_mb cfg) (chunk_size o)) (temp_dir o)
              (stored env) fs Hfits Hbody) as [Hn Hlook].
  fold dir infile in Hn, Hlook. fold (split_of cfg file_path o env fs) in Hn, Hlook.
  unfold out. rewrite (import_file_split_run cfg file_path o env fs st Hvalid Hsplit).
  cbv zeta. destruct (pool_failure env); [exact Hlook|].
  destruct (tuning cfg o env st).1; [|exact Hlook].
  destruct (import_files _ _ _ _ _ _ _).1; cbn [files_after]; [|exact Hlook].
  destruct (restoring cfg o env _).1; cbn [files_after]; [|exact Hlook].
  rewrite Hn. unfold cleanup. cbn [length Nat.ltb Nat.leb]. exact Hlook.
Qed.

Lemma import_file_leaves_single_chunk_witness :
  let cfg := AppConfig (Config "events" 10 4 None) (MaintenanceConfig None None)
                       0 1000 "tmp" in
  let o := Options (Some 1) None None None None in
  let env := RunEnv (Analysis true (8 / 1048576)%float)
                    (text_of_string "id" ++ [LF; 49; LF; 50; LF])%N
                    None None None (fun _ => FileEnv 8 2 [] None None None None)
                    [0]%nat None None in
  let out := import_file cfg "data.csv" o env ∅ initial in
  let infile := universal_newlines (stored env) in
  valid (analyzed env) = true /\
  needs_split cfg env = true /\
  utf8_len infile <= default (import_chunk_size_mb cfg) (chunk_size o) * 1024 * 1024 /\
  (readline infile).2 <> [] /\
  files_after out !! chunk_filename "tmp" (path_stem "data.csv") 1 = Some infile.
Proof.
  intros cfg o env out infile.
  assert (H1 : valid (analyzed env) = true) by reflexivity.
  assert (H2 : needs_split cfg env = true) by (vm_compute; reflexivity).
  assert (H3 : utf8_len infile
               <= default (import_chunk_size_mb cfg) (chunk_size o) * 1024 * 1024)
    by (vm_compute; discriminate).
  assert (H4 : (readline infile).2 <> []) by (vm_compute; discriminate).
  repeat (split; [assumption|]).
  exact (import_file_leaves_single_chunk cfg "data.csv" o env ∅ initial H1 H2 H3 H4).
Defined.

(** X27: a job that the executor refuses skips the restore and the
    cleanup.  When the file is split into two chunks or more, the job is
    parallel and the worker cap of the configuration is not positive,
    [import_file] returns [False]; every chunk stays in the output
    directory; [restore_after_import] is not called, so the database is
    left as [optimize_for_import] left it: with the triggers of the table
    disabled when the configuration asks for it and the tuning met no
    failure. *)
Theorem import_file_refused_job :
  forall (cfg : app_config) (file_path : string) (o : options) (env : run_env)
         (fs : gmap string text) (st : state),
    let out := import_file cfg file_path o env fs st in
    let split := split_of cfg file_path o env fs in
    valid (analyzed env) = true ->
    needs_split cfg env = true ->
    pool_failure env = None ->
    default true (parallel o) = true ->
    (1 < length split.1)%nat ->
    max_workers (importer_config cfg) <= 0 ->
    returned out = false /\
    files_after out = split.2 /\
    restore_trace out = [] /\
    conn (importer_after out) = conn (importer_at_start cfg o env st) /\
    progress (importer_after out) = progress (importer_at_start cfg o env st) /\
    (forall oc, default true (optimize o) = true ->
                optimize_failure env = None ->
                DatabaseImporter.optimization (importer_config cfg) = Some oc ->
                opt_disable_triggers oc = Some true ->
                table_name (importer_config cfg)
                ∈ triggers_disabled (committed (conn (importer_after out)))).
Proof.
  intros cfg file_path o env fs st out split Hvalid Hsplit Hpool Hpar Hlen Hcap.
  unfold out. rewrite (import_file_split_run cfg file_path o env fs st Hvalid Hsplit).
  cbv zeta. rewrite Hpool. fold split.
  destruct (import_files_refused (importer_config cfg) split.1
              (default (import_batch_size cfg) (batch_size_option o)) (world env)
              (default true (parallel o)) (schedule env)
              (importer_at_start cfg o env st)) as (Hr & _ & Hprog & Hconn).
  { unfold job_runs. rewrite Hpar. intros Hruns.
    assert (Hp : true && (1 <? Z.of_nat (length split.1)) = true).
    { apply andb_true_iff. split; [reflexivity|]. apply Z.ltb_lt. lia. }
    specialize (Hruns Hp). lia. }
  cbv zeta in Hr, Hprog, Hconn. rewrite Hr.
  assert (Hconn' : conn (importer_after
                           (match (tuning cfg o env st).1 with
                            | Ok _ => Outcome false split.2
                                        (import_files (importer_config cfg) split.1
                                           (default true (parallel o))
                                           (default (import_batch_size cfg)
                                                    (batch_size_option o))
                                           (world env) (schedule env)
                                           (importer_at_start cfg o env st)).2 []
                            | Raise _ => Outcome false split.2
                                           (importer_at_start cfg o env st) []
                            end))
                   = conn (importer_at_start cfg o env st)).
  { destruct (tuning cfg o env st).1; [exact Hconn|reflexivity]. }
  split; [by destruct (tuning cfg o env st).1|].
  split; [by destruct (tuning cfg o env st).1|].
  split; [by destruct (tuning cfg o env st).1|].
  split; [exact Hconn'|].
  split; [destruct (tuning cfg o env st).1; [exact Hprog|reflexivity]|].
  rewrite Hconn'.
  intros oc Hopt Hfail Hoc Htrig. unfold importer_at_start, tuning. rewrite Hopt, Hfail.
  destruct (optimize_for_import_success (importer_config cfg) oc
              (optimize_rollback_failure env) st Hoc) as (_ & Hc & _).
  cbv zeta in Hc. rewrite Htrig in Hc. cbn [default from_option id] in Hc.
  rewrite Hc.
  destruct (tuned_settings_only (default "30min"%string (opt_statement_timeout oc))
              (Some (table_name (importer_config cfg))) (pending (conn st)))
    as (_ & _ & ->).
  apply elem_of_union_l, elem_of_singleton. reflexivity.
Qed.

Lemma import_file_refused_job_witness :
  let oc := OptimizationConfig None None None (Some true) in
  let cfg := AppConfig (Config "events" 10 0 (Some oc)) (MaintenanceConfig None None)
                       0 1000 "tmp" in
  let o := Options None None None None None in
  let env := RunEnv (Analysis true (8 / 1048576)%float)
                    (text_of_string "id" ++ [LF; 49; LF; 50; LF])%N
                    None None None (fun _ => FileEnv 5 1 [] None None None None)
                    [0; 1]%nat None None in
  let out := import_file cfg "data.csv" o env ∅ initial in
  let split := split_of cfg "data.csv" o env ∅ in
  valid (analyzed env) = true /\
  needs_split cfg env = true /\
  pool_failure env = None /\
  default true (parallel o) = true /\
  (1 < length split.1)%nat /\
  max_workers (importer_config cfg) <= 0 /\
  returned out = false /\
  files_after out = split.2 /\
  restore_trace out = [] /\
  conn (importer_after out) = conn (importer_at_start cfg o env initial) /\
  progress (importer_after out) = progress (importer_at_start cfg o env initial) /\
  (forall oc', default true (optimize o) = true ->
               optimize_failure env = None ->
               DatabaseImporter.optimization (importer_config cfg) = Some oc' ->
               opt_disable_triggers oc' = Some true ->
               table_name (importer_config cfg)
               ∈ triggers_disabled (committed (conn (importer_after out)))).
Proof.
  intros oc cfg o env out split.
  assert (H1 : valid (analyzed env) = true) by reflexivity.
  assert (H2 : needs_split cfg env = true) by (vm_compute; reflexivity).
  assert (H3 : pool_failure env = None) by reflexivity.
  assert (H4 : default true (parallel o) = true) by reflexivity.
  assert (H5 : (1 < length split.1)%nat) by (vm_compute; lia).
  assert (H6 : max_workers (importer_config cfg) <= 0) by (vm_compute; discriminate).
  repeat (split; [assumption|]).
  exact (import_file_refused_job cfg "data.csv" o env ∅ initial H1 H2 H3 H4 H5 H6).
Defined.

End MainFacts.
